(** * The durable state engine of the stateful image builder

    A shallow embedding of the Go packages [builder/state] (state document,
    fingerprinting, lock file, manager) and [builder/wrapper] (the stateful
    build wrapper), together with the properties of the specification that
    were checked against them.

    Conventions of the embedding.
    - Go [string] is a byte string: Rocq [string].
    - Go [int] is the 64-bit signed integer of the usual targets: a [Z]
      kept in range by [Int.wrap].
    - Go [map[string]T] is [GoMap.t T]: [nil], or a table [gmap string T].
      A lookup [m[k]] of a missing key yields the zero value; an
      assignment to an entry of a [nil] map panics; a [range] over a map
      visits the entries in an order the language leaves unspecified, so
      a loop over a map is given the order it takes.
    - A pointer that may be [nil] is an [option]; a slice is a list, and
      an [option (list _)] where the encoder tells [nil] from empty.
    - The document a [*State] points to is shared by all its holders: it
      lives in the manager, and a write through a [*Build] held by the
      wrapper is a write to the map of builds.
    - The file system is a finite map from paths to contents, together with
      an oracle that decides which of the upcoming fallible calls fail.
    - A Go method [(r *T) M] is [T.M]; the structs are records [T.t]. *)

From Stdlib Require Import ZArith String Ascii List Lia Bool.
From stdpp Require Import base option list strings gmap fin_maps sorting.

Import ListNotations.
Local Open Scope string_scope.

(** ** Bytes of a string *)

Definition byte_of (c : ascii) : Z := Z.of_N (N_of_ascii c).

Definition bytes_of (s : string) : list Z :=
  map byte_of (list_ascii_of_string s).

(** The texts of the examples are written with an apostrophe where the
    text has a double quote. *)
Fixpoint with_quotes (s : string) : string :=
  match s with
  | EmptyString => ""
  | String c s' => String (if Ascii.eqb c "'" then "034"%char else c) (with_quotes s')
  end.

(** ** crypto/sha256 (FIPS 180-4) on 32-bit words held in [Z] *)

Module Sha256.
Local Open Scope Z_scope.

Definition w32 (x : Z) : Z := x mod 2 ^ 32.

Definition add32 (x y : Z) : Z := w32 (x + y).

Definition rotr (n x : Z) : Z :=
  Z.lor (Z.shiftr x n) (w32 (Z.shiftl x (32 - n))).

Definition not32 (x : Z) : Z := Z.lxor x 0xffffffff.

Definition Ch (x y z : Z) : Z := Z.lxor (Z.land x y) (Z.land (not32 x) z).

Definition Maj (x y z : Z) : Z :=
  Z.lxor (Z.lxor (Z.land x y) (Z.land x z)) (Z.land y z).

Definition bsig0 (x : Z) : Z := Z.lxor (Z.lxor (rotr 2 x) (rotr 13 x)) (rotr 22 x).
Definition bsig1 (x : Z) : Z := Z.lxor (Z.lxor (rotr 6 x) (rotr 11 x)) (rotr 25 x).
Definition ssig0 (x : Z) : Z := Z.lxor (Z.lxor (rotr 7 x) (rotr 18 x)) (Z.shiftr x 3).
Definition ssig1 (x : Z) : Z := Z.lxor (Z.lxor (rotr 17 x) (rotr 19 x)) (Z.shiftr x 10).

(** The constants of the standard are the first 32 bits of the
    fractional parts of roots of the first primes; they are computed
    here rather than listed. *)

(** The primes among [n], [n + 1], ..., tried in turn against the primes
    found so far. *)
Fixpoint sieve (fuel : nat) (n : Z) (found : list Z) : list Z :=
  match fuel with
  | O => rev found
  | S f =>
      if forallb (fun p => negb (n mod p =? 0)) found
      then sieve f (n + 1) (n :: found)
      else sieve f (n + 1) found
  end.

(** The first 64 primes: those up to 311. *)
Definition primes : list Z := sieve 310 2 [].

(** The largest [r] below [2 ^ bits] (added to [r]) with [pow r <= n]. *)
Fixpoint root_bits (pow : Z -> Z) (bits : nat) (r n : Z) : Z :=
  match bits with
  | O => r
  | S b =>
      let r' := r + 2 ^ Z.of_nat b in
      if pow r' <=? n then root_bits pow b r' n else root_bits pow b r n
  end.

(** The first 32 bits of the fractional part of a root of [p], the root
    being the inverse of [pow] on numbers scaled by [2 ^ shift]. *)
Definition frac_root (pow : Z -> Z) (shift : Z) (p : Z) : Z :=
  w32 (root_bits pow 40 0 (p * 2 ^ shift)).

(** Cube roots of the first 64 primes. *)
Definition K : list Z := map (frac_root (fun r => r * r * r) 96) primes.

(** The eight working variables a..h, also the chaining value. *)
Record regs := Regs { ra : Z; rb : Z; rc : Z; rd : Z; re : Z; rf : Z; rg : Z; rh : Z }.

(** Square roots of the first 8 primes. *)
Definition H0 : regs :=
  match map (frac_root (fun r => r * r) 64) (firstn 8 primes) with
  | [a; b; c; d; e; f; g; h] => Regs a b c d e f g h
  | _ => Regs 0 0 0 0 0 0 0 0
  end.

Definition round (k wt : Z) (r : regs) : regs :=
  let t1 := add32 (add32 (add32 (add32 (rh r) (bsig1 (re r))) (Ch (re r) (rf r) (rg r))) k) wt in
  let t2 := add32 (bsig0 (ra r)) (Maj (ra r) (rb r) (rc r)) in
  Regs (add32 t1 t2) (ra r) (rb r) (rc r) (add32 (rd r) t1) (re r) (rf r) (rg r).

(** [ws] is the sliding window W[t..t+15] of the message schedule. *)
Fixpoint rounds (ks : list Z) (ws : list Z) (r : regs) : regs :=
  match ks with
  | [] => r
  | k :: ks' =>
      let wnew := add32 (add32 (add32 (ssig1 (nth 14 ws 0)) (nth 9 ws 0))
                               (ssig0 (nth 1 ws 0))) (nth 0 ws 0) in
      rounds ks' (tl ws ++ [wnew]) (round k (nth 0 ws 0) r)
  end.

Definition add_regs (x y : regs) : regs :=
  Regs (add32 (ra x) (ra y)) (add32 (rb x) (rb y)) (add32 (rc x) (rc y))
       (add32 (rd x) (rd y)) (add32 (re x) (re y)) (add32 (rf x) (rf y))
       (add32 (rg x) (rg y)) (add32 (rh x) (rh y)).

(** Big-endian 32-bit words of a block of bytes. *)
Fixpoint words (n : nat) (bs : list Z) : list Z :=
  match n, bs with
  | S n', b0 :: b1 :: b2 :: b3 :: bs' =>
      (b0 * 2 ^ 24 + b1 * 2 ^ 16 + b2 * 2 ^ 8 + b3) :: words n' bs'
  | _, _ => []
  end.

Definition compress (r : regs) (block : list Z) : regs :=
  add_regs r (rounds K (words 16 block) r).

Fixpoint blocks (n : nat) (bs : list Z) (r : regs) : regs :=
  match n with
  | O => r
  | S n' => blocks n' (skipn 64 bs) (compress r (firstn 64 bs))
  end.

Definition be_bytes (k : nat) (x : Z) : list Z :=
  map (fun i => (x / 2 ^ (8 * Z.of_nat i)) mod 256) (rev (seq 0 k)).

Definition pad (bs : list Z) : list Z :=
  let len := Z.of_nat (length bs) in
  let zeros := Z.to_nat ((55 - len) mod 64) in
  bs ++ [0x80] ++ repeat 0 zeros ++ be_bytes 8 (8 * len).

Definition digest_of (r : regs) : list Z :=
  concat (map (be_bytes 4) [ra r; rb r; rc r; rd r; re r; rf r; rg r; rh r]).

(** [h := sha256.New(); h.Write(bs); h.Sum(nil)] *)
Definition Sum256 (bs : list Z) : list Z :=
  let p := pad bs in
  digest_of (blocks (length p / 64) p H0).

End Sha256.

(** ** fmt.Sprintf("%x", bytes): two lower-case hex digits per byte *)

Definition hex_digit (d : Z) : ascii :=
  if (d <? 10)%Z then ascii_of_N (Z.to_N (48 + d)) else ascii_of_N (Z.to_N (87 + d)).

Fixpoint hex_of_bytes (bs : list Z) : string :=
  match bs with
  | [] => ""
  | b :: bs' => String (hex_digit (b / 16)) (String (hex_digit (b mod 16)) (hex_of_bytes bs'))
  end.

(** [fmt.Sprintf("sha256:%x", h.Sum(nil))] after writing [s] to [h]. *)
Definition sha256_label (written : string) : string :=
  "sha256:" ++ hex_of_bytes (Sha256.Sum256 (bytes_of written)).

(** ComputeStringHash computes the SHA256 hash of a string. *)
Definition ComputeStringHash (s : string) : string := sha256_label s.

(** ** Go's [int]: 64-bit two's complement *)

Module Int.
Local Open Scope Z_scope.

Definition size : Z := 64.
Definition MaxInt : Z := 2 ^ (size - 1) - 1.
Definition MinInt : Z := - 2 ^ (size - 1).

(** The value an arithmetic result takes in an [int]. *)
Definition wrap (x : Z) : Z := (x - MinInt) mod 2 ^ size + MinInt.

Definition in_range (x : Z) : bool := (MinInt <=? x) && (x <=? MaxInt).

(** [x++] *)
Definition incr (x : Z) : Z := wrap (x + 1).

End Int.

(** ** strconv: decimal text of an integer *)

Module Strconv.
Local Open Scope Z_scope.

Definition digit_char (d : Z) : ascii := ascii_of_N (Z.to_N (48 + d)).

Fixpoint digits (fuel : nat) (x : Z) (acc : string) : string :=
  match fuel with
  | O => acc
  | S f =>
      let acc' := String (digit_char (x mod 10)) acc in
      if x <? 10 then acc' else digits f (x / 10) acc'
  end.

(** [strconv.Itoa] *)
Definition Itoa (x : Z) : string :=
  if x <? 0 then String "-" (digits 20 (- x) "") else digits 20 x "".

Definition is_digit (c : ascii) : bool :=
  (48 <=? byte_of c) && (byte_of c <=? 57).

Fixpoint digits_value (s : string) (acc : Z) : option Z :=
  match s with
  | EmptyString => Some acc
  | String c s' =>
      if is_digit c then digits_value s' (10 * acc + (byte_of c - 48)) else None
  end.

(** [strconv.ParseInt(s, 10, 64)] on a JSON number literal: an optional
    minus sign and decimal digits, the value within the range of [int]. *)
Definition ParseInt (s : string) : option Z :=
  let r := match s with
           | String "-" ((String _ _) as ds) => option_map Z.opp (digits_value ds 0)
           | String _ _ => digits_value s 0
           | EmptyString => None
           end in
  match r with
  | Some x => if Int.in_range x then Some x else None
  | None => None
  end.

End Strconv.

(** ** encoding/json

    The library is not part of the repository; this is a model of the part
    of it the state package relies on: the grammar of RFC 8259, the decoding
    of values into Go structs, maps, slices, pointers, strings, ints and
    booleans, and the indented encoder with its escaping.  Where the model
    is narrower than the library: strings are taken to be valid UTF-8
    (bytes above 0x7f are copied unchanged in both directions, so the
    encoder's escapes of U+2028 and U+2029 and the replacement of invalid
    bytes are left out); the key of a member is matched to a field name
    up to ASCII case; a number held in an [interface{}] is kept as its
    literal; the limit on the depth of nesting is left out. *)

Module Json.
Local Open Scope Z_scope.
Local Set Warnings "-register-all".

Inductive value :=
| Null
| Bool (b : bool)
| Number (lit : string)
| Str (s : string)
| Array (vs : list value)
| Object (ms : list (string * value)).

Inductive token :=
| TLBrace | TRBrace | TLBracket | TRBracket | TColon | TComma
| TNull | TTrue | TFalse
| TNumber (lit : string)
| TString (s : string)
| TBad.

Definition chr (x : Z) : ascii := ascii_of_N (Z.to_N x).

Definition snoc (s : string) (c : ascii) : string := (s ++ String c "")%string.

(** *** Lexical analysis *)

Definition is_ws (c : ascii) : bool :=
  match c with
  | " " | "009" | "010" | "013" => true
  | _ => false
  end%char.

Definition is_lower (c : ascii) : bool := (97 <=? byte_of c) && (byte_of c <=? 122).

Definition is_number_char (c : ascii) : bool :=
  Strconv.is_digit c ||
  match c with "-" | "+" | "." | "e" | "E" => true | _ => false end%char.

Definition hex_value (c : ascii) : option Z :=
  let b := byte_of c in
  if (48 <=? b) && (b <=? 57) then Some (b - 48)
  else if (97 <=? b) && (b <=? 102) then Some (b - 87)
  else if (65 <=? b) && (b <=? 70) then Some (b - 55)
  else None.

(** UTF-8 encoding of a code point. *)
Definition utf8 (cp : Z) : string :=
  if cp <? 0x80 then String (chr cp) ""
  else if cp <? 0x800 then
    String (chr (0xC0 + cp / 64)) (String (chr (0x80 + cp mod 64)) "")
  else if cp <? 0x10000 then
    String (chr (0xE0 + cp / 4096))
      (String (chr (0x80 + (cp / 64) mod 64)) (String (chr (0x80 + cp mod 64)) ""))
  else
    String (chr (0xF0 + cp / 262144))
      (String (chr (0x80 + (cp / 4096) mod 64))
         (String (chr (0x80 + (cp / 64) mod 64)) (String (chr (0x80 + cp mod 64)) ""))).

(** unicode.ReplacementChar *)
Definition replacement : string := utf8 0xFFFD.

Definition is_high_surrogate (cp : Z) : bool := (0xD800 <=? cp) && (cp <? 0xDC00).
Definition is_low_surrogate (cp : Z) : bool := (0xDC00 <=? cp) && (cp <? 0xE000).

(** utf16.DecodeRune *)
Definition combine (hi lo : Z) : Z := 0x10000 + (hi - 0xD800) * 0x400 + (lo - 0xDC00).

(** The grammar of a number literal: an optional minus sign; a zero or a
    non-zero digit followed by digits; optionally a point and one digit
    or more; optionally an exponent mark, a sign and one digit or more. *)
Inductive nstate := NStart | NMinus | NZero | NInt | NDot | NFrac | NE | NESign | NExp | NErr.

Definition nstep (st : nstate) (c : ascii) : nstate :=
  let d := Strconv.is_digit c in
  match st with
  | NStart => if Ascii.eqb c "-" then NMinus else if Ascii.eqb c "0" then NZero
              else if d then NInt else NErr
  | NMinus => if Ascii.eqb c "0" then NZero else if d then NInt else NErr
  | NZero => if Ascii.eqb c "." then NDot
             else if Ascii.eqb c "e" || Ascii.eqb c "E" then NE else NErr
  | NInt => if d then NInt else if Ascii.eqb c "." then NDot
            else if Ascii.eqb c "e" || Ascii.eqb c "E" then NE else NErr
  | NDot => if d then NFrac else NErr
  | NFrac => if d then NFrac
             else if Ascii.eqb c "e" || Ascii.eqb c "E" then NE else NErr
  | NE => if d then NExp
          else if Ascii.eqb c "+" || Ascii.eqb c "-" then NESign else NErr
  | NESign => if d then NExp else NErr
  | NExp => if d then NExp else NErr
  | NErr => NErr
  end.

Fixpoint nrun (st : nstate) (s : string) : nstate :=
  match s with
  | EmptyString => st
  | String c s' => nrun (nstep st c) s'
  end.

Definition number_ok (lit : string) : bool :=
  match nrun NStart lit with
  | NZero | NInt | NFrac | NExp => true
  | _ => false
  end.

Definition number_token (lit : string) : token :=
  if number_ok lit then TNumber lit else TBad.

Definition word_token (w : string) : token :=
  if String.eqb w "null" then TNull
  else if String.eqb w "true" then TTrue
  else if String.eqb w "false" then TFalse
  else TBad.

(** What the scanner is in the middle of. *)
Inductive mode :=
| MTop
| MStr (acc : string)
| MEsc (acc : string)
| MHex (acc : string) (hi : option Z) (k : nat) (cp : Z)
| MSur (acc : string) (hi : Z) (seen_backslash : bool)
| MNum (acc : string)
| MWord (acc : string).

Definition bad : list token * option mode := ([TBad], None).

Definition step_top (c : ascii) : list token * option mode :=
  if is_ws c then ([], Some MTop)
  else if Strconv.is_digit c || Ascii.eqb c "-" then ([], Some (MNum (String c "")))
  else if is_lower c then ([], Some (MWord (String c "")))
  else match c with
       | "{" => ([TLBrace], Some MTop)
       | "}" => ([TRBrace], Some MTop)
       | "[" => ([TLBracket], Some MTop)
       | "]" => ([TRBracket], Some MTop)
       | ":" => ([TColon], Some MTop)
       | "," => ([TComma], Some MTop)
       | "034" => ([], Some (MStr ""))
       | _ => bad
       end%char.

Definition emit_then_top (tok : token) (c : ascii) : list token * option mode :=
  match tok with
  | TBad => bad
  | _ => let '(ts, m) := step_top c in (tok :: ts, m)
  end.

Definition step_str (acc : string) (c : ascii) : list token * option mode :=
  if Ascii.eqb c "034" then ([TString acc], Some MTop)
  else if Ascii.eqb c "\" then ([], Some (MEsc acc))
  else if byte_of c <? 32 then bad
  else ([], Some (MStr (snoc acc c))).

Definition step_esc (acc : string) (c : ascii) : list token * option mode :=
  match c with
  | "034" | "\" | "/" => ([], Some (MStr (snoc acc c)))
  | "b" => ([], Some (MStr (snoc acc "008")))
  | "f" => ([], Some (MStr (snoc acc "012")))
  | "n" => ([], Some (MStr (snoc acc "010")))
  | "r" => ([], Some (MStr (snoc acc "013")))
  | "t" => ([], Some (MStr (snoc acc "009")))
  | "u" => ([], Some (MHex acc None 4 0))
  | _ => bad
  end%char.

(** A [\uXXXX] escape has been read in full.  A high surrogate waits for
    its partner; a surrogate without one becomes the replacement
    character. *)
Definition end_of_escape (acc : string) (hi : option Z) (cp : Z) : mode :=
  match hi with
  | Some h =>
      if is_low_surrogate cp then MStr (acc ++ utf8 (combine h cp))
      else if is_high_surrogate cp then MSur (acc ++ replacement) cp false
      else MStr (acc ++ replacement ++ utf8 cp)
  | None =>
      if is_high_surrogate cp then MSur acc cp false
      else if is_low_surrogate cp then MStr (acc ++ replacement)
      else MStr (acc ++ utf8 cp)
  end%string.

Definition step (m : mode) (c : ascii) : list token * option mode :=
  match m with
  | MTop => step_top c
  | MStr acc => step_str acc c
  | MEsc acc => step_esc acc c
  | MHex acc hi k cp =>
      match hex_value c with
      | Some d =>
          match k with
          | S (S k') => ([], Some (MHex acc hi (S k') (16 * cp + d)))
          | _ => ([], Some (end_of_escape acc hi (16 * cp + d)))
          end
      | None => bad
      end
  | MSur acc hi false =>
      if Ascii.eqb c "\" then ([], Some (MSur acc hi true))
      else step_str (acc ++ replacement) c
  | MSur acc hi true =>
      if Ascii.eqb c "u" then ([], Some (MHex acc (Some hi) 4 0))
      else step_esc (acc ++ replacement) c
  | MNum acc =>
      if is_number_char c then ([], Some (MNum (snoc acc c)))
      else emit_then_top (number_token acc) c
  | MWord acc =>
      if is_lower c then ([], Some (MWord (snoc acc c)))
      else emit_then_top (word_token acc) c
  end.

(** The input ends. *)
Definition finish (m : mode) : list token :=
  match m with
  | MTop => []
  | MNum acc => [number_token acc]
  | MWord acc => [word_token acc]
  | _ => [TBad]
  end.

Fixpoint lex (m : mode) (s : string) : list token :=
  match s with
  | EmptyString => finish m
  | String c s' =>
      let '(ts, m') := step m c in
      (ts ++ match m' with
             | Some m'' => lex m'' s'
             | None => []
             end)%list
  end.

Definition tokens (s : string) : list token := lex MTop s.

(** *** Syntax analysis *)

Fixpoint parse_value (fuel : nat) (ts : list token) : option (value * list token) :=
  match fuel with
  | O => None
  | S f =>
      match ts with
      | TNull :: r => Some (Null, r)
      | TTrue :: r => Some (Bool true, r)
      | TFalse :: r => Some (Bool false, r)
      | TNumber lit :: r => Some (Number lit, r)
      | TString s :: r => Some (Str s, r)
      | TLBracket :: TRBracket :: r => Some (Array [], r)
      | TLBracket :: r => parse_elements f r []
      | TLBrace :: TRBrace :: r => Some (Object [], r)
      | TLBrace :: r => parse_members f r []
      | _ => None
      end
  end
with parse_elements (fuel : nat) (ts : list token) (acc : list value)
  : option (value * list token) :=
  match fuel with
  | O => None
  | S f =>
      match parse_value f ts with
      | Some (v, TComma :: r) => parse_elements f r (v :: acc)
      | Some (v, TRBracket :: r) => Some (Array (rev (v :: acc)), r)
      | _ => None
      end
  end
with parse_members (fuel : nat) (ts : list token) (acc : list (string * value))
  : option (value * list token) :=
  match fuel with
  | O => None
  | S f =>
      match ts with
      | TString k :: TColon :: r =>
          match parse_value f r with
          | Some (v, TComma :: r') => parse_members f r' ((k, v) :: acc)
          | Some (v, TRBrace :: r') => Some (Object (rev ((k, v) :: acc)), r')
          | _ => None
          end
      | _ => None
      end
  end.

Definition parse_fuel (ts : list token) : nat := S (2 * length ts).

(** [json.NewDecoder(r).Decode]: the first value of the stream; what
    follows it is left unread. *)
Definition parse_first (s : string) : option value :=
  let ts := tokens s in
  match parse_value (parse_fuel ts) ts with
  | Some (v, _) => Some v
  | None => None
  end.

(** [json.Unmarshal]: the input is one value, with white space around. *)
Definition parse (s : string) : option value :=
  let ts := tokens s in
  match parse_value (parse_fuel ts) ts with
  | Some (v, []) => Some v
  | _ => None
  end.

(** *** Encoding *)

Definition hex_char (d : Z) : ascii := hex_digit d.

(** The encoder's escaping of one byte of a string (HTML escaping on, as
    [Marshal] and a fresh [Encoder] have it).  A byte from 128 on is
    copied: that is what the encoder does with the bytes of a string
    that is UTF-8 (but for U+2028 and U+2029, which it writes as
    escapes); of another string it writes U+FFFD for the bytes that are
    not. *)
Definition escape_char (c : ascii) : string :=
  match c with
  | "034"%char => String "\" (String "034" "")
  | "\"%char => "\\"
  | "008"%char => "\b"
  | "012"%char => "\f"
  | "010"%char => "\n"
  | "013"%char => "\r"
  | "009"%char => "\t"
  | _ =>
      if (byte_of c <? 32)
         || Ascii.eqb c "<" || Ascii.eqb c ">" || Ascii.eqb c "&"
      then String "\" (String "u" (String "0" (String "0"
             (String (hex_char (byte_of c / 16)) (String (hex_char (byte_of c mod 16)) "")))))
      else String c ""
  end.

Fixpoint escape (s : string) : string :=
  match s with
  | EmptyString => ""
  | String c s' => escape_char c ++ escape s'
  end%string.

Definition quote (s : string) : string :=
  (String "034" (escape s) ++ String "034" "")%string.

Fixpoint indent (n : nat) : string :=
  match n with
  | O => ""
  | S n' => ("  " ++ indent n')%string
  end.

Definition newline (n : nat) : string := (String "010" "" ++ indent n)%string.

(** [json.MarshalIndent(v, "", "  ")] on the value tree. *)
Fixpoint print (n : nat) (v : value) : string :=
  match v with
  | Null => "null"
  | Bool true => "true"
  | Bool false => "false"
  | Number lit => lit
  | Str s => quote s
  | Array [] => "[]"
  | Array (v0 :: vs) =>
      "[" ++ newline (S n) ++ print (S n) v0
          ++ (fix rest (l : list value) : string :=
                match l with
                | [] => ""
                | x :: l' => "," ++ newline (S n) ++ print (S n) x ++ rest l'
                end) vs
          ++ newline n ++ "]"
  | Object [] => "{}"
  | Object ((k0, v0) :: ms) =>
      "{" ++ newline (S n) ++ quote k0 ++ ": " ++ print (S n) v0
          ++ (fix rest (l : list (string * value)) : string :=
                match l with
                | [] => ""
                | (k, x) :: l' =>
                    "," ++ newline (S n) ++ quote k ++ ": " ++ print (S n) x ++ rest l'
                end) ms
          ++ newline n ++ "}"
  end%string.

Definition MarshalIndent (v : value) : string := print 0 v.

(** [Encoder.Encode] with [SetIndent("", "  ")]: the text and a newline. *)
Definition Encode (v : value) : string := (print 0 v ++ String "010" "")%string.

(** *** Decoding into Go values

    A decoder takes the value the destination holds and the JSON value,
    and yields the new value of the destination; [None] is a decoding
    error.  [null] leaves a string, an int, a bool or a struct as it is
    and sets a map, a slice or a pointer to [nil]. *)

Definition decoder (A : Type) : Type := A -> value -> option A.

Definition into_string : decoder string :=
  fun cur v => match v with Null => Some cur | Str s => Some s | _ => None end.

Definition into_int : decoder Z :=
  fun cur v =>
    match v with
    | Null => Some cur
    | Number lit => Strconv.ParseInt lit
    | _ => None
    end.

Definition into_bool : decoder bool :=
  fun cur v => match v with Null => Some cur | Bool b => Some b | _ => None end.

(** ASCII lower case, for the matching of keys to field names. *)
Definition lower_char (c : ascii) : ascii :=
  if (65 <=? byte_of c) && (byte_of c <=? 90) then chr (byte_of c + 32) else c.

Fixpoint lower (s : string) : string :=
  match s with
  | EmptyString => ""
  | String c s' => String (lower_char c) (lower s')
  end.

(** Decoding of an object into a struct takes the members in order, each
    one updating the field its key names; keys naming no field are
    skipped.  The fields do not depend on one another, so the struct is
    decoded field by field: [field d name ms cur] is the value of the
    field [name], which held [cur], after all the members of [ms] that
    name it. *)
Fixpoint field {B : Type} (d : decoder B) (name : string)
         (ms : list (string * value)) (cur : B) : option B :=
  match ms with
  | [] => Some cur
  | (k, v) :: ms' =>
      if String.eqb (lower k) name then
        match d cur v with
        | Some cur' => field d name ms' cur'
        | None => None
        end
      else field d name ms' cur
  end.

(** [null] leaves a struct as it is; any other value than an object is
    an error. *)
Definition into_struct {A : Type} (fields : list (string * value) -> A -> option A)
  : decoder A :=
  fun cur v =>
    match v with
    | Null => Some cur
    | Object ms => fields ms cur
    | _ => None
    end.

(** A slice: [null] gives [nil]; an array gives a fresh slice whose
    elements are decoded into zero values. *)
Fixpoint into_elements {A : Type} (d : decoder A) (zero : A) (vs : list value)
  : option (list A) :=
  match vs with
  | [] => Some []
  | v :: vs' =>
      match d zero v, into_elements d zero vs' with
      | Some x, Some xs => Some (x :: xs)
      | _, _ => None
      end
  end.

Definition into_slice {A : Type} (d : decoder A) (zero : A) : decoder (option (list A)) :=
  fun _ v =>
    match v with
    | Null => Some None
    | Array vs => option_map Some (into_elements d zero vs)
    | _ => None
    end.

(** A map with string keys: [null] gives [nil]; an object adds its
    members to the map the destination holds (a fresh one if it is
    [nil]), each element decoded into a zero value. *)
Fixpoint into_entries {A : Type} (d : decoder A) (zero : A)
         (ms : list (string * value)) (cur : gmap string A) : option (gmap string A) :=
  match ms with
  | [] => Some cur
  | (k, v) :: ms' =>
      match d zero v with
      | Some x => into_entries d zero ms' (<[k := x]> cur)
      | None => None
      end
  end.

Definition into_map {A : Type} (d : decoder A) (zero : A)
  : decoder (option (gmap string A)) :=
  fun cur v =>
    match v with
    | Null => Some None
    | Object ms => option_map Some (into_entries d zero ms (default ∅ cur))
    | _ => None
    end.

(** A pointer to a struct: [null] gives [nil]; otherwise the value is
    decoded into the struct pointed to (a zero one if the pointer is
    [nil]). *)
Definition into_pointer {A : Type} (d : decoder A) (zero : A) : decoder (option A) :=
  fun cur v =>
    match v with
    | Null => Some None
    | _ => option_map Some (d (default zero cur) v)
    end.

(** A list of strings and an open mapping ([map[string]interface{}]),
    both under [omitempty], where [nil] and empty are not told apart. *)
Definition into_strings : decoder (list string) :=
  fun _ v =>
    match v with
    | Null => Some []
    | Array vs => into_elements into_string "" vs
    | _ => None
    end.

(** *** Building values for the encoder *)

Definition key_le {A : Type} (x y : string * A) : Prop := String.le (fst x) (fst y).

#[global] Instance key_le_dec {A : Type} : RelDecision (@key_le A).
Proof. intros x y. unfold key_le. apply _. Defined.

(** The encoder writes the entries of a map in the order of their keys. *)
Definition sorted_entries {A : Type} (m : gmap string A) : list (string * A) :=
  merge_sort key_le (map_to_list m).

(** A value held in an [interface{}]: the objects inside it are maps, so
    of two members with one key the later stays, and the encoder
    writes them in the order of the keys.  (The conversion of numbers to
    [float64] is not modelled.) *)
Fixpoint canon (v : value) : value :=
  match v with
  | Array vs => Array (map canon vs)
  | Object ms =>
      Object (sorted_entries
                (fold_left (fun (m : gmap string value) kv => <[fst kv := canon (snd kv)]> m)
                           ms ∅))
  | _ => v
  end.

Definition into_any : decoder value := fun _ v => Some (canon v).

Definition into_open_map : decoder (gmap string value) :=
  fun cur v =>
    match v with
    | Null => Some ∅
    | Object ms => into_entries into_any Null ms cur
    | _ => None
    end.

Definition of_open_map (m : gmap string value) : value :=
  Object (sorted_entries m).

Definition of_map {A : Type} (f : A -> value) (m : option (gmap string A)) : value :=
  match m with
  | None => Null
  | Some m' => Object (map (fun kv => (fst kv, f (snd kv))) (sorted_entries m'))
  end.

Definition of_slice {A : Type} (f : A -> value) (l : option (list A)) : value :=
  match l with
  | None => Null
  | Some l' => Array (map f l')
  end.

Definition of_int (x : Z) : value := Number (Strconv.Itoa x).

(** A member left out when empty ([omitempty]). *)
Definition unless (empty : bool) (k : string) (v : value) : list (string * value) :=
  if empty then [] else [(k, v)].

Definition is_empty_string (s : string) : bool := String.eqb s "".

Definition is_nil {A : Type} (l : list A) : bool :=
  match l with [] => true | _ => false end.

End Json.

(** ** Errors

    A Go [error] is modelled by the place it is made at: one constructor
    for each [fmt.Errorf] of the two packages, carrying what the message
    is formatted from, and the error it wraps with [%w]. *)

Inductive errno :=
| ENOENT   (* the file does not exist *)
| EEXIST   (* the file exists *)
| EIO.     (* any other failure of the operating system *)

Inductive error :=
| PathError (op : string) (path : string) (e : errno)   (* package os *)
| JsonError                                             (* package encoding/json *)
| EngineError (msg : string)                            (* the build engine *)
(* manager.go *)
| ErrLockState (cause : error)          (* failed to lock state: %w *)
| ErrNoStateLoaded                      (* no state loaded *)
(* state.go *)
| ErrOpenState (cause : error)          (* failed to open state file: %w *)
| ErrDecodeState (cause : error)        (* failed to decode state file: %w *)
| ErrCreateStateDir (cause : error)     (* failed to create state directory: %w *)
| ErrCreateTemp (cause : error)         (* failed to create temp state file: %w *)
| ErrEncodeState (cause : error)        (* failed to encode state: %w *)
| ErrCloseTemp (cause : error)          (* failed to close temp state file: %w *)
| ErrRenameState (cause : error)        (* failed to rename state file: %w *)
(* lock.go *)
| ErrReadExistingLock (cause : error)   (* failed to read existing lock: %w *)
| ErrLockedBy (who id operation created : string)
                                        (* state is locked by %s (ID: %s, Operation: %s, Created: %s) *)
| ErrLockedRace (who id : string)       (* state is locked by %s (ID: %s) *)
| ErrLocked                             (* state is locked *)
| ErrMarshalLock (cause : error)        (* failed to marshal lock: %w *)
| ErrCreateLockDir (cause : error)      (* failed to create lock directory: %w *)
| ErrCreateLockFile (cause : error)     (* failed to create lock file: %w *)
| ErrWriteLock (cause : error)          (* failed to write lock file: %w *)
| ErrCloseLock (cause : error)          (* failed to close lock file: %w *)
| ErrReadLockBeforeUnlock (cause : error)  (* failed to read lock before unlock: %w *)
| ErrLockStolen (who id : string)       (* lock was stolen by %s (ID: %s) *)
| ErrRemoveLock (cause : error)         (* failed to remove lock file: %w *)
| ErrForceUnlock (cause : error)        (* failed to force unlock: %w *)
(* build.go *)
| ErrStateNotLoaded                     (* state not loaded *)
| ErrSaveInitialState (cause : error)   (* failed to save initial state: %w *)
| ErrResumeNotImplemented.              (* resume not yet implemented - builder must complete atomically *)

(** [os.IsNotExist], [os.IsExist] *)
Definition IsNotExist (e : error) : bool :=
  match e with PathError _ _ ENOENT => true | _ => false end.

Definition IsExist (e : error) : bool :=
  match e with PathError _ _ EEXIST => true | _ => false end.

(** The kinds of failure the specification names. *)
Definition CorruptState (e : error) : Prop := exists c, e = ErrDecodeState c.
Definition LockStolen (e : error) : Prop := exists who id, e = ErrLockStolen who id.
Definition AlreadyLocked (e : error) : Prop :=
  (exists who id op created, e = ErrLockedBy who id op created)
  \/ (exists who id, e = ErrLockedRace who id) \/ e = ErrLocked
  \/ (exists c, e = ErrReadExistingLock c).

(** ** The operating system

    The file system holds the content of every file; directories are not
    recorded.  Reading, [Stat] and [Remove] are decided by what the file
    system holds.  The calls that make or change a file ([MkdirAll],
    [Create], [OpenFile], writing, [Close], [Rename]) can fail for reasons
    outside the model: each such call takes its outcome from [faults]
    ([true]: the call fails), and none fails once the list is used up. *)

(** A [time.Time] is kept as the RFC 3339 text the encoder writes for it.
    The decoder here takes any string for one; the decoder of the code
    takes the texts of times only ([Rfc3339.text] below), and what is
    stated of a time that is written and read back is stated of those. *)
Definition Time := string.

Definition zero_time : Time := "0001-01-01T00:00:00Z".

Record World := mkWorld {
  files : gmap string string;
  faults : list bool;
  hostname : string;          (* os.Hostname(), empty on failure *)
  env_USER : string;          (* os.Getenv("USER") *)
  clock : Time;               (* time.Now() *)
  uuids : nat -> string;      (* the identifiers uuid.New() hands out *)
  uuid_next : nat
}.

Definition with_files (fs : gmap string string) (w : World) : World :=
  mkWorld fs (faults w) (hostname w) (env_USER w) (clock w) (uuids w) (uuid_next w).

Definition fault (w : World) : bool * World :=
  match faults w with
  | [] => (false, w)
  | b :: bs => (b, mkWorld (files w) bs (hostname w) (env_USER w) (clock w) (uuids w) (uuid_next w))
  end.

(** [uuid.New().String()] *)
Definition uuid_New (w : World) : string * World :=
  (uuids w (uuid_next w),
   mkWorld (files w) (faults w) (hostname w) (env_USER w) (clock w) (uuids w) (S (uuid_next w))).

Module os.

Definition Stat (path : string) (w : World) : option error :=
  match files w !! path with
  | Some _ => None
  | None => Some (PathError "stat" path ENOENT)
  end.

(** [os.Open] followed by reading the file to its end, and [os.ReadFile]. *)
Definition Open (path : string) (w : World) : string + error :=
  match files w !! path with
  | Some content => inl content
  | None => inr (PathError "open" path ENOENT)
  end.

Definition ReadFile (path : string) (w : World) : string + error := Open path w.

Definition MkdirAll (dir : string) (w : World) : option error * World :=
  let '(fails, w') := fault w in
  if fails then (Some (PathError "mkdir" dir EIO), w') else (None, w').

(** [os.Create]: the file is made, or emptied if it exists. *)
Definition Create (path : string) (w : World) : option error * World :=
  let '(fails, w') := fault w in
  if fails then (Some (PathError "open" path EIO), w')
  else (None, with_files (<[path := ""]> (files w')) w').

(** [os.OpenFile(path, O_CREATE|O_EXCL|O_WRONLY, 0644)] *)
Definition OpenFile_excl (path : string) (w : World) : option error * World :=
  match files w !! path with
  | Some _ => (Some (PathError "open" path EEXIST), w)
  | None =>
      let '(fails, w') := fault w in
      if fails then (Some (PathError "open" path EIO), w')
      else (None, with_files (<[path := ""]> (files w')) w')
  end.

(** Writing to an open file appends to what it holds. *)
Definition Write (path : string) (data : string) (w : World) : option error * World :=
  let '(fails, w') := fault w in
  if fails then (Some (PathError "write" path EIO), w')
  else (None, with_files (<[path := (default "" (files w' !! path) ++ data)%string]> (files w')) w').

Definition Close (path : string) (w : World) : option error * World :=
  let '(fails, w') := fault w in
  if fails then (Some (PathError "close" path EIO), w') else (None, w').

Definition Rename (old new : string) (w : World) : option error * World :=
  match files w !! old with
  | None => (Some (PathError "rename" old ENOENT), w)
  | Some content =>
      let '(fails, w') := fault w in
      if fails then (Some (PathError "rename" old EIO), w')
      else (None, with_files (<[new := content]> (delete old (files w'))) w')
  end.

Definition Remove (path : string) (w : World) : option error * World :=
  match files w !! path with
  | None => (Some (PathError "remove" path ENOENT), w)
  | Some _ => (None, with_files (delete path (files w)) w)
  end.

End os.

(** *** Reading and removing that can fail

    [os.Open], [os.ReadFile] and [os.Remove] above fail only on a file
    that does not exist.  They can fail on a file that exists too, and
    the code throws the outcome of some of these calls away.  The
    definitions named [..._on] are given the file system [fs] these
    calls are made on: [FS.reliable] is the one above; on [FS.faulty] the
    opening and the removing of a file that exists take their outcome
    from [faults], as the other calls do. *)
Module FS.

Record t := mk {
  Open : string -> World -> (string + error) * World;   (* also os.ReadFile *)
  Remove : string -> World -> option error * World
}.

Definition reliable : t := mk (fun path w => (os.Open path w, w)) os.Remove.

Definition faulty_Open (path : string) (w : World) : (string + error) * World :=
  match files w !! path with
  | None => (inr (PathError "open" path ENOENT), w)
  | Some content =>
      let '(fails, w') := fault w in
      if fails then (inr (PathError "open" path EIO), w') else (inl content, w')
  end.

Definition faulty_Remove (path : string) (w : World) : option error * World :=
  match files w !! path with
  | None => (Some (PathError "remove" path ENOENT), w)
  | Some _ =>
      let '(fails, w') := fault w in
      if fails then (Some (PathError "remove" path EIO), w')
      else (None, with_files (delete path (files w')) w')
  end.

Definition faulty : t := mk faulty_Open faulty_Remove.

End FS.

(** [filepath.Dir], without the cleaning of the path: what precedes the
    last separator, the root if nothing does, and [.] if there is no
    separator. *)
Fixpoint dir_of (s : string) : option string :=
  match s with
  | EmptyString => None
  | String c s' =>
      match dir_of s' with
      | Some d => Some (String c d)
      | None => if Ascii.eqb c "/" then Some "" else None
      end
  end.

Definition filepath_Dir (path : string) : string :=
  match dir_of path with
  | None => "."
  | Some "" => "/"
  | Some d => d
  end.

(** ** Go maps

    A map value is [nil] or a reference to a table.  Reading a [nil] map
    is reading an empty one; assigning to an entry of a [nil] map
    panics. *)

Module GoMap.

Definition t (V : Type) : Type := option (gmap string V).

(** [make(map[string]V)] *)
Definition make {V : Type} : t V := Some ∅.

Definition table {V : Type} (m : t V) : gmap string V := default ∅ m.

(** [len(m)] *)
Definition len {V : Type} (m : t V) : nat := size (table m).

(** [m[k]] for a value type with zero value [zero] *)
Definition index {V : Type} (zero : V) (m : t V) (k : string) : V :=
  default zero (table m !! k).

(** [m[k]] for a pointer type *)
Definition lookup {V : Type} (m : t V) (k : string) : option V := table m !! k.

(** [m[k] = v]; [None] is the panic of an assignment to a [nil] map. *)
Definition assign {V : Type} (m : t V) (k : string) (v : V) : option (t V) :=
  match m with
  | None => None
  | Some tbl => Some (Some (<[k := v]> tbl))
  end.

(** [delete(m, k)] *)
Definition remove {V : Type} (m : t V) (k : string) : t V :=
  match m with
  | None => None
  | Some tbl => Some (delete k tbl)
  end.

(** [for k, v := range m]: the entries, each once, in an order that is
    not specified and may differ from one loop to the next.  A loop over
    a map is therefore given the order it meets them in. *)
Definition range_order {V : Type} (m : t V) (order : list (string * V)) : Prop :=
  order ≡ₚ map_to_list (table m).

End GoMap.

(** * Package state *)

(** ** lock.go *)

(** Lock represents a state file lock. *)
Module Lock.

Record t := mk {
  ID : string;
  Operation : string;
  Who : string;
  Created : Time;
  Path : string
}.

Definition zero : t := mk "" "" "" zero_time "".

Definition to_json (l : t) : Json.value :=
  Json.Object
    [ ("id", Json.Str (ID l));
      ("operation", Json.Str (Operation l));
      ("who", Json.Str (Who l));
      ("created", Json.Str (Created l));
      ("path", Json.Str (Path l)) ].

Definition fields (ms : list (string * Json.value)) (cur : t) : option t :=
  id ← Json.field Json.into_string "id" ms (ID cur);
  operation ← Json.field Json.into_string "operation" ms (Operation cur);
  who ← Json.field Json.into_string "who" ms (Who cur);
  created ← Json.field Json.into_string "created" ms (Created cur);
  path ← Json.field Json.into_string "path" ms (Path cur);
  Some (mk id operation who created path).

Definition of_json : Json.decoder t := Json.into_struct fields.

(** [json.MarshalIndent(lock, "", "  ")]; it does not fail on a Lock. *)
Definition MarshalIndent (l : t) : string + error :=
  inl (Json.MarshalIndent (to_json l)).

(** [var lock Lock; json.Unmarshal(data, &lock)] *)
Definition Unmarshal (data : string) : Lock.t + error :=
  match Json.parse data with
  | Some v =>
      match of_json zero v with
      | Some l => inl l
      | None => inr JsonError
      end
  | None => inr JsonError
  end.

End Lock.

(** LockManager handles state file locking. *)
Module LockManager.

Record t := mk {
  statePath : string;
  lockPath : string;
  lock : option Lock.t
}.

Definition set_lock (l : option Lock.t) (lm : t) : t :=
  mk (statePath lm) (lockPath lm) l.

(** readLock reads the lock file. *)
Definition readLock (lm : t) (w : World) : Lock.t + error :=
  match os.ReadFile (lockPath lm) w with
  | inr err => inr err
  | inl data =>
      match Lock.Unmarshal data with
      | inr err => inr err
      | inl lock => inl lock
      end
  end.

(** Lock acquires a lock on the state file. *)
Definition Lock (lm : t) (operation : string) (w : World) : option error * t * World :=
  (* Check if lock already exists *)
  match os.Stat (lockPath lm) w with
  | None =>
      (* Lock file exists, try to read it *)
      match readLock lm w with
      | inr err => (Some (ErrReadExistingLock err), lm, w)
      | inl existingLock =>
          (Some (ErrLockedBy (Lock.Who existingLock) (Lock.ID existingLock)
                             (Lock.Operation existingLock) (Lock.Created existingLock)),
           lm, w)
      end
  | Some _ =>
      (* Create lock *)
      let host := if String.eqb (hostname w) "" then "unknown" else hostname w in
      let '(id, w) := uuid_New w in
      let lock := Lock.mk id operation (env_USER w ++ "@" ++ host) (clock w) (statePath lm) in
      (* Write lock file *)
      match Lock.MarshalIndent lock with
      | inr err => (Some (ErrMarshalLock err), lm, w)
      | inl lockData =>
          (* Create directory if needed *)
          let dir := filepath_Dir (lockPath lm) in
          match os.MkdirAll dir w with
          | (Some err, w) => (Some (ErrCreateLockDir err), lm, w)
          | (None, w) =>
              (* Write atomically with O_EXCL to prevent race conditions *)
              match os.OpenFile_excl (lockPath lm) w with
              | (Some err, w) =>
                  if IsExist err then
                    (* Someone beat us to it *)
                    match readLock lm w with
                    | inl existingLock =>
                        (Some (ErrLockedRace (Lock.Who existingLock) (Lock.ID existingLock)),
                         lm, w)
                    | inr _ => (Some ErrLocked, lm, w)
                    end
                  else (Some (ErrCreateLockFile err), lm, w)
              | (None, w) =>
                  match os.Write (lockPath lm) lockData w with
                  | (Some err, w) =>
                      let '(_, w) := os.Close (lockPath lm) w in
                      let '(_, w) := os.Remove (lockPath lm) w in
                      (Some (ErrWriteLock err), lm, w)
                  | (None, w) =>
                      match os.Close (lockPath lm) w with
                      | (Some err, w) =>
                          let '(_, w) := os.Remove (lockPath lm) w in
                          (Some (ErrCloseLock err), lm, w)
                      | (None, w) => (None, set_lock (Some lock) lm, w)
                      end
                  end
              end
          end
      end
  end.

(** Unlock releases the lock. *)
Definition Unlock (lm : t) (w : World) : option error * t * World :=
  match lock lm with
  | None => (None, lm, w)   (* No lock held *)
  | Some held =>
      (* Verify we still own the lock *)
      match readLock lm w with
      | inr err => (Some (ErrReadLockBeforeUnlock err), lm, w)
      | inl existingLock =>
          if negb (String.eqb (Lock.ID existingLock) (Lock.ID held)) then
            (Some (ErrLockStolen (Lock.Who existingLock) (Lock.ID existingLock)), lm, w)
          else
            (* Remove lock file *)
            match os.Remove (lockPath lm) w with
            | (Some err, w) =>
                if negb (IsNotExist err) then (Some (ErrRemoveLock err), lm, w)
                else (None, set_lock None lm, w)
            | (None, w) => (None, set_lock None lm, w)
            end
      end
  end.

(** readLock, Lock and Unlock on the file system [fs]. *)
Definition readLock_on (fs : FS.t) (lm : t) (w : World) : (Lock.t + error) * World :=
  match FS.Open fs (lockPath lm) w with
  | (inr err, w) => (inr err, w)
  | (inl data, w) =>
      match Lock.Unmarshal data with
      | inr err => (inr err, w)
      | inl lock => (inl lock, w)
      end
  end.

Definition Lock_on (fs : FS.t) (lm : t) (operation : string) (w : World)
  : option error * t * World :=
  (* Check if lock already exists *)
  match os.Stat (lockPath lm) w with
  | None =>
      (* Lock file exists, try to read it *)
      match readLock_on fs lm w with
      | (inr err, w) => (Some (ErrReadExistingLock err), lm, w)
      | (inl existingLock, w) =>
          (Some (ErrLockedBy (Lock.Who existingLock) (Lock.ID existingLock)
                             (Lock.Operation existingLock) (Lock.Created existingLock)),
           lm, w)
      end
  | Some _ =>
      (* Create lock *)
      let host := if String.eqb (hostname w) "" then "unknown" else hostname w in
      let '(id, w) := uuid_New w in
      let lock := Lock.mk id operation (env_USER w ++ "@" ++ host) (clock w) (statePath lm) in
      (* Write lock file *)
      match Lock.MarshalIndent lock with
      | inr err => (Some (ErrMarshalLock err), lm, w)
      | inl lockData =>
          (* Create directory if needed *)
          let dir := filepath_Dir (lockPath lm) in
          match os.MkdirAll dir w with
          | (Some err, w) => (Some (ErrCreateLockDir err), lm, w)
          | (None, w) =>
              (* Write atomically with O_EXCL to prevent race conditions *)
              match os.OpenFile_excl (lockPath lm) w with
              | (Some err, w) =>
                  if IsExist err then
                    (* Someone beat us to it *)
                    match readLock_on fs lm w with
                    | (inl existingLock, w) =>
                        (Some (ErrLockedRace (Lock.Who existingLock) (Lock.ID existingLock)),
                         lm, w)
                    | (inr _, w) => (Some ErrLocked, lm, w)
                    end
                  else (Some (ErrCreateLockFile err), lm, w)
              | (None, w) =>
                  match os.Write (lockPath lm) lockData w with
                  | (Some err, w) =>
                      let '(_, w) := os.Close (lockPath lm) w in
                      let '(_, w) := FS.Remove fs (lockPath lm) w in
                      (Some (ErrWriteLock err), lm, w)
                  | (None, w) =>
                      match os.Close (lockPath lm) w with
                      | (Some err, w) =>
                          let '(_, w) := FS.Remove fs (lockPath lm) w in
                          (Some (ErrCloseLock err), lm, w)
                      | (None, w) => (None, set_lock (Some lock) lm, w)
                      end
                  end
              end
          end
      end
  end.

Definition Unlock_on (fs : FS.t) (lm : t) (w : World) : option error * t * World :=
  match lock lm with
  | None => (None, lm, w)   (* No lock held *)
  | Some held =>
      (* Verify we still own the lock *)
      match readLock_on fs lm w with
      | (inr err, w) => (Some (ErrReadLockBeforeUnlock err), lm, w)
      | (inl existingLock, w) =>
          if negb (String.eqb (Lock.ID existingLock) (Lock.ID held)) then
            (Some (ErrLockStolen (Lock.Who existingLock) (Lock.ID existingLock)), lm, w)
          else
            (* Remove lock file *)
            match FS.Remove fs (lockPath lm) w with
            | (Some err, w) =>
                if negb (IsNotExist err) then (Some (ErrRemoveLock err), lm, w)
                else (None, set_lock None lm, w)
            | (None, w) => (None, set_lock None lm, w)
            end
      end
  end.

(** ForceUnlock forcibly removes a lock (dangerous!) *)
Definition ForceUnlock (lm : t) (w : World) : option error * t * World :=
  match os.Remove (lockPath lm) w with
  | (Some err, w) =>
      if negb (IsNotExist err) then (Some (ErrForceUnlock err), lm, w)
      else (None, set_lock None lm, w)
  | (None, w) => (None, set_lock None lm, w)
  end.

End LockManager.

(** NewLockManager creates a new lock manager. *)
Definition NewLockManager (statePath : string) : LockManager.t :=
  let lockPath := statePath ++ ".lock" in
  LockManager.mk statePath lockPath None.

(** ** state.go *)

(** BuildStatus represents the overall build status. *)
Definition BuildStatus := string.
Definition BuildStatusPending : BuildStatus := "pending".
Definition BuildStatusCreating : BuildStatus := "creating".
Definition BuildStatusProvisioning : BuildStatus := "provisioning".
Definition BuildStatusPostProcessing : BuildStatus := "post_processing".
Definition BuildStatusComplete : BuildStatus := "complete".
Definition BuildStatusFailed : BuildStatus := "failed".

(** Status represents execution status. *)
Definition Status := string.
Definition StatusPending : Status := "pending".
Definition StatusRunning : Status := "running".
Definition StatusComplete : Status := "complete".
Definition StatusFailed : Status := "failed".
Definition StatusSkipped : Status := "skipped".

(** TemplateState tracks the template and its inputs. *)
Module TemplateState.

Record t := mk {
  Path : string;
  Hash : string;
  Variables : GoMap.t string;
  Files : GoMap.t string        (* path -> hash of source files *)
}.

Definition zero : t := mk "" "" None None.

Definition to_json (x : t) : Json.value :=
  Json.Object
    [ ("path", Json.Str (Path x));
      ("hash", Json.Str (Hash x));
      ("variables", Json.of_map Json.Str (Variables x));
      ("files", Json.of_map Json.Str (Files x)) ].

Definition fields (ms : list (string * Json.value)) (cur : t) : option t :=
  path ← Json.field Json.into_string "path" ms (Path cur);
  hash ← Json.field Json.into_string "hash" ms (Hash cur);
  variables ← Json.field (Json.into_map Json.into_string "") "variables" ms (Variables cur);
  files ← Json.field (Json.into_map Json.into_string "") "files" ms (Files cur);
  Some (mk path hash variables files).

Definition of_json : Json.decoder t := Json.into_struct fields.

End TemplateState.

(** Instance represents a VM/container instance. *)
Module Instance.

Record t := mk {
  ID : string;
  BuilderID : string;
  Provider : string;
  Region : string;
  PublicIP : string;
  PrivateIP : string;
  SSHUser : string;
  SSHPort : Z;
  SSHKeyPath : string;
  WinRMUser : string;
  WinRMPort : Z;
  Metadata : gmap string Json.value;
  CreatedAt : Time;
  KeepOnFailure : bool
}.

Definition zero : t := mk "" "" "" "" "" "" "" 0 "" "" 0 ∅ zero_time false.

Definition to_json (x : t) : Json.value :=
  Json.Object
    ([ ("id", Json.Str (ID x));
       ("builder_id", Json.Str (BuilderID x));
       ("provider", Json.Str (Provider x)) ]
     ++ Json.unless (Json.is_empty_string (Region x)) "region" (Json.Str (Region x))
     ++ Json.unless (Json.is_empty_string (PublicIP x)) "public_ip" (Json.Str (PublicIP x))
     ++ Json.unless (Json.is_empty_string (PrivateIP x)) "private_ip" (Json.Str (PrivateIP x))
     ++ Json.unless (Json.is_empty_string (SSHUser x)) "ssh_user" (Json.Str (SSHUser x))
     ++ Json.unless (SSHPort x =? 0)%Z "ssh_port" (Json.of_int (SSHPort x))
     ++ Json.unless (Json.is_empty_string (SSHKeyPath x)) "ssh_key_path" (Json.Str (SSHKeyPath x))
     ++ Json.unless (Json.is_empty_string (WinRMUser x)) "winrm_user" (Json.Str (WinRMUser x))
     ++ Json.unless (WinRMPort x =? 0)%Z "winrm_port" (Json.of_int (WinRMPort x))
     ++ Json.unless (bool_decide (Metadata x = ∅)) "metadata" (Json.of_open_map (Metadata x))
     ++ [ ("created_at", Json.Str (CreatedAt x));
          ("keep_on_failure", Json.Bool (KeepOnFailure x)) ])%list.

Definition fields (ms : list (string * Json.value)) (cur : t) : option t :=
  id ← Json.field Json.into_string "id" ms (ID cur);
  builder_id ← Json.field Json.into_string "builder_id" ms (BuilderID cur);
  provider ← Json.field Json.into_string "provider" ms (Provider cur);
  region ← Json.field Json.into_string "region" ms (Region cur);
  public_ip ← Json.field Json.into_string "public_ip" ms (PublicIP cur);
  private_ip ← Json.field Json.into_string "private_ip" ms (PrivateIP cur);
  ssh_user ← Json.field Json.into_string "ssh_user" ms (SSHUser cur);
  ssh_port ← Json.field Json.into_int "ssh_port" ms (SSHPort cur);
  ssh_key_path ← Json.field Json.into_string "ssh_key_path" ms (SSHKeyPath cur);
  winrm_user ← Json.field Json.into_string "winrm_user" ms (WinRMUser cur);
  winrm_port ← Json.field Json.into_int "winrm_port" ms (WinRMPort cur);
  metadata ← Json.field Json.into_open_map "metadata" ms (Metadata cur);
  created_at ← Json.field Json.into_string "created_at" ms (CreatedAt cur);
  keep_on_failure ← Json.field Json.into_bool "keep_on_failure" ms (KeepOnFailure cur);
  Some (mk id builder_id provider region public_ip private_ip ssh_user ssh_port
           ssh_key_path winrm_user winrm_port metadata created_at keep_on_failure).

Definition of_json : Json.decoder t := Json.into_struct fields.

End Instance.

(** ProvisionerState tracks provisioner execution. *)
Module ProvisionerState.

Record t := mk {
  Type_ : string;
  Name : string;
  Status : Status;
  Error : string;
  StartedAt : Time;
  EndedAt : Time
}.

Definition zero : t := mk "" "" "" "" zero_time zero_time.

Definition to_json (x : t) : Json.value :=
  Json.Object
    ([ ("type", Json.Str (Type_ x)) ]
     ++ Json.unless (Json.is_empty_string (Name x)) "name" (Json.Str (Name x))
     ++ [ ("status", Json.Str (Status x)) ]
     ++ Json.unless (Json.is_empty_string (Error x)) "error" (Json.Str (Error x))
     ++ [ ("started_at", Json.Str (StartedAt x));
          ("ended_at", Json.Str (EndedAt x)) ])%list.

Definition fields (ms : list (string * Json.value)) (cur : t) : option t :=
  type ← Json.field Json.into_string "type" ms (Type_ cur);
  name ← Json.field Json.into_string "name" ms (Name cur);
  status ← Json.field Json.into_string "status" ms (Status cur);
  error ← Json.field Json.into_string "error" ms (Error cur);
  started_at ← Json.field Json.into_string "started_at" ms (StartedAt cur);
  ended_at ← Json.field Json.into_string "ended_at" ms (EndedAt cur);
  Some (mk type name status error started_at ended_at).

Definition of_json : Json.decoder t := Json.into_struct fields.

End ProvisionerState.

(** PostProcessorState tracks post-processor execution. *)
Module PostProcessorState.

Record t := mk {
  Type_ : string;
  Name : string;
  Status : Status;
  Error : string;
  StartedAt : Time;
  EndedAt : Time
}.

Definition zero : t := mk "" "" "" "" zero_time zero_time.

Definition to_json (x : t) : Json.value :=
  Json.Object
    ([ ("type", Json.Str (Type_ x)) ]
     ++ Json.unless (Json.is_empty_string (Name x)) "name" (Json.Str (Name x))
     ++ [ ("status", Json.Str (Status x)) ]
     ++ Json.unless (Json.is_empty_string (Error x)) "error" (Json.Str (Error x))
     ++ [ ("started_at", Json.Str (StartedAt x));
          ("ended_at", Json.Str (EndedAt x)) ])%list.

Definition fields (ms : list (string * Json.value)) (cur : t) : option t :=
  type ← Json.field Json.into_string "type" ms (Type_ cur);
  name ← Json.field Json.into_string "name" ms (Name cur);
  status ← Json.field Json.into_string "status" ms (Status cur);
  error ← Json.field Json.into_string "error" ms (Error cur);
  started_at ← Json.field Json.into_string "started_at" ms (StartedAt cur);
  ended_at ← Json.field Json.into_string "ended_at" ms (EndedAt cur);
  Some (mk type name status error started_at ended_at).

Definition of_json : Json.decoder t := Json.into_struct fields.

End PostProcessorState.

(** ArtifactState tracks generated artifacts. *)
Module ArtifactState.

Record t := mk {
  ID : string;
  BuilderID : string;
  Type_ : string;
  Files : list string;
  Metadata : gmap string Json.value;
  Hash : string
}.

Definition zero : t := mk "" "" "" [] ∅ "".

Definition to_json (x : t) : Json.value :=
  Json.Object
    ([ ("id", Json.Str (ID x));
       ("builder_id", Json.Str (BuilderID x));
       ("type", Json.Str (Type_ x)) ]
     ++ Json.unless (Json.is_nil (Files x)) "files" (Json.Array (map Json.Str (Files x)))
     ++ Json.unless (bool_decide (Metadata x = ∅)) "metadata" (Json.of_open_map (Metadata x))
     ++ Json.unless (Json.is_empty_string (Hash x)) "hash" (Json.Str (Hash x)))%list.

Definition fields (ms : list (string * Json.value)) (cur : t) : option t :=
  id ← Json.field Json.into_string "id" ms (ID cur);
  builder_id ← Json.field Json.into_string "builder_id" ms (BuilderID cur);
  type ← Json.field Json.into_string "type" ms (Type_ cur);
  files ← Json.field Json.into_strings "files" ms (Files cur);
  metadata ← Json.field Json.into_open_map "metadata" ms (Metadata cur);
  hash ← Json.field Json.into_string "hash" ms (Hash cur);
  Some (mk id builder_id type files metadata hash).

Definition of_json : Json.decoder t := Json.into_struct fields.

End ArtifactState.

(** RunInfo tracks the last run. *)
Module RunInfo.

Record t := mk {
  StartedAt : Time;
  CompletedAt : Time
}.

Definition zero : t := mk zero_time zero_time.

Definition to_json (x : t) : Json.value :=
  Json.Object
    [ ("started_at", Json.Str (StartedAt x));
      ("completed_at", Json.Str (CompletedAt x)) ].

Definition fields (ms : list (string * Json.value)) (cur : t) : option t :=
  started_at ← Json.field Json.into_string "started_at" ms (StartedAt cur);
  completed_at ← Json.field Json.into_string "completed_at" ms (CompletedAt cur);
  Some (mk started_at completed_at).

Definition of_json : Json.decoder t := Json.into_struct fields.

End RunInfo.

(** A slice that is the element of an array or the zero value of a
    field: its elements, [nil] holding none. *)
Definition elems {A : Type} (s : option (list A)) : list A := default [] s.

(** Build represents a single build's state. *)
Module Build.

Record t := mk {
  Name : string;
  Type_ : string;
  Status : BuildStatus;
  Instance : option Instance.t;
  Provisioners : option (list ProvisionerState.t);   (* a slice, or nil *)
  PostProcess : list PostProcessorState.t;
  Artifacts : list ArtifactState.t;
  Error : string;
  StartedAt : Time;
  CompletedAt : Time
}.

Definition zero : t := mk "" "" "" None None [] [] "" zero_time zero_time.

Definition set_Status (v : BuildStatus) (b : t) : t :=
  mk (Name b) (Type_ b) v (Instance b) (Provisioners b) (PostProcess b) (Artifacts b)
     (Error b) (StartedAt b) (CompletedAt b).

Definition set_Instance (v : option Instance.t) (b : t) : t :=
  mk (Name b) (Type_ b) (Status b) v (Provisioners b) (PostProcess b) (Artifacts b)
     (Error b) (StartedAt b) (CompletedAt b).

Definition set_Artifacts (v : list ArtifactState.t) (b : t) : t :=
  mk (Name b) (Type_ b) (Status b) (Instance b) (Provisioners b) (PostProcess b) v
     (Error b) (StartedAt b) (CompletedAt b).

Definition set_Error (v : string) (b : t) : t :=
  mk (Name b) (Type_ b) (Status b) (Instance b) (Provisioners b) (PostProcess b) (Artifacts b)
     v (StartedAt b) (CompletedAt b).

Definition set_CompletedAt (v : Time) (b : t) : t :=
  mk (Name b) (Type_ b) (Status b) (Instance b) (Provisioners b) (PostProcess b) (Artifacts b)
     (Error b) (StartedAt b) v.

Definition to_json (x : t) : Json.value :=
  Json.Object
    ([ ("name", Json.Str (Name x));
       ("type", Json.Str (Type_ x));
       ("status", Json.Str (Status x)) ]
     ++ match Instance x with
        | Some i => [("instance", Instance.to_json i)]
        | None => []
        end
     ++ [ ("provisioners", Json.of_slice ProvisionerState.to_json (Provisioners x)) ]
     ++ Json.unless (Json.is_nil (PostProcess x)) "post_processors"
          (Json.Array (map PostProcessorState.to_json (PostProcess x)))
     ++ Json.unless (Json.is_nil (Artifacts x)) "artifacts"
          (Json.Array (map ArtifactState.to_json (Artifacts x)))
     ++ Json.unless (Json.is_empty_string (Error x)) "error" (Json.Str (Error x))
     ++ [ ("started_at", Json.Str (StartedAt x));
          ("completed_at", Json.Str (CompletedAt x)) ])%list.

Definition into_list {A : Type} (d : Json.decoder A) (zero : A) : Json.decoder (list A) :=
  fun _ v => option_map elems (Json.into_slice d zero None v).

Definition fields (ms : list (string * Json.value)) (cur : t) : option t :=
  name ← Json.field Json.into_string "name" ms (Name cur);
  type ← Json.field Json.into_string "type" ms (Type_ cur);
  status ← Json.field Json.into_string "status" ms (Status cur);
  instance ← Json.field (Json.into_pointer Instance.of_json Instance.zero) "instance" ms
             (Instance cur);
  provisioners ← Json.field (Json.into_slice ProvisionerState.of_json ProvisionerState.zero)
                 "provisioners" ms (Provisioners cur);
  post_processors ← Json.field (into_list PostProcessorState.of_json PostProcessorState.zero)
                    "post_processors" ms (PostProcess cur);
  artifacts ← Json.field (into_list ArtifactState.of_json ArtifactState.zero)
              "artifacts" ms (Artifacts cur);
  error ← Json.field Json.into_string "error" ms (Error cur);
  started_at ← Json.field Json.into_string "started_at" ms (StartedAt cur);
  completed_at ← Json.field Json.into_string "completed_at" ms (CompletedAt cur);
  Some (mk name type status instance provisioners post_processors artifacts error
           started_at completed_at).

Definition of_json : Json.decoder t := Json.into_struct fields.

(** IsComplete checks if a build is complete. *)
Definition IsComplete (b : t) : bool := String.eqb (Status b) BuildStatusComplete.

(** HasInstance checks if build has an instance. *)
Definition HasInstance (b : t) : bool :=
  match Instance b with
  | Some i => negb (String.eqb (Instance.ID i) "")
  | None => false
  end.

(** ProvisionerComplete checks if a provisioner is complete.  [None] is
    the panic of indexing the slice with a negative index. *)
Definition ProvisionerComplete (b : t) (index : Z) : option bool :=
  if (index >=? Z.of_nat (length (elems (Provisioners b))))%Z then Some false
  else if (index <? 0)%Z then None
  else
    match elems (Provisioners b) !! Z.to_nat index with
    | Some p => Some (String.eqb (ProvisionerState.Status p) StatusComplete)
    | None => None
    end.

(** The loop of NextPendingProvisioner, at index [i] with [ps] left. *)
Fixpoint next_pending_from (i : nat) (ps : list ProvisionerState.t) : nat :=
  match ps with
  | [] => i
  | p :: ps' =>
      if String.eqb (ProvisionerState.Status p) StatusPending
         || String.eqb (ProvisionerState.Status p) StatusFailed
      then i
      else next_pending_from (S i) ps'
  end.

(** NextPendingProvisioner returns the index of the next pending
    provisioner. *)
Definition NextPendingProvisioner (b : t) : Z :=
  Z.of_nat (next_pending_from 0 (elems (Provisioners b))).

End Build.

(** State represents the complete builder state file.  (The mutex [mu]
    guards the document against other goroutines and has no part in a
    sequential run.) *)
Module State.

Record t := mk {
  Version : Z;
  Serial : Z;
  Lineage : string;
  BuilderVersion : string;
  PackerVersion : string;
  Template : TemplateState.t;
  Builds : GoMap.t (option Build.t);     (* map[string]*Build *)
  LastRun : option RunInfo.t;
  filePath : string
}.

Definition zero : t := mk 0 0 "" "" "" TemplateState.zero None None "".

Definition set_Serial (v : Z) (s : t) : t :=
  mk (Version s) v (Lineage s) (BuilderVersion s) (PackerVersion s) (Template s)
     (Builds s) (LastRun s) (filePath s).

Definition set_Template (v : TemplateState.t) (s : t) : t :=
  mk (Version s) (Serial s) (Lineage s) (BuilderVersion s) (PackerVersion s) v
     (Builds s) (LastRun s) (filePath s).

Definition set_Builds (v : GoMap.t (option Build.t)) (s : t) : t :=
  mk (Version s) (Serial s) (Lineage s) (BuilderVersion s) (PackerVersion s) (Template s)
     v (LastRun s) (filePath s).

Definition set_filePath (v : string) (s : t) : t :=
  mk (Version s) (Serial s) (Lineage s) (BuilderVersion s) (PackerVersion s) (Template s)
     (Builds s) (LastRun s) v.

Definition build_to_json (b : option Build.t) : Json.value :=
  match b with
  | Some b' => Build.to_json b'
  | None => Json.Null
  end.

Definition to_json (x : t) : Json.value :=
  Json.Object
    ([ ("version", Json.of_int (Version x));
       ("serial", Json.of_int (Serial x));
       ("lineage", Json.Str (Lineage x));
       ("builder_version", Json.Str (BuilderVersion x));
       ("packer_version", Json.Str (PackerVersion x));
       ("template", TemplateState.to_json (Template x));
       ("builds", Json.of_map build_to_json (Builds x)) ]
     ++ match LastRun x with
        | Some r => [("last_run", RunInfo.to_json r)]
        | None => []
        end)%list.

Definition fields (ms : list (string * Json.value)) (cur : t) : option t :=
  version ← Json.field Json.into_int "version" ms (Version cur);
  serial ← Json.field Json.into_int "serial" ms (Serial cur);
  lineage ← Json.field Json.into_string "lineage" ms (Lineage cur);
  builder_version ← Json.field Json.into_string "builder_version" ms (BuilderVersion cur);
  packer_version ← Json.field Json.into_string "packer_version" ms (PackerVersion cur);
  template ← Json.field TemplateState.of_json "template" ms (Template cur);
  builds ← Json.field (Json.into_map (Json.into_pointer Build.of_json Build.zero) None)
           "builds" ms (Builds cur);
  last_run ← Json.field (Json.into_pointer RunInfo.of_json RunInfo.zero) "last_run" ms
             (LastRun cur);
  Some (mk version serial lineage builder_version packer_version template builds last_run
           (filePath cur)).

Definition of_json : Json.decoder t := Json.into_struct fields.

(** [var state State; json.NewDecoder(f).Decode(&state)] on a file that
    holds [content]. *)
Definition Decode (content : string) : t + error :=
  match Json.parse_first content with
  | Some v =>
      match of_json zero v with
      | Some s => inl s
      | None => inr JsonError
      end
  | None => inr JsonError
  end.

(** [encoder.SetIndent("", "  "); encoder.Encode(s)]: the text written. *)
Definition Encode (s : t) : string := Json.Encode (to_json s).

(** Save saves state to a file. *)
Definition Save (s : t) (path : string) (w : World) : option error * t * World :=
  let s := set_filePath path (set_Serial (Int.incr (Serial s)) s) in
  (* Create directory if it doesn't exist *)
  let dir := filepath_Dir path in
  match os.MkdirAll dir w with
  | (Some err, w) => (Some (ErrCreateStateDir err), s, w)
  | (None, w) =>
      (* Write to temp file first *)
      let tmpPath := path ++ ".tmp" in
      match os.Create tmpPath w with
      | (Some err, w) => (Some (ErrCreateTemp err), s, w)
      | (None, w) =>
          match os.Write tmpPath (Encode s) w with
          | (Some err, w) =>
              let '(_, w) := os.Close tmpPath w in
              let '(_, w) := os.Remove tmpPath w in
              (Some (ErrEncodeState err), s, w)
          | (None, w) =>
              match os.Close tmpPath w with
              | (Some err, w) =>
                  let '(_, w) := os.Remove tmpPath w in
                  (Some (ErrCloseTemp err), s, w)
              | (None, w) =>
                  (* Atomic rename *)
                  match os.Rename tmpPath path w with
                  | (Some err, w) =>
                      let '(_, w) := os.Remove tmpPath w in
                      (Some (ErrRenameState err), s, w)
                  | (None, w) => (None, s, w)
                  end
              end
          end
      end
  end.

(** Save on the file system [fs]. *)
Definition Save_on (fs : FS.t) (s : t) (path : string) (w : World)
  : option error * t * World :=
  let s := set_filePath path (set_Serial (Int.incr (Serial s)) s) in
  (* Create directory if it doesn't exist *)
  let dir := filepath_Dir path in
  match os.MkdirAll dir w with
  | (Some err, w) => (Some (ErrCreateStateDir err), s, w)
  | (None, w) =>
      (* Write to temp file first *)
      let tmpPath := path ++ ".tmp" in
      match os.Create tmpPath w with
      | (Some err, w) => (Some (ErrCreateTemp err), s, w)
      | (None, w) =>
          match os.Write tmpPath (Encode s) w with
          | (Some err, w) =>
              let '(_, w) := os.Close tmpPath w in
              let '(_, w) := FS.Remove fs tmpPath w in
              (Some (ErrEncodeState err), s, w)
          | (None, w) =>
              match os.Close tmpPath w with
              | (Some err, w) =>
                  let '(_, w) := FS.Remove fs tmpPath w in
                  (Some (ErrCloseTemp err), s, w)
              | (None, w) =>
                  (* Atomic rename *)
                  match os.Rename tmpPath path w with
                  | (Some err, w) =>
                      let '(_, w) := FS.Remove fs tmpPath w in
                      (Some (ErrRenameState err), s, w)
                  | (None, w) => (None, s, w)
                  end
              end
          end
      end
  end.

(** GetBuild returns the build state for a given name. *)
Definition GetBuild (s : t) (name : string) : option Build.t :=
  GoMap.index None (Builds s) name.

(** SetBuild sets the build state for a given name.  [None] is the panic
    of an assignment to a [nil] map. *)
Definition SetBuild (s : t) (name : string) (build : option Build.t) : option t :=
  match GoMap.assign (Builds s) name build with
  | Some builds => Some (set_Builds builds s)
  | None => None
  end.

(** RemoveBuild removes a build from state. *)
Definition RemoveBuild (s : t) (name : string) : t :=
  set_Builds (GoMap.remove (Builds s) name) s.

(** What the loops of ComputeFingerprint write to the hash, given the
    entries in the order the loop meets them. *)
Fixpoint written (entries : list (string * string)) : string :=
  match entries with
  | [] => ""
  | (k, v) :: rest => k ++ v ++ written rest
  end.

(** ComputeFingerprint computes a fingerprint of the template and inputs,
    for the orders [variables] and [files] in which the two loops meet
    the entries of the maps. *)
Definition ComputeFingerprint_in (s : t) (variables files : list (string * string)) : string :=
  (* Include template hash, variables, file hashes *)
  sha256_label (TemplateState.Hash (Template s) ++ written variables ++ written files).

(** The fingerprints a call of ComputeFingerprint can return. *)
Inductive ComputeFingerprint (s : t) : string -> Prop :=
| ComputeFingerprint_intro (variables files : list (string * string)) :
    GoMap.range_order (TemplateState.Variables (Template s)) variables ->
    GoMap.range_order (TemplateState.Files (Template s)) files ->
    ComputeFingerprint s (ComputeFingerprint_in s variables files).

End State.

(** New creates a new empty state. *)
Definition New (templatePath : string) (w : World) : State.t * World :=
  let '(lineage, w) := uuid_New w in
  (State.mk 1 1 lineage "" ""
     (TemplateState.mk templatePath "" GoMap.make GoMap.make)
     GoMap.make None "",
   w).

(** Load loads state from a file. *)
Definition Load (path : string) (w : World) : option State.t + error :=
  match os.Open path w with
  | inr err =>
      if IsNotExist err then inl None   (* No state file yet *)
      else inr (ErrOpenState err)
  | inl content =>
      match State.Decode content with
      | inr err => inr (ErrDecodeState err)
      | inl state => inl (Some (State.set_filePath path state))
      end
  end.

(** Load on the file system [fs]. *)
Definition Load_on (fs : FS.t) (path : string) (w : World)
  : (option State.t + error) * World :=
  match FS.Open fs path w with
  | (inr err, w) =>
      if IsNotExist err then (inl None, w)   (* No state file yet *)
      else (inr (ErrOpenState err), w)
  | (inl content, w) =>
      match State.Decode content with
      | inr err => (inr (ErrDecodeState err), w)
      | inl state => (inl (Some (State.set_filePath path state)), w)
      end
  end.

(** ** manager.go *)

(** Manager handles state file operations with locking.  The document
    [state] points to is the one every holder of the pointer sees: it
    lives here and nowhere else. *)
Module Manager.

Record t := mk {
  statePath : string;
  lockManager : LockManager.t;
  state : option State.t
}.

Definition set_lockManager (lm : LockManager.t) (m : t) : t :=
  mk (statePath m) lm (state m).

Definition set_state (s : option State.t) (m : t) : t :=
  mk (statePath m) (lockManager m) s.

(** Load loads and locks the state file. *)
Definition Load (m : t) (w : World) : (State.t + error) * t * World :=
  (* Lock the state *)
  match LockManager.Lock (lockManager m) "build" w with
  | (Some err, lm, w) => (inr (ErrLockState err), set_lockManager lm m, w)
  | (None, lm, w) =>
      let m := set_lockManager lm m in
      (* Load state *)
      match Load (statePath m) w with
      | inr err =>
          let '(_, lm, w) := LockManager.Unlock (lockManager m) w in
          (inr err, set_lockManager lm m, w)
      | inl state =>
          let '(state, w) :=
            match state with
            | None => New (statePath m) w   (* No existing state, create new *)
            | Some s => (s, w)
            end in
          (inl state, set_state (Some state) m, w)
      end
  end.

(** Save saves the state file. *)
Definition Save (m : t) (w : World) : option error * t * World :=
  match state m with
  | None => (Some ErrNoStateLoaded, m, w)
  | Some s =>
      let '(err, s, w) := State.Save s (statePath m) w in
      (err, set_state (Some s) m, w)
  end.

(** Unlock unlocks the state file. *)
Definition Unlock (m : t) (w : World) : option error * t * World :=
  let '(err, lm, w) := LockManager.Unlock (lockManager m) w in
  (err, set_lockManager lm m, w).

(** Close saves and unlocks the state. *)
Definition Close (m : t) (w : World) : option error * t * World :=
  match state m with
  | Some _ =>
      match Save m w with
      | (Some err, m, w) => (Some err, m, w)
      | (None, m, w) => Unlock m w
      end
  | None => Unlock m w
  end.

(** Load, Save and Unlock on the file system [fs]. *)
Definition Load_on (fs : FS.t) (m : t) (w : World) : (State.t + error) * t * World :=
  (* Lock the state *)
  match LockManager.Lock_on fs (lockManager m) "build" w with
  | (Some err, lm, w) => (inr (ErrLockState err), set_lockManager lm m, w)
  | (None, lm, w) =>
      let m := set_lockManager lm m in
      (* Load state *)
      match Load_on fs (statePath m) w with
      | (inr err, w) =>
          let '(_, lm, w) := LockManager.Unlock_on fs (lockManager m) w in
          (inr err, set_lockManager lm m, w)
      | (inl state, w) =>
          let '(state, w) :=
            match state with
            | None => New (statePath m) w   (* No existing state, create new *)
            | Some s => (s, w)
            end in
          (inl state, set_state (Some state) m, w)
      end
  end.

Definition Save_on (fs : FS.t) (m : t) (w : World) : option error * t * World :=
  match state m with
  | None => (Some ErrNoStateLoaded, m, w)
  | Some s =>
      let '(err, s, w) := State.Save_on fs s (statePath m) w in
      (err, set_state (Some s) m, w)
  end.

Definition Unlock_on (fs : FS.t) (m : t) (w : World) : option error * t * World :=
  let '(err, lm, w) := LockManager.Unlock_on fs (lockManager m) w in
  (err, set_lockManager lm m, w).

(** State returns the current state. *)
Definition State (m : t) : option State.t := state m.

(** The loop [for k, v := range given { if recorded[k] != v { return true } }]
    over the entries of [given] in the order it meets them; [false] when
    the loop runs to its end. *)
Fixpoint differs (recorded : GoMap.t string) (given : list (string * string)) : bool :=
  match given with
  | [] => false
  | (k, v) :: rest =>
      if negb (String.eqb (GoMap.index "" recorded k) v) then true
      else differs recorded rest
  end.

(** InputsChanged checks if template inputs have changed; [vorder] and
    [forder] are the orders in which its two loops meet the entries of
    [variables] and of [files]. *)
Definition InputsChanged_in (m : t) (templateHash : string)
           (variables files : GoMap.t string)
           (vorder forder : list (string * string)) : bool :=
  match state m with
  | None => true
  | Some st =>
      let template := State.Template st in
      (* Check template hash *)
      if negb (String.eqb (TemplateState.Hash template) templateHash) then true
      (* Check variables *)
      else if negb (Nat.eqb (GoMap.len (TemplateState.Variables template)) (GoMap.len variables))
      then true
      else if differs (TemplateState.Variables template) vorder then true
      (* Check files *)
      else if negb (Nat.eqb (GoMap.len (TemplateState.Files template)) (GoMap.len files))
      then true
      else if differs (TemplateState.Files template) forder then true
      else false
  end.

(** The answer does not depend on the orders (lemma
    [InputsChanged_any_order]); here the loops take the entries as the
    table lists them. *)
Definition InputsChanged (m : t) (templateHash : string)
           (variables files : GoMap.t string) : bool :=
  InputsChanged_in m templateHash variables files
    (map_to_list (GoMap.table variables)) (map_to_list (GoMap.table files)).

(** UpdateTemplateInputs updates the template inputs in state. *)
Definition UpdateTemplateInputs (m : t) (templatePath templateHash : string)
           (variables files : GoMap.t string) : t :=
  match state m with
  | None => m
  | Some st =>
      set_state (Some (State.set_Template
                         (TemplateState.mk templatePath templateHash variables files) st)) m
  end.

End Manager.

(** NewManager creates a new state manager. *)
Definition NewManager (statePath : string) : Manager.t :=
  Manager.mk statePath (NewLockManager statePath) None.

(** ComputeFileHash computes the SHA256 hash of a file. *)
Definition ComputeFileHash (path : string) (w : World) : string + error :=
  match os.Open path w with
  | inr err => inr err
  | inl content => inl (sha256_label content)
  end.

(** * Package wrapper *)

(** The text of an error ([err.Error()]). *)
Definition errno_text (e : errno) : string :=
  match e with
  | ENOENT => "no such file or directory"
  | EEXIST => "file exists"
  | EIO => "input/output error"
  end.

Fixpoint Error_text (e : error) : string :=
  match e with
  | PathError op path en => op ++ " " ++ path ++ ": " ++ errno_text en
  | JsonError => "invalid JSON"
  | EngineError msg => msg
  | ErrLockState c => "failed to lock state: " ++ Error_text c
  | ErrNoStateLoaded => "no state loaded"
  | ErrOpenState c => "failed to open state file: " ++ Error_text c
  | ErrDecodeState c => "failed to decode state file: " ++ Error_text c
  | ErrCreateStateDir c => "failed to create state directory: " ++ Error_text c
  | ErrCreateTemp c => "failed to create temp state file: " ++ Error_text c
  | ErrEncodeState c => "failed to encode state: " ++ Error_text c
  | ErrCloseTemp c => "failed to close temp state file: " ++ Error_text c
  | ErrRenameState c => "failed to rename state file: " ++ Error_text c
  | ErrReadExistingLock c => "failed to read existing lock: " ++ Error_text c
  | ErrLockedBy who id operation created =>
      "state is locked by " ++ who ++ " (ID: " ++ id ++ ", Operation: " ++ operation
        ++ ", Created: " ++ created ++ ")"
  | ErrLockedRace who id => "state is locked by " ++ who ++ " (ID: " ++ id ++ ")"
  | ErrLocked => "state is locked"
  | ErrMarshalLock c => "failed to marshal lock: " ++ Error_text c
  | ErrCreateLockDir c => "failed to create lock directory: " ++ Error_text c
  | ErrCreateLockFile c => "failed to create lock file: " ++ Error_text c
  | ErrWriteLock c => "failed to write lock file: " ++ Error_text c
  | ErrCloseLock c => "failed to close lock file: " ++ Error_text c
  | ErrReadLockBeforeUnlock c => "failed to read lock before unlock: " ++ Error_text c
  | ErrLockStolen who id => "lock was stolen by " ++ who ++ " (ID: " ++ id ++ ")"
  | ErrRemoveLock c => "failed to remove lock file: " ++ Error_text c
  | ErrForceUnlock c => "failed to force unlock: " ++ Error_text c
  | ErrStateNotLoaded => "state not loaded"
  | ErrSaveInitialState c => "failed to save initial state: " ++ Error_text c
  | ErrResumeNotImplemented =>
      "resume not yet implemented - builder must complete atomically"
  end.

(** CachedArtifact represents an artifact loaded from state. *)
Module CachedArtifact.

Record t := mk {
  id : string;
  builderID : string;
  files : list string
}.

Definition BuilderId (a : t) : string := builderID a.
Definition Files (a : t) : list string := files a.
Definition Id (a : t) : string := id a.
Definition String (a : t) : string := "Cached artifact: " ++ id a.

(** Cached artifacts shouldn't be destroyed. *)
Definition Destroy (a : t) : option error := None.

End CachedArtifact.

(** [packersdk.Artifact]: the values of the interface are the artifacts
    the build engine hands back, known by what their methods report, and
    the cached ones. *)
Module Artifact.

Inductive t :=
| Cached (a : CachedArtifact.t)
| Built (id builderId : string) (files : list string).

Definition Id (a : t) : string :=
  match a with
  | Cached c => CachedArtifact.Id c
  | Built id _ _ => id
  end.

Definition BuilderId (a : t) : string :=
  match a with
  | Cached c => CachedArtifact.BuilderId c
  | Built _ builderId _ => builderId
  end.

Definition Files (a : t) : list string :=
  match a with
  | Cached c => CachedArtifact.Files c
  | Built _ _ files => files
  end.

End Artifact.

(** [packer.CoreBuild], as far as the wrapper reads it. *)
Module CoreBuild.

Record Provisioner := mkProvisioner { PType : string }.

Record t := mk {
  BuildName : string;
  BuilderType : string;
  Provisioners : list Provisioner
}.

End CoreBuild.

(** [CoreBuild.Run]: the build engine, a collaborator outside the
    repository.  It answers with artifacts or an error and may change
    the world. *)
Definition Engine := CoreBuild.t -> World -> (list Artifact.t + error) * World.

(** What reaches the user interface and the log. *)
Inductive UiEvent :=
| UiSay (msg : string)
| UiError (msg : string)
| LogPrintf (msg : string).

(** What a run of the wrapper works on: the manager it shares with its
    caller (and through it the state document), the world, and the
    messages sent so far. *)
Record Session := mkSession {
  manager : Manager.t;
  world : World;
  ui : list UiEvent
}.

(** A step of the wrapper yields a value or panics. *)
Inductive outcome (A : Type) :=
| Return (a : A)
| Panic (msg : string).

Arguments Return {A} a.
Arguments Panic {A} msg.

Definition Cmd (A : Type) : Type := Session -> outcome A * Session.

Definition ret {A : Type} (a : A) : Cmd A := fun s => (Return a, s).

Definition bind {A B : Type} (c : Cmd A) (k : A -> Cmd B) : Cmd B :=
  fun s =>
    match c s with
    | (Return a, s') => k a s'
    | (Panic msg, s') => (Panic msg, s')
    end.

#[global] Instance Cmd_ret : MRet Cmd := @ret.
#[global] Instance Cmd_bind : MBind Cmd := fun A B k c => bind c k.

(** [ui.Say], [ui.Error], [log.Printf] *)
Definition Say (msg : string) : Cmd unit :=
  fun s => (Return tt, mkSession (manager s) (world s) (ui s ++ [UiSay msg])).

Definition Error (msg : string) : Cmd unit :=
  fun s => (Return tt, mkSession (manager s) (world s) (ui s ++ [UiError msg])).

Definition Printf (msg : string) : Cmd unit :=
  fun s => (Return tt, mkSession (manager s) (world s) (ui s ++ [LogPrintf msg])).

(** [time.Now()] *)
Definition Now : Cmd Time := fun s => (Return (clock (world s)), s).

(** [sb.stateManager.Save()] *)
Definition Save : Cmd (option error) :=
  fun s =>
    let '(err, m, w) := Manager.Save (manager s) (world s) in
    (Return err, mkSession m w (ui s)).

(** [st.SetBuild(name, build)] on the document of the manager.  It is
    also how a write through the pointer [buildState] reaches the
    document: the map holds that very pointer. *)
Definition SetBuild (name : string) (build : Build.t) : Cmd unit :=
  fun s =>
    match Manager.state (manager s) with
    | None => (Panic "invalid memory address or nil pointer dereference", s)
    | Some st =>
        match State.SetBuild st name (Some build) with
        | None => (Panic "assignment to entry in nil map", s)
        | Some st' =>
            (Return tt, mkSession (Manager.set_state (Some st') (manager s)) (world s) (ui s))
        end
    end.

(** StatefulBuild wraps a CoreBuild to add state management and
    checkpointing.  (Its [stateManager] is the manager of the session.) *)
Module StatefulBuild.

Record t := mk {
  inner : CoreBuild.t;
  buildName : string
}.

(** The mark that opens the up-to-date message, byte for byte. *)
Definition check_mark : string :=
  String "195" (String "162" (String "197" (String "147"
    (String "226" (String "128" (String "156" "")))))).

(** inputsChangedSinceLastBuild checks if inputs have changed since the
    last successful build. *)
Definition inputsChangedSinceLastBuild (sb : t) : bool :=
  (* This will be implemented when we track template/variable changes.
     For now, assume inputs haven't changed if we have a complete build *)
  false.

(** loadArtifactsFromState reconstructs artifacts from state. *)
Definition loadArtifactsFromState (sb : t) (buildState : Build.t)
  : list Artifact.t + error :=
  inl (map (fun artState =>
              Artifact.Cached
                (CachedArtifact.mk (ArtifactState.ID artState)
                                   (ArtifactState.BuilderID artState)
                                   (ArtifactState.Files artState)))
           (Build.Artifacts buildState)).

(** artifactsToState converts Packer artifacts to state format. *)
Definition artifactsToState (sb : t) (artifacts : list Artifact.t) : list ArtifactState.t :=
  map (fun art =>
         ArtifactState.mk (Artifact.Id art) (Artifact.BuilderId art) ""
                          (Artifact.Files art) ∅ "")
      artifacts.

(** resumeBuild attempts to resume a build from a checkpoint. *)
Definition resumeBuild (sb : t) (buildState : Build.t) : Cmd (list Artifact.t + error) :=
  ret (inr ErrResumeNotImplemented).

(** [sb.inner.Run(ctx, ui)] *)
Definition inner_Run (sb : t) (engine : Engine) : Cmd (list Artifact.t + error) :=
  fun s =>
    let '(r, w) := engine (inner sb) (world s) in
    (Return r, mkSession (manager s) w (ui s)).

(** runFreshBuild executes a build from scratch. *)
Definition runFreshBuild (sb : t) (engine : Engine) (buildState : Build.t)
  : Cmd (list Artifact.t + error) :=
  (* Update status *)
  let buildState := Build.set_Status BuildStatusCreating buildState in
  SetBuild (buildName sb) buildState ;;
  err ← Save;
  match err with
  | Some err => ret (inr err)
  | None =>
      Say ("Running builder: " ++ CoreBuild.BuilderType (inner sb)) ;;
      (* Call the original CoreBuild.Run() *)
      r ← inner_Run sb engine;
      match r with
      | inr err =>
          (* Build failed *)
          let buildState :=
            Build.set_Error (Error_text err) (Build.set_Status BuildStatusFailed buildState) in
          SetBuild (buildName sb) buildState ;;
          _ ← Save;
          ret (inr err)
      | inl artifacts =>
          (* Build succeeded! *)
          now ← Now;
          let buildState :=
            Build.set_Artifacts (artifactsToState sb artifacts)
              (Build.set_CompletedAt now (Build.set_Status BuildStatusComplete buildState)) in
          SetBuild (buildName sb) buildState ;;
          err ← Save;
          match err with
          | Some err =>
              Printf ("Warning: failed to save completion state: " ++ Error_text err) ;;
              ret (inl artifacts)
          | None => ret (inl artifacts)
          end
      end
  end.

(** Run, from "Initialize build state if needed" on; [buildState] is the
    record to go on with, [None] for a fresh start. *)
Definition Run_build (sb : t) (engine : Engine) (buildState : option Build.t)
  : Cmd (list Artifact.t + error) :=
  (* Initialize build state if needed *)
  r ← match buildState with
       | Some b => ret (inl b)
       | None =>
           now ← Now;
           let b :=
             Build.mk (buildName sb) (CoreBuild.BuilderType (inner sb)) BuildStatusPending
               None
               (* Initialize provisioner states *)
               (Some (map (fun p =>
                             ProvisionerState.mk (CoreBuild.PType p) "" StatusPending ""
                                                 zero_time zero_time)
                          (CoreBuild.Provisioners (inner sb))))
               [] [] "" now zero_time in
           SetBuild (buildName sb) b ;;
           err ← Save;
           match err with
           | Some err => ret (inr (ErrSaveInitialState err))
           | None => ret (inl b)
           end
       end;
  match r with
  | inr err => ret (inr err)
  | inl buildState =>
      (* Check if we have an existing instance to resume *)
      if Build.HasInstance buildState then
        Say ("Found existing instance: "
               ++ match Build.Instance buildState with
                  | Some i => Instance.ID i
                  | None => ""
                  end) ;;
        Say "Attempting to resume from checkpoint..." ;;
        r ← resumeBuild sb buildState;
        match r with
        | inr err =>
            (* If resume fails, clean up and start over *)
            Error ("Failed to resume: " ++ Error_text err) ;;
            Say "Starting fresh build..." ;;
            let buildState :=
              Build.set_Status BuildStatusPending (Build.set_Instance None buildState) in
            SetBuild (buildName sb) buildState ;;
            (* Run the normal build flow *)
            runFreshBuild sb engine buildState
        | inl artifacts => ret (inl artifacts)
        end
      else
        (* Run the normal build flow *)
        runFreshBuild sb engine buildState
  end.

(** Run executes the build with state management and checkpointing. *)
Definition Run (sb : t) (engine : Engine) : Cmd (list Artifact.t + error) :=
  fun s =>
    match Manager.State (manager s) with
    | None => (Return (inr ErrStateNotLoaded), s)
    | Some st =>
        match State.GetBuild st (buildName sb) with
        | Some buildState =>
            (* Check if build is already complete and inputs haven't changed *)
            if Build.IsComplete buildState then
              (Say ("Build '" ++ buildName sb
                      ++ "' already complete, checking if rebuild needed...") ;;
               (* If inputs haven't changed, return cached artifacts *)
               if negb (inputsChangedSinceLastBuild sb) then
                 Say (check_mark ++ " Build '" ++ buildName sb
                        ++ "' is up-to-date, using existing artifacts") ;;
                 ret (loadArtifactsFromState sb buildState)
               else
                 Say "Inputs changed, rebuilding..." ;;
                 Run_build sb engine None (* Start fresh *)) s
            else Run_build sb engine (Some buildState) s
        | None => Run_build sb engine None s
        end
    end.

End StatefulBuild.

(** NewStatefulBuild creates a new stateful build wrapper. *)
Definition NewStatefulBuild (coreBuild : CoreBuild.t) : StatefulBuild.t :=
  StatefulBuild.mk coreBuild (CoreBuild.BuildName coreBuild).

(** * The commands *)

(** ** strings, path/filepath, flag *)

(** [strings.HasPrefix] *)
Definition strings_HasPrefix (s pre : string) : bool := String.prefix pre s.

(** [strings.Contains] *)
Fixpoint strings_Contains (s substr : string) : bool :=
  String.prefix substr s
  || match s with
     | EmptyString => false
     | String _ s' => strings_Contains s' substr
     end.

(** The elements of a path: what stands between the separators. *)
Fixpoint path_elements (s : string) (cur : string) : list string :=
  match s with
  | EmptyString => [cur]
  | String c s' =>
      if Ascii.eqb c "/" then cur :: path_elements s' "" else path_elements s' (cur ++ String c "")
  end.

Fixpoint join_with (sep : string) (l : list string) : string :=
  match l with
  | [] => ""
  | [x] => x
  | x :: l' => x ++ sep ++ join_with sep l'
  end.

(** [filepath.Clean] on a path with [/] as separator.  The elements are
    taken from left to right: an empty one and [.] are dropped; [..]
    removes the element before it, is dropped at the root, and is kept
    at the front of a relative path; [kept] holds the elements that
    stay, last first, [ups] counts the [..] kept in front. *)
Fixpoint clean_elements (rooted : bool) (els : list string) (ups : nat) (kept : list string)
  : nat * list string :=
  match els with
  | [] => (ups, kept)
  | e :: els' =>
      if String.eqb e "" || String.eqb e "." then clean_elements rooted els' ups kept
      else if String.eqb e ".." then
        match kept with
        | _ :: kept' => clean_elements rooted els' ups kept'
        | [] => clean_elements rooted els' (if rooted then ups else S ups) kept
        end
      else clean_elements rooted els' ups (e :: kept)
  end.

Definition filepath_Clean (path : string) : string :=
  match path with
  | EmptyString => "."
  | String c _ =>
      let rooted := Ascii.eqb c "/" in
      let '(ups, kept) := clean_elements rooted (path_elements path "") 0 [] in
      let body := join_with "/" (repeat ".." ups ++ rev kept)%list in
      if rooted then "/" ++ body
      else if String.eqb body "" then "." else body
  end.

(** [filepath.Join]: the elements from the first non-empty one on,
    joined and cleaned; the empty string if all are empty. *)
Fixpoint filepath_Join (elem : list string) : string :=
  match elem with
  | [] => ""
  | e :: rest =>
      if String.eqb e "" then filepath_Join rest
      else filepath_Clean (join_with "/" elem)
  end.

(** The first [=] of a string: what stands before it and after it. *)
Fixpoint cut_at_equals (s : string) : option (string * string) :=
  match s with
  | EmptyString => None
  | String c s' =>
      if Ascii.eqb c "=" then Some ("", s')
      else match cut_at_equals s' with
           | Some (before, after) => Some (String c before, after)
           | None => None
           end
  end.

(** [flag.FlagSet.Parse] for a flag set that defines one string flag,
    [state], whose variable holds [statePath]: the value of the variable
    and the arguments left ([flags.Args()]) when the parsing ends, [None]
    when it ends with an error.  An argument is a flag when it has two
    bytes or more and begins with a dash; [--] ends the flags; the value
    of the flag follows an [=] (which cannot come first in the name) or is
    the next argument. *)
Fixpoint flag_Parse (statePath : string) (args : list string) : option (string * list string) :=
  match args with
  | [] => Some (statePath, [])
  | s :: rest =>
      match s with
      | String "-" (String c1 t as s1) =>
          if Ascii.eqb c1 "-" && String.eqb t "" then Some (statePath, rest)
          else
            match (if Ascii.eqb c1 "-" then t else s1) with
            | EmptyString => None
            | String n0 name' =>
                if Ascii.eqb n0 "-" || Ascii.eqb n0 "=" then None   (* bad flag syntax *)
                else
                  let '(name, value) :=
                    match cut_at_equals name' with
                    | Some (before, after) => (String n0 before, Some after)
                    | None => (String n0 name', None)
                    end in
                  if String.eqb name "state" then
                    match value with
                    | Some v => flag_Parse v rest
                    | None =>
                        match rest with
                        | v :: rest' => flag_Parse v rest'   (* value is the next arg *)
                        | [] => None                         (* flag needs an argument *)
                        end
                    end
                  else None   (* help requested, or flag provided but not defined *)
            end
      | _ => Some (statePath, args)
      end
  end.

(** ** manager.go, continued *)

(** DefaultStatePath returns the default state file path. *)
Definition DefaultStatePath (templateDir : string) : string :=
  filepath_Join [templateDir; ".packer.d"; "builder-state.json"].

(** ** cmd/builder: main.go *)

(** The index of the first argument equal to [x], counted from [i]. *)
Fixpoint index_from (x : string) (args : list string) (i : nat) : option nat :=
  match args with
  | [] => None
  | arg :: rest => if String.eqb arg x then Some i else index_from x rest (S i)
  end.

(** extractMachineReadable checks args for -machine-readable flag. *)
Definition extractMachineReadable (args : list string) : list string * bool :=
  match index_from "-machine-readable" args 0 with
  | Some i => ((take i args ++ drop (S i) args)%list, true)
  | None => (args, false)
  end.

(** ** cmd/builder/main.go: the build command of package buildercommand *)

(** needsValue checks if a flag requires a value. *)
Definition needsValue (flag : string) : bool :=
  (* Remove = if present (e.g., -var=foo) *)
  if strings_Contains flag "=" then false
  else
    let valueFlags := ["-var"; "-var-file"; "-only"; "-except";
                       "-on-error"; "-parallel-builds"; "-state"] in
    existsb (String.eqb flag) valueFlags.

(** The loop of extractTemplatePath, with [skipNext] as it stands. *)
Fixpoint extractTemplatePath_loop (skipNext : bool) (args : list string) : string :=
  match args with
  | [] => ""
  | arg :: rest =>
      if skipNext then extractTemplatePath_loop false rest
      (* Flag that takes a value *)
      else if strings_HasPrefix arg "-" then extractTemplatePath_loop (needsValue arg) rest
      (* Found the template *)
      else arg
  end.

(** extractTemplatePath finds the template path from command args. *)
Definition extractTemplatePath (args : list string) : string :=
  extractTemplatePath_loop false args.

(** ** internal/buildercommand: state.go *)

(** StateRmCommand removes a build from state.  Run yields the exit
    code, what it sent to the user interface, and the world it leaves.
    This is the Run that is implemented; state.go also holds an earlier
    one that only says [State rm not yet implemented].  What the flag
    package prints on a parsing error goes to the standard error
    stream, not to the user interface.  The test [st == nil] of the
    source has no branch here: Manager.Load returns a document whenever
    it returns no error. *)
Module StateRmCommand.

Definition Run (args : list string) (w : World) : Z * list UiEvent * World :=
  match flag_Parse "" args with
  | None => (1%Z, [], w)
  | Some (statePath, args) =>
      match args with
      | [buildName] =>
          (* Default state path *)
          let statePath :=
            if String.eqb statePath "" then DefaultStatePath "." else statePath in
          (* Load state with locking *)
          let manager := NewManager statePath in
          match Manager.Load manager w with
          | (inr err, _, w) => (1%Z, [UiError ("Error loading state: " ++ Error_text err)], w)
          | (inl st, manager, w) =>
              let '(code, ui, manager, w) :=
                (* Check if build exists *)
                match State.GetBuild st buildName with
                | None =>
                    (1%Z, [UiError ("Build '" ++ buildName ++ "' not found in state")],
                     manager, w)
                | Some _ =>
                    (* Remove build: [st] is the document of the manager *)
                    let manager :=
                      Manager.set_state (Some (State.RemoveBuild st buildName)) manager in
                    (* Save *)
                    match Manager.Save manager w with
                    | (Some err, manager, w) =>
                        (1%Z, [UiError ("Error saving state: " ++ Error_text err)], manager, w)
                    | (None, manager, w) =>
                        (0%Z, [UiSay ("Removed build '" ++ buildName ++ "' from state")],
                         manager, w)
                    end
                end in
              (* defer manager.Unlock() *)
              let '(_, _, w) := Manager.Unlock manager w in
              (code, ui, w)
          end
      | _ => (1%Z, [UiError "Usage: builder state rm BUILD_NAME"], w)
      end
  end.

(** Run on the file system [fs]. *)
Definition Run_on (fs : FS.t) (args : list string) (w : World) : Z * list UiEvent * World :=
  match flag_Parse "" args with
  | None => (1%Z, [], w)
  | Some (statePath, args) =>
      match args with
      | [buildName] =>
          (* Default state path *)
          let statePath :=
            if String.eqb statePath "" then DefaultStatePath "." else statePath in
          (* Load state with locking *)
          let manager := NewManager statePath in
          match Manager.Load_on fs manager w with
          | (inr err, _, w) => (1%Z, [UiError ("Error loading state: " ++ Error_text err)], w)
          | (inl st, manager, w) =>
              let '(code, ui, manager, w) :=
                (* Check if build exists *)
                match State.GetBuild st buildName with
                | None =>
                    (1%Z, [UiError ("Build '" ++ buildName ++ "' not found in state")],
                     manager, w)
                | Some _ =>
                    (* Remove build: [st] is the document of the manager *)
                    let manager :=
                      Manager.set_state (Some (State.RemoveBuild st buildName)) manager in
                    (* Save *)
                    match Manager.Save_on fs manager w with
                    | (Some err, manager, w) =>
                        (1%Z, [UiError ("Error saving state: " ++ Error_text err)], manager, w)
                    | (None, manager, w) =>
                        (0%Z, [UiSay ("Removed build '" ++ buildName ++ "' from state")],
                         manager, w)
                    end
                end in
              (* defer manager.Unlock(): its outcome is thrown away *)
              let '(_, _, w) := Manager.Unlock_on fs manager w in
              (code, ui, w)
          end
      | _ => (1%Z, [UiError "Usage: builder state rm BUILD_NAME"], w)
      end
  end.

End StateRmCommand.

(** ** cmd/builder/main.go: the build command with state (package buildercommand) *)

(** [command.BuildArgs], as far as the command reads it. *)
Module BuildArgs.

Record t := mk {
  Path : string;
  Vars : GoMap.t string;
  Only : list string;
  Except : list string;
  Debug : bool;
  Force : bool;
  OnError : string;
  ReleaseOnly : bool;
  UseSequential : bool
}.

End BuildArgs.

(** What the command asks of Packer, a collaborator outside the
    repository.  Each call answers with what it told the user and with
    a return code; the calls that look at the plugins and at the
    template may change the world. *)
Module Packer.

Record t := mk {
  (* buildCmd.ParseArgs(args) *)
  ParseArgs : list string -> World -> list UiEvent * World * BuildArgs.t * Z;
  (* c.GetConfig(&cfg.MetaArgs) *)
  GetConfig : BuildArgs.t -> World -> list UiEvent * World * Z;
  (* packerStarter.DetectPluginBinaries(), with WriteDiags *)
  DetectPluginBinaries : BuildArgs.t -> World -> list UiEvent * World * Z;
  (* packerStarter.Initialize(...), with WriteDiags *)
  Initialize : BuildArgs.t -> World -> list UiEvent * World * Z;
  (* packerStarter.GetBuilds(...), with WriteDiags *)
  GetBuilds : BuildArgs.t -> World -> list UiEvent * World * list CoreBuild.t * Z;
  (* String() of an artifact the engine hands back *)
  ArtifactString : string -> string -> list string -> string
}.

End Packer.

Module BuildCommand.

Definition nil_dereference : string := "invalid memory address or nil pointer dereference".

(** A call of Packer within the session. *)
Definition ask (call : World -> list UiEvent * World * Z) : Cmd Z :=
  fun s =>
    let '(said, w, code) := call (world s) in
    (Return code, mkSession (manager s) w (ui s ++ said)%list).

(** [artifact.String()] *)
Definition Artifact_String (packer : Packer.t) (a : Artifact.t) : string :=
  match a with
  | Artifact.Cached c => CachedArtifact.String c
  | Artifact.Built id builderId files => Packer.ArtifactString packer id builderId files
  end.

(** The loop of runStatefulBuild over the builds: the artifacts of all
    of them, or nothing when one has failed. *)
Fixpoint run_builds (engine : Engine) (builds : list CoreBuild.t) (artifacts : list Artifact.t)
  : Cmd (option (list Artifact.t)) :=
  match builds with
  | [] => ret (Some artifacts)
  | coreBuild :: rest =>
      Say (String "010" "==> " ++ CoreBuild.BuildName coreBuild ++ ": Starting build") ;;
      let statefulBuild := NewStatefulBuild coreBuild in
      r ← StatefulBuild.Run statefulBuild engine;
      match r with
      | inr err =>
          Error ("Build '" ++ CoreBuild.BuildName coreBuild ++ "' failed: " ++ Error_text err) ;;
          ret None
      | inl buildArtifacts => run_builds engine rest (artifacts ++ buildArtifacts)%list
      end
  end.

(** The loop that prints the summary. *)
Fixpoint say_artifacts (packer : Packer.t) (artifacts : list Artifact.t) : Cmd unit :=
  match artifacts with
  | [] => ret tt
  | artifact :: rest =>
      Say ("    " ++ Artifact.BuilderId artifact ++ ": " ++ Artifact_String packer artifact) ;;
      say_artifacts packer rest
  end.

Definition runStatefulBuild (packer : Packer.t) (engine : Engine) (cfg : BuildArgs.t) : Cmd Z :=
  (* Initialize Packer core config *)
  code ← ask (Packer.GetConfig packer cfg);
  if negb (code =? 0)%Z then ret code else
  (* Detect and initialize plugins *)
  writeDiagsRet ← ask (Packer.DetectPluginBinaries packer cfg);
  if negb (writeDiagsRet =? 0)%Z then ret writeDiagsRet else
  writeDiagsRet ← ask (Packer.Initialize packer cfg);
  if negb (writeDiagsRet =? 0)%Z then ret writeDiagsRet else
  (* Get builds *)
  '(builds, code) ← (fun s =>
                       let '(said, w, builds, code) := Packer.GetBuilds packer cfg (world s) in
                       (Return (builds, code), mkSession (manager s) w (ui s ++ said)%list));
  if (length builds =? 0)%nat && negb (code =? 0)%Z then ret code else
  if (length builds =? 0)%nat then
    Error "No builds found in template" ;;
    ret 1%Z
  else
    Say ("Found " ++ Strconv.Itoa (Z.of_nat (length builds)) ++ " build(s) to run") ;;
    (* Wrap each build with our stateful wrapper *)
    r ← run_builds engine builds [];
    match r with
    | None => ret 1%Z
    | Some artifacts =>
        (* Print summary *)
        Say (String "010" "==> Builds finished. The artifacts were:") ;;
        say_artifacts packer artifacts ;;
        ret 0%Z
    end.

(** The loop of Run over the builds of the document, in the order
    [range] yields them; [build.IsComplete()] on a nil build panics. *)
Fixpoint report_builds (entries : list (string * option Build.t)) (allComplete : bool)
  : Cmd bool :=
  match entries with
  | [] => ret allComplete
  | (buildName, build) :: rest =>
      match build with
      | None => fun s => (Panic nil_dereference, s)
      | Some b =>
          if negb (Build.IsComplete b) then
            Say ("Build '" ++ buildName ++ "' incomplete, will resume") ;;
            report_builds rest false
          else
            Say ("Build '" ++ buildName ++ "' already complete") ;;
            report_builds rest allComplete
      end
  end.

(** The check mark of the messages of Run, byte for byte. *)
Definition check_mark : string := String "226" (String "156" (String "147" "")).

(** Run, from "Compute template hash for change detection" on: what is
    done between the loading of the state and the deferred Close. *)
Definition Run_loaded (packer : Packer.t) (engine : Engine)
           (order : list (string * option Build.t)) (cfg : BuildArgs.t) (st : State.t)
  : Cmd Z :=
  fun s =>
    (* Compute template hash for change detection *)
    match ComputeFileHash (BuildArgs.Path cfg) (world s) with
    | inr err => (Error ("Failed to hash template: " ++ Error_text err) ;; ret 1%Z) s
    | inl templateHash =>
        (* Check if inputs have changed *)
        let variables := BuildArgs.Vars cfg in
        let inputsChanged :=
          Manager.InputsChanged (manager s) templateHash variables GoMap.make in
        (done ←
           (if negb inputsChanged then
              Say (check_mark ++ " Template inputs unchanged") ;;
              (* Check if all builds are complete *)
              allComplete ← report_builds order true;
              if allComplete && (0 <? GoMap.len (State.Builds st))%nat then
                Say (String "010" check_mark
                       ++ " All builds complete and inputs unchanged. Nothing to do!") ;;
                Say "Use -force to rebuild anyway." ;;
                ret true
              else ret false
            else
              Say "Template inputs changed, will rebuild" ;;
              ret false);
         if (done : bool) then ret 0%Z
         else
           (* Update state with current inputs *)
           (fun s =>
              (Return tt,
               mkSession (Manager.UpdateTemplateInputs (manager s) (BuildArgs.Path cfg)
                            templateHash variables GoMap.make)
                         (world s) (ui s))) ;;
           (* Run the build with our stateful wrapper *)
           runStatefulBuild packer engine cfg) s
    end.

(** Run.  [statePath] is the field of the command; the result gives the
    outcome, the field as Run leaves it, what was sent to the user
    interface and to the log, and the world.  [order] is the order in
    which [range] yields the builds of the document.  The handling of
    interrupts ([HandleTermInterrupt], [cleanup]) is not modelled. *)
Definition Run (packer : Packer.t) (engine : Engine)
           (order : list (string * option Build.t))
           (statePath : string) (args : list string) (w : World)
  : outcome Z * string * list UiEvent * World :=
  (* Parse build args using Packer's parser *)
  let '(said, w, cfg, code) := Packer.ParseArgs packer args w in
  if negb (code =? 0)%Z then (Return code, statePath, said, w) else
  (* Determine state file location *)
  let statePath :=
    if String.eqb statePath "" then DefaultStatePath (filepath_Dir (BuildArgs.Path cfg))
    else statePath in
  let said := (said ++ [UiSay ("Builder: Using state file: " ++ statePath)])%list in
  (* Load and lock state *)
  let stateManager := NewManager statePath in
  match Manager.Load stateManager w with
  | (inr err, _, w) =>
      (Return 1%Z, statePath,
       (said ++ [UiError ("Failed to load state: " ++ Error_text err)])%list, w)
  | (inl st, stateManager, w) =>
      let '(r, s) := Run_loaded packer engine order cfg st (mkSession stateManager w said) in
      (* the deferred function: it runs also when Run panics *)
      let '(err, _, w) := Manager.Close (manager s) (world s) in
      (r, statePath,
       match err with
       | Some err => (ui s ++ [LogPrintf ("[WARN] Failed to close state: " ++ Error_text err)])%list
       | None => ui s
       end, w)
  end.

End BuildCommand.

(** ** internal/buildercommand: state.go, [state show] *)

(** StateShowCommand shows the current state.  Run yields the outcome
    and what it sent to the user interface; it changes nothing.  This is
    the Run that is implemented; state.go also holds an earlier one that
    only says [State show not yet implemented].  A [time.Time] being
    kept as text, its methods [IsZero] and [Format] are taken as they
    come: [time_IsZero] and [time_Format] (with the layout first). *)
Module StateShowCommand.

Section Show.

Variable time_IsZero : Time -> bool.
Variable time_Format : string -> Time -> string.

(** The body of the loop over the builds, for a build that is not nil,
    after its name has been said. *)
Definition show_build (build : Build.t) : list UiEvent :=
  ([UiSay ("    Type: " ++ Build.Type_ build);
    UiSay ("    Status: " ++ Build.Status build)]
   ++ match Build.Instance build with
      | Some instance =>
          [UiSay "    Instance:"; UiSay ("      ID: " ++ Instance.ID instance)]
          ++ (if negb (String.eqb (Instance.PublicIP instance) "")
              then [UiSay ("      IP: " ++ Instance.PublicIP instance)] else [])
          ++ (if negb (String.eqb (Instance.Provider instance) "")
              then [UiSay ("      Provider: " ++ Instance.Provider instance)] else [])
      | None => []
      end
   ++ (let provisioners := elems (Build.Provisioners build) in
       if (0 <? length provisioners)%nat then
         let completedCount :=
           length (filter (fun p => String.eqb (ProvisionerState.Status p) StatusComplete = true)
                          provisioners) in
         [UiSay ("    Provisioners: " ++ Strconv.Itoa (Z.of_nat completedCount) ++ "/"
                   ++ Strconv.Itoa (Z.of_nat (length provisioners)) ++ " complete")]
       else [])
   ++ (if (0 <? length (Build.Artifacts build))%nat then
         UiSay "    Artifacts:"
         :: map (fun art => UiSay ("      - " ++ ArtifactState.ID art
                                     ++ " (" ++ ArtifactState.BuilderID art ++ ")"))
                (Build.Artifacts build)
       else [])
   ++ (if negb (time_IsZero (Build.CompletedAt build)) then
         [UiSay ("    Completed: "
                   ++ time_Format "2006-01-02 15:04:05" (Build.CompletedAt build))]
       else []))%list.

(** The loop over the builds, in the order [range] yields them: the
    name of a build is said, and then [build.Type] makes a nil build
    panic. *)
Fixpoint show_builds (entries : list (string * option Build.t)) : outcome Z * list UiEvent :=
  match entries with
  | [] => (Return 0%Z, [])
  | (name, build) :: rest =>
      let named := UiSay (String "010" "  " ++ name ++ ":") in
      match build with
      | None => (Panic BuildCommand.nil_dereference, [named])
      | Some b =>
          let '(r, said) := show_builds rest in
          (r, (named :: show_build b ++ said)%list)
      end
  end.

Definition Run (order : list (string * option Build.t)) (args : list string) (w : World)
  : outcome Z * list UiEvent :=
  match flag_Parse "" args with
  | None => (Return 1%Z, [])
  | Some (statePath, _) =>
      (* Default state path *)
      let statePath := if String.eqb statePath "" then DefaultStatePath "." else statePath in
      (* Load state *)
      match Load statePath w with
      | inr err => (Return 1%Z, [UiError ("Error loading state: " ++ Error_text err)])
      | inl None => (Return 0%Z, [UiSay "No state file found."])
      | inl (Some st) =>
          (* Pretty print the state *)
          let head :=
            [UiSay ("State file: " ++ statePath);
             UiSay ("Version: " ++ Strconv.Itoa (State.Version st)
                      ++ " (serial: " ++ Strconv.Itoa (State.Serial st) ++ ")");
             UiSay ("Template: " ++ TemplateState.Path (State.Template st));
             UiSay ("Template Hash: " ++ TemplateState.Hash (State.Template st));
             UiSay ""] in
          if (GoMap.len (State.Builds st) =? 0)%nat then
            (Return 0%Z, (head ++ [UiSay "No builds in state."])%list)
          else
            let '(r, said) := show_builds order in
            (r, (head ++ UiSay ("Builds (" ++ Strconv.Itoa (Z.of_nat (GoMap.len (State.Builds st)))
                                  ++ "):") :: said)%list)
      end
  end.

End Show.

End StateShowCommand.

(** * The vocabulary of the properties *)

(** A step is waiting when its status is pending or failed. *)
Definition waiting (p : ProvisionerState.t) : Prop :=
  ProvisionerState.Status p = StatusPending \/ ProvisionerState.Status p = StatusFailed.

(** Between two saves the holder of a session changes the document (its
    builds, its template inputs) but not the serial. *)
Definition same_serial (m1 m2 : Manager.t) : Prop :=
  State.Serial <$> Manager.state m1 = State.Serial <$> Manager.state m2.

(** [saves n k m m']: from the manager [m], a session leads to [m'] in
    which the document was saved [n] times with success and [k] times
    without (on whatever file system, in whatever worlds), and was
    changed by its holder, between the saves, in ways that leave the
    serial alone. *)
Inductive saves : nat -> nat -> Manager.t -> Manager.t -> Prop :=
| saves_none (m : Manager.t) : saves 0 0 m m
| saves_changed (n k : nat) (m m1 m2 : Manager.t) :
    saves n k m m1 ->
    same_serial m1 m2 ->
    saves n k m m2
| saves_saved (n k : nat) (m m1 m2 : Manager.t) (fs : FS.t) (w w' : World) :
    saves n k m m1 ->
    Manager.Save_on fs m1 w = (None, m2, w') ->
    saves (S n) k m m2
| saves_failed (n k : nat) (m m1 m2 : Manager.t) (fs : FS.t) (w w' : World) (err : error) :
    saves n k m m1 ->
    Manager.Save_on fs m1 w = (Some err, m2, w') ->
    saves n (S k) m m2.

(** The number of calls that [faults] makes fail, if it comes to them. *)
Fixpoint count_true (bs : list bool) : nat :=
  match bs with
  | [] => 0
  | b :: bs' => (if b then 1 else 0) + count_true bs'
  end.

Definition failures (w : World) : nat := count_true (faults w).

(** The world with the outcomes [fs] for its next fallible calls. *)
Definition with_faults (fs : list bool) (w : World) : World :=
  mkWorld (files w) fs (hostname w) (env_USER w) (clock w) (uuids w) (uuid_next w).

(** The identifiers handed out in the examples. *)
Definition example_uuid (n : nat) : string :=
  match n with
  | 0 => "00000000-0000-4000-8000-000000000000"
  | 1 => "00000000-0000-4000-8000-000000000001"
  | 2 => "00000000-0000-4000-8000-000000000002"
  | 3 => "00000000-0000-4000-8000-000000000003"
  | _ => "00000000-0000-4000-8000-00000000ffff"
  end.

(** A world to run examples in: no file, no fault. *)
Definition quiet_world : World :=
  mkWorld ∅ [] "host" "user" "2025-11-17T10:00:00Z" example_uuid 0.

(** A manager whose recorded template has the hash [sha256:h] and one
    variable, [region], set to the empty string. *)
Definition manager_with_empty_region : Manager.t :=
  Manager.mk "/t/state.json" (NewLockManager "/t/state.json")
    (Some (State.mk 1 1 "lineage" "" ""
             (TemplateState.mk "/t/x.pkr.hcl" "sha256:h" (Some {["region" := ""]}) (Some ∅))
             (Some ∅) None "/t/state.json")).

(** A document whose template has the hash [sha256:h] and the variables
    [a = 1] and [b = 2]. *)
Definition document_two_variables : State.t :=
  State.mk 1 1 "lineage" "" ""
    (TemplateState.mk "/t/x.pkr.hcl" "sha256:h"
       (Some (<["a" := "1"]> {["b" := "2"]})) (Some ∅))
    (Some ∅) None "".

(** The record of a build in the document of a session. *)
Definition build_record (s : Session) (name : string) : option Build.t :=
  match Manager.state (manager s) with
  | Some st => State.GetBuild st name
  | None => None
  end.

(** A session on a document that records one variable, [v = 1], and a
    complete build [b] with one artifact. *)
Definition session_with_complete_build : Session :=
  mkSession
    (Manager.mk "/t/state.json" (NewLockManager "/t/state.json")
       (Some (State.mk 1 6 "lineage" "" ""
                (TemplateState.mk "/t/x.pkr.hcl" "sha256:h" (Some {["v" := "1"]}) (Some ∅))
                (Some {["b" := Some (Build.mk "b" "null" BuildStatusComplete None (Some [])
                                              [] [ArtifactState.mk "art-1" "null" "" ["out.img"] ∅ ""]
                                              "" "2025-11-17T09:00:00Z" "2025-11-17T09:05:00Z")]})
                None "/t/state.json")))
    quiet_world [].

(** An engine that would make a new artifact. *)
Definition engine_makes_new : Engine :=
  fun _ w => (inl [Artifact.Built "art-2" "null" ["new.img"]], w).

(** ** The vocabulary of the round trip *)

Module JsonText.
Import Json.

(** The tokens of a value. *)
Fixpoint toks (v : value) : list token :=
  match v with
  | Null => [TNull]
  | Bool true => [TTrue]
  | Bool false => [TFalse]
  | Number lit => [TNumber lit]
  | Str s => [TString s]
  | Array [] => [TLBracket; TRBracket]
  | Array (v0 :: vs) =>
      TLBracket :: toks v0
        ++ (fix rest (l : list value) : list token :=
              match l with
              | [] => []
              | x :: l' => TComma :: toks x ++ rest l'
              end) vs
        ++ [TRBracket]
  | Object [] => [TLBrace; TRBrace]
  | Object ((k0, v0) :: ms) =>
      TLBrace :: TString k0 :: TColon :: toks v0
        ++ (fix rest (l : list (string * value)) : list token :=
              match l with
              | [] => []
              | (k, x) :: l' => TComma :: TString k :: TColon :: toks x ++ rest l'
              end) ms
        ++ [TRBrace]
  end%list.

Fixpoint toks_elements (l : list value) : list token :=
  match l with
  | [] => []
  | x :: l' => TComma :: toks x ++ toks_elements l'
  end%list.

Fixpoint toks_members (l : list (string * value)) : list token :=
  match l with
  | [] => []
  | (k, x) :: l' => TComma :: TString k :: TColon :: toks x ++ toks_members l'
  end%list.

(** What [print] writes after the first element of an array and after
    the first member of an object. *)
Fixpoint print_elements (n : nat) (l : list value) : string :=
  match l with
  | [] => ""
  | x :: l' => "," ++ newline (S n) ++ print (S n) x ++ print_elements n l'
  end.

Fixpoint print_members (n : nat) (l : list (string * value)) : string :=
  match l with
  | [] => ""
  | (k, x) :: l' =>
      "," ++ newline (S n) ++ quote k ++ ": " ++ print (S n) x ++ print_members n l'
  end.

(** The size of a value. *)
Fixpoint size (v : value) : nat :=
  match v with
  | Array vs => S (fold_right (fun x n => size x + n) 0 vs)
  | Object ms => S (fold_right (fun kx n => size (snd kx) + n) 0 ms)
  | _ => 1
  end.

(** The numbers of a value are decimal integers within the range of
    [int], as the encoder writes them. *)
Fixpoint integers (v : value) : Prop :=
  match v with
  | Number lit => exists x, Int.in_range x = true /\ lit = Strconv.Itoa x
  | Array vs => fold_right (fun x p => integers x /\ p) True vs
  | Object ms => fold_right (fun kx p => integers (snd kx) /\ p) True ms
  | _ => True
  end.

(** What may follow a value in a text: nothing, or a byte that belongs
    neither to a number nor to a word. *)
Definition delimited (tail : string) : Prop :=
  match tail with
  | EmptyString => True
  | String c _ => is_number_char c = false /\ is_lower c = false
  end.

(** Every byte of a string is an ASCII byte. *)
Definition ascii_only (s : string) : bool :=
  (fix all (s : string) : bool :=
     match s with
     | EmptyString => true
     | String c s' => (byte_of c <? 128)%Z && all s'
     end) s.

(** Every string of a value, the names of its members included, is
    ASCII.  Such a string is written by the encoder byte for byte, but
    for its escapes; of the bytes of another string, those that are not
    UTF-8 would be written as U+FFFD. *)
Fixpoint ascii (v : value) : bool :=
  match v with
  | Str s => ascii_only s
  | Array vs => forallb ascii vs
  | Object ms => forallb (fun kx => ascii_only (fst kx) && ascii (snd kx)) ms
  | _ => true
  end.

End JsonText.

(** The documents that are written and read back as they are: their
    integers are within the range of [int], and their instances and
    artifacts carry no metadata (a value held in an [interface{}] is
    not kept as it is by the decoder).  Being as it was takes a time for
    the RFC 3339 text the encoder writes for it, as the model does: of
    a [time.Time] that is what is written and read back, not its
    reading of the monotonic clock nor the identity of its location. *)
Definition storable_instance (i : Instance.t) : Prop :=
  Int.in_range (Instance.SSHPort i) = true
  /\ Int.in_range (Instance.WinRMPort i) = true
  /\ Instance.Metadata i = ∅.

Definition storable_artifact (a : ArtifactState.t) : Prop :=
  ArtifactState.Metadata a = ∅.

Definition storable_build (b : Build.t) : Prop :=
  (forall i, Build.Instance b = Some i -> storable_instance i)
  /\ Forall storable_artifact (Build.Artifacts b).

Definition storable (s : State.t) : Prop :=
  Int.in_range (State.Version s) = true
  /\ Int.in_range (State.Serial s) = true
  /\ forall name b, GoMap.table (State.Builds s) !! name = Some (Some b) -> storable_build b.

(** The texts the encoder writes for a [time.Time] (the layout
    RFC3339Nano): date and time of day, with the fields in their ranges;
    a fraction of the second, if there is one, of at most nine digits
    and without a zero at its end; and [Z] or an offset of hours and
    minutes that is not zero.  The decoder takes each of them, for the
    time that is written as that text. *)
Module Rfc3339.

Fixpoint number (s : string) (acc : Z) : option Z :=
  match s with
  | EmptyString => Some acc
  | String c s' =>
      if ((48 <=? byte_of c) && (byte_of c <=? 57))%Z
      then number s' (10 * acc + (byte_of c - 48))%Z
      else None
  end.

(** The number written by the [len] digits from position [from] on. *)
Definition digits_at (t : string) (from len : nat) : option Z :=
  let s := String.substring from len t in
  if (String.length s =? len)%nat then number s 0 else None.

Definition is_at (t : string) (i : nat) (c : ascii) : bool :=
  match String.get i t with
  | Some c' => Ascii.eqb c' c
  | None => false
  end.

Definition leap (y : Z) : bool :=
  ((y mod 4 =? 0) && (negb (y mod 100 =? 0) || (y mod 400 =? 0)))%Z.

Definition days_in (y m : Z) : Z :=
  (if m =? 2 then (if leap y then 29 else 28)
   else if (m =? 4) || (m =? 6) || (m =? 9) || (m =? 11) then 30 else 31)%Z.

Definition zone (z : string) : bool :=
  String.eqb z "Z"
  || match digits_at z 1 2, digits_at z 4 2 with
     | Some h, Some m =>
         (String.length z =? 6)%nat && (is_at z 0 "+" || is_at z 0 "-") && is_at z 3 ":"
         && (h <=? 23)%Z && (m <=? 59)%Z && negb ((h =? 0) && (m =? 0))%Z
     | _, _ => false
     end.

(** The digits a string begins with, last first, and what follows them. *)
Fixpoint leading_digits (s : string) (seen : list ascii) : list ascii * string :=
  match s with
  | String c s' =>
      if ((48 <=? byte_of c) && (byte_of c <=? 57))%Z then leading_digits s' (c :: seen)
      else (seen, s)
  | EmptyString => (seen, s)
  end.

(** What follows the seconds: a fraction, if any, and the zone. *)
Definition fraction_and_zone (rest : string) : bool :=
  match rest with
  | String "." after =>
      match leading_digits after [] with
      | (last :: before, z) =>
          (length before <? 9)%nat && negb (Ascii.eqb last "0") && zone z
      | ([], _) => false
      end
  | _ => zone rest
  end.

Definition text (t : Time) : bool :=
  match digits_at t 0 4, digits_at t 5 2, digits_at t 8 2,
        digits_at t 11 2, digits_at t 14 2, digits_at t 17 2 with
  | Some year, Some month, Some day, Some hour, Some minute, Some second =>
      is_at t 4 "-" && is_at t 7 "-" && is_at t 10 "T" && is_at t 13 ":" && is_at t 16 ":"
      && (1 <=? month)%Z && (month <=? 12)%Z && (1 <=? day)%Z && (day <=? days_in year month)%Z
      && (hour <=? 23)%Z && (minute <=? 59)%Z && (second <=? 59)%Z
      && fraction_and_zone (String.substring 19 (String.length t - 19) t)
  | _, _, _, _, _, _ => false
  end.

End Rfc3339.

(** The times of a build and of a document. *)
Definition times_of_build (b : Build.t) : list Time :=
  ([Build.StartedAt b; Build.CompletedAt b]
   ++ match Build.Instance b with
      | Some i => [Instance.CreatedAt i]
      | None => []
      end
   ++ flat_map (fun p => [ProvisionerState.StartedAt p; ProvisionerState.EndedAt p])
               (elems (Build.Provisioners b))
   ++ flat_map (fun p => [PostProcessorState.StartedAt p; PostProcessorState.EndedAt p])
               (Build.PostProcess b))%list.

Definition times_of (s : State.t) : list Time :=
  (match State.LastRun s with
   | Some r => [RunInfo.StartedAt r; RunInfo.CompletedAt r]
   | None => []
   end
   ++ flat_map (fun entry => match snd entry with
                             | Some b => times_of_build b
                             | None => []
                             end)
               (map_to_list (GoMap.table (State.Builds s))))%list.

(** The documents and the locks that are plain text: all their strings
    are ASCII (names of builds, variables and files, paths, hashes,
    statuses, errors), and their times are texts of times. *)
Definition plain (s : State.t) : Prop :=
  JsonText.ascii (State.to_json s) = true /\ forallb Rfc3339.text (times_of s) = true.

Definition plain_lock (l : Lock.t) : Prop :=
  JsonText.ascii (Lock.to_json l) = true /\ Rfc3339.text (Lock.Created l) = true.

(** The document with another version. *)
Definition with_version (version : Z) (s : State.t) : State.t :=
  State.mk version (State.Serial s) (State.Lineage s) (State.BuilderVersion s)
           (State.PackerVersion s) (State.Template s) (State.Builds s) (State.LastRun s)
           (State.filePath s).

(** What Lock answers when the lock file exists. *)
Definition refusal (data : string) : error :=
  match Lock.Unmarshal data with
  | inl l => ErrLockedBy (Lock.Who l) (Lock.ID l) (Lock.Operation l) (Lock.Created l)
  | inr e => ErrReadExistingLock e
  end.

(** A lower-case hexadecimal digit. *)
Definition is_hex_digit (c : ascii) : bool :=
  ((48 <=? byte_of c) && (byte_of c <=? 57) || (97 <=? byte_of c) && (byte_of c <=? 102))%Z.

(** Every byte of a string passes a test. *)
Fixpoint all_chars (f : ascii -> bool) (s : string) : bool :=
  match s with
  | EmptyString => true
  | String c s' => f c && all_chars f s'
  end.

(** The record of build [name] in the session is [b]. *)
Definition recorded (s : Session) (name : string) (b : Build.t) : Prop :=
  build_record s name = Some b.

(** What a record says once a build has been run. *)
Definition settled (sb : StatefulBuild.t) (b : Build.t) (s1 : Session)
           (r : list Artifact.t + error) : Prop :=
  exists b1,
    recorded s1 (StatefulBuild.buildName sb) b1
    /\ Build.Instance b1 = Build.Instance b
    /\ match r with
       | inl artifacts =>
           Build.Status b1 = BuildStatusComplete
           /\ Build.Artifacts b1 = StatefulBuild.artifactsToState sb artifacts
       | inr err =>
           Build.Status b1 = BuildStatusCreating
           \/ (Build.Status b1 = BuildStatusFailed /\ Build.Error b1 = Error_text err)
       end.

Definition resume_refused : UiEvent :=
  UiError "Failed to resume: resume not yet implemented - builder must complete atomically".

(** Two lists of artifacts that report the same. *)
Definition same_report (xs ys : list Artifact.t) : Prop :=
  map Artifact.Id xs = map Artifact.Id ys
  /\ map Artifact.BuilderId xs = map Artifact.BuilderId ys
  /\ map Artifact.Files xs = map Artifact.Files ys.

(** A session on a document that records a failed build [b] with an
    instance. *)
Definition session_with_instance : Session :=
  mkSession
    (Manager.mk "/t/state.json" (NewLockManager "/t/state.json")
       (Some (State.mk 1 3 "lineage" "" ""
                (TemplateState.mk "/t/x.pkr.hcl" "sha256:h" (Some ∅) (Some ∅))
                (Some {["b" := Some (Build.mk "b" "null" BuildStatusFailed
                                       (Some (Instance.mk "i-1" "null" "aws" "" "" "" "" 0 "" "" 0 ∅
                                                          "2025-11-17T09:00:00Z" false))
                                       (Some []) [] [] "boom"
                                       "2025-11-17T09:00:00Z" zero_time)]})
                None "/t/state.json")))
    quiet_world [].

(** A flag in the sense of extractTemplatePath that takes no value of
    its own from the next argument. *)
Definition lone_flag (arg : string) : Prop :=
  strings_HasPrefix arg "-" = true /\ needsValue arg = false.

(** The state path [state rm] works on. *)
Definition state_path_of (statePath : string) : string :=
  if String.eqb statePath "" then DefaultStatePath "." else statePath.

(** A world whose state file holds a document with the complete build
    [b]. *)
Definition world_with_state_file : World :=
  with_files
    {["/t/state.json" := State.Encode
                           (default State.zero
                              (Manager.state (manager session_with_complete_build)))]}
    quiet_world.

(** The document of [session_with_complete_build]. *)
Definition document_with_complete_build : State.t :=
  default State.zero (Manager.state (manager session_with_complete_build)).

(** The state path the build command works on. *)
Definition build_state_path (statePath : string) (cfg : BuildArgs.t) : string :=
  if String.eqb statePath "" then DefaultStatePath (filepath_Dir (BuildArgs.Path cfg))
  else statePath.

(** Every entry is a build, and the build is complete. *)
Definition all_complete (entries : list (string * option Build.t)) : Prop :=
  Forall (fun e => exists b, snd e = Some b /\ Build.IsComplete b = true) entries.

(** Every build of the template is on record as complete. *)
Definition all_recorded_complete (st : State.t) (builds : list CoreBuild.t) : Prop :=
  Forall (fun cb => exists b, State.GetBuild st (CoreBuild.BuildName cb) = Some b
                              /\ Build.Status b = BuildStatusComplete) builds.

(** The document as a save leaves it. *)
Definition saved (path : string) (st : State.t) : State.t :=
  State.set_filePath path (State.set_Serial (Int.incr (State.Serial st)) st).

(** A Packer that reads the template [/t/x.pkr.hcl] with the variable
    [v = 2] and the flag [-force], finds one build, [b], and says
    nothing. *)
Definition packer_one_build : Packer.t :=
  let cfg := BuildArgs.mk "/t/x.pkr.hcl" (Some {["v" := "2"]}) [] [] false true "" false false in
  Packer.mk (fun _ w => ([], w, cfg, 0%Z))
            (fun _ w => ([], w, 0%Z)) (fun _ w => ([], w, 0%Z)) (fun _ w => ([], w, 0%Z))
            (fun _ w => ([], w, [CoreBuild.mk "b" "null" []], 0%Z))
            (fun id _ _ => id).

(** An engine that must not be run: it would wipe the file system. *)
Definition engine_wipes : Engine :=
  fun _ w => (inr (EngineError "must not run"), with_files ∅ w).

(** A world with the template [/t/x.pkr.hcl] and, at the default state
    path of that template, a document that records the inputs of
    [packer_one_build] and the complete build [b]. *)
Definition world_up_to_date : World :=
  with_files
    {["/t/x.pkr.hcl" := "source {}";
      "/t/.packer.d/builder-state.json" :=
        State.Encode
          (State.mk 1 6 "lineage" "" ""
             (TemplateState.mk "/t/x.pkr.hcl" (ComputeStringHash "source {}")
                               (Some {["v" := "2"]}) (Some ∅))
             (Some {["b" := Some (Build.mk "b" "null" BuildStatusComplete None (Some [])
                                    [] [ArtifactState.mk "art-1" "null" "" ["out.img"] ∅ ""]
                                    "" "2025-11-17T09:00:00Z" "2025-11-17T09:05:00Z")]})
             None "")]}
    quiet_world.

(** A world with the template [/t/x.pkr.hcl] and, at [/t/state.json],
    the document with the complete build [b], which records other
    inputs: another hash, and [v = 1]. *)
Definition world_with_changed_inputs : World :=
  with_files (<["/t/x.pkr.hcl" := "source {}"]> (files world_with_state_file)) quiet_world.

(** The document has a build that is nil, as [null] in the state file
    gives one. *)
Definition has_nil_build (st : State.t) : Prop :=
  exists name, GoMap.table (State.Builds st) !! name = Some None.

(** A world whose state file holds a build that is [null]. *)
Definition world_with_null_build : World :=
  with_files
    {["/t/state.json" :=
        with_quotes "{'version': 1, 'serial': 3, 'builds': {'web': null}}"]}
    quiet_world.

(** * The model at work *)

Example Decode_minimal :
  State.Decode
    (with_quotes "{'version': 1, 'serial': 1, 'lineage': 'test', 'template': {}, 'builds': {}}")
  = inl (State.mk 1 1 "test" "" "" TemplateState.zero (Some ∅) None "").
Proof. vm_compute. reflexivity. Qed.

Example sha256_empty :
  ComputeStringHash "" = "sha256:e3b0c44298fc1c149afbf4c8996fb92427ae41e4649b934ca495991b7852b855".
Proof. vm_compute. reflexivity. Qed.

Example sha256_abc :
  ComputeStringHash "abc" = "sha256:ba7816bf8f01cfea414140de5dae2223b00361a396177a9cb410ff61f20015ad".
Proof. vm_compute. reflexivity. Qed.

Example sha256_two_blocks :
  ComputeStringHash "abcdbcdecdefdefgefghfghighijhijkijkljklmklmnlmnomnopnopq"
  = "sha256:248d6a61d20638b8e5c026930c3e6039a33ce45964ff2167f6ecedd419db06c1".
Proof. vm_compute. reflexivity. Qed.

Example Itoa_examples :
  Strconv.Itoa 0 = "0" /\ Strconv.Itoa 1907 = "1907" /\ Strconv.Itoa (-42) = "-42"
  /\ Strconv.Itoa Int.MinInt = "-9223372036854775808".
Proof. vm_compute. auto. Qed.

Example ParseInt_examples :
  Strconv.ParseInt "9223372036854775807" = Some Int.MaxInt
  /\ Strconv.ParseInt "9223372036854775808" = None
  /\ Strconv.ParseInt "-17" = Some (-17)%Z
  /\ Strconv.ParseInt "1.5" = None
  /\ Strconv.ParseInt "-" = None.
Proof. vm_compute. auto. Qed.

Example json_tokens_example :
  Json.tokens (with_quotes "{'a': [1, -2.5e3, true], 'b\né': null}")
  = [Json.TLBrace; Json.TString "a"; Json.TColon; Json.TLBracket; Json.TNumber "1";
     Json.TComma; Json.TNumber "-2.5e3"; Json.TComma; Json.TTrue; Json.TRBracket;
     Json.TComma; Json.TString (String "b" (String "010" (String "195" (String "169" ""))));
     Json.TColon; Json.TNull; Json.TRBrace].
Proof. vm_compute. reflexivity. Qed.

Example json_parse_example :
  Json.parse (with_quotes "{'a': [1, {'k': 'v'}], 'b': {}} ")
  = Some (Json.Object [("a", Json.Array [Json.Number "1"; Json.Object [("k", Json.Str "v")]]);
                       ("b", Json.Object [])]).
Proof. vm_compute. reflexivity. Qed.

Example json_parse_rejects :
  Json.parse "" = None /\ Json.parse "{invalid json" = None
  /\ Json.parse (with_quotes "{'version': 1, 'serial': 1, 'builds': {") = None
  /\ Json.parse (String "000" (String "000" "")) = None
  /\ Json.parse "[1,]" = None /\ Json.parse "01" = None /\ Json.parse "{} x" = None
  /\ Json.parse_first "{} x" = Some (Json.Object []).
Proof. vm_compute. repeat split. Qed.

Example json_print_example :
  Json.MarshalIndent
    (Json.Object [("id", Json.Str "a<b"); ("n", Json.Array [Json.Number "1"; Json.Null])])
  = with_quotes ("{
  'id': 'a" ++ String "\" "u003cb',
  'n': [
    1,
    null
  ]
}").
Proof. vm_compute. reflexivity. Qed.

Example filepath_Dir_examples :
  filepath_Dir "/tmp/x/state.json" = "/tmp/x" /\ filepath_Dir "state.json" = "."
  /\ filepath_Dir "/state.json" = "/".
Proof. vm_compute. auto. Qed.

Example Lock_Unmarshal_examples :
  Lock.Unmarshal (with_quotes "{'id': 'test'}") = inl (Lock.mk "test" "" "" zero_time "")
  /\ Lock.Unmarshal "" = inr JsonError
  /\ Lock.Unmarshal "{corrupted" = inr JsonError
  /\ Lock.Unmarshal (with_quotes "{'ID': 'x', 'id': 7}") = inr JsonError
  /\ Lock.Unmarshal (with_quotes "{'other': [1, 2], 'Id': 'u', 'path': null}")
     = inl (Lock.mk "u" "" "" zero_time "").
Proof. vm_compute. repeat split. Qed.

Example filepath_Clean_examples :
  map filepath_Clean ["abc//def//ghi"; "abc/./def"; "abc/def/../ghi"; "abc/def/../../.."; "/../abc";
                      "../../abc"; "/"; ""; "abc/"; "./.packer.d/builder-state.json"]
  = ["abc/def/ghi"; "abc/def"; "abc/ghi"; ".."; "/abc"; "../../abc"; "/"; "."; "abc";
     ".packer.d/builder-state.json"].
Proof. vm_compute. reflexivity. Qed.

Example DefaultStatePath_examples :
  DefaultStatePath "." = ".packer.d/builder-state.json"
  /\ DefaultStatePath "" = ".packer.d/builder-state.json"
  /\ DefaultStatePath "/srv/images" = "/srv/images/.packer.d/builder-state.json"
  /\ DefaultStatePath "templates/../x/" = "x/.packer.d/builder-state.json".
Proof. vm_compute. repeat split. Qed.

Example flag_Parse_examples :
  flag_Parse "" ["-state"; "s.json"; "web"] = Some ("s.json", ["web"])
  /\ flag_Parse "" ["--state=s.json"; "web"; "-x"] = Some ("s.json", ["web"; "-x"])
  /\ flag_Parse "" ["web"; "-state"; "s.json"] = Some ("", ["web"; "-state"; "s.json"])
  /\ flag_Parse "" ["-state"] = None
  /\ flag_Parse "" ["-force"; "web"] = None
  /\ flag_Parse "" ["--"; "-web"] = Some ("", ["-web"])
  /\ flag_Parse "" ["-"; "web"] = Some ("", ["-"; "web"])
  /\ flag_Parse "" ["-state="; "web"] = Some ("", ["web"])
  /\ flag_Parse "" ["---state"; "web"] = None
  /\ flag_Parse "" ["-=x"] = None.
Proof. vm_compute. repeat split. Qed.

Example extractTemplatePath_examples :
  extractTemplatePath ["-var"; "a=b"; "-force"; "t.pkr.hcl"; "more"] = "t.pkr.hcl"
  /\ extractTemplatePath ["-var=a"; "t.pkr.hcl"] = "t.pkr.hcl"
  /\ extractTemplatePath ["-only"; "t.pkr.hcl"] = ""
  /\ extractTemplatePath ["--var"; "a=b"; "t.pkr.hcl"] = "a=b"
  /\ extractTemplatePath [] = "".
Proof. vm_compute. repeat split. Qed.

Example extractMachineReadable_examples :
  extractMachineReadable ["build"; "-machine-readable"; "t"; "-machine-readable"]
  = (["build"; "t"; "-machine-readable"], true)
  /\ extractMachineReadable ["build"; "t"] = (["build"; "t"], false).
Proof. vm_compute. repeat split. Qed.

Example Rfc3339_text_examples :
  map Rfc3339.text
      ["0001-01-01T00:00:00Z"; "2025-11-17T10:00:00Z"; "2024-02-29T23:59:59.123456789+05:30";
       "2025-11-17T10:00:00.5-08:00";
       "2025-02-29T10:00:00Z"; "2025-11-17T10:00:00"; "2025-11-17 10:00:00Z";
       "2025-11-17T10:00:00.50Z"; "2025-11-17T10:00:00+00:00"; "2025-13-01T00:00:00Z";
       "2025-11-17T24:00:00Z"; "garbage"; ""]
  = [true; true; true; true; false; false; false; false; false; false; false; false; false].
Proof. vm_compute. reflexivity. Qed.

Example Decode_rejects :
  State.Decode "" = inr JsonError
  /\ State.Decode "{invalid json" = inr JsonError
  /\ State.Decode (with_quotes "{'version': 1, 'serial': 1, 'builds': {") = inr JsonError
  /\ State.Decode (String "000" (String "000" (String "000" (String "000" "")))) = inr JsonError
  /\ State.Decode (with_quotes "{'version': 'one'}") = inr JsonError
  /\ State.Decode "[]" = inr JsonError.
Proof. vm_compute. repeat split. Qed.

Example Save_then_Load :
  let '(s0, w0) := New "/t/state.json" quiet_world in
  let '(err, s1, w1) := State.Save s0 "/t/state.json" w0 in
  err = None /\ Load "/t/state.json" w1 = inl (Some s1) /\ State.Serial s1 = 2%Z
  /\ files w1 !! "/t/state.json.tmp" = None.
Proof. vm_compute. repeat split. Qed.

Example Encode_fresh_document :
  State.Encode (fst (New "/t/state.json" quiet_world))
  = (with_quotes "{
  'version': 1,
  'serial': 1,
  'lineage': '00000000-0000-4000-8000-000000000000',
  'builder_version': '',
  'packer_version': '',
  'template': {
    'path': '/t/state.json',
    'hash': '',
    'variables': {},
    'files': {}
  },
  'builds': {}
}
").
Proof. vm_compute. reflexivity. Qed.

Example Lock_then_Unlock :
  let lm0 := NewLockManager "/t/state.json" in
  let '(err1, lm1, w1) := LockManager.Lock lm0 "build" quiet_world in
  let '(err2, _, _) := LockManager.Lock (NewLockManager "/t/state.json") "rm" w1 in
  let '(err3, lm3, w3) := LockManager.Unlock lm1 w1 in
  err1 = None
  /\ err2 = Some (ErrLockedBy "user@host" "00000000-0000-4000-8000-000000000000" "build"
                              "2025-11-17T10:00:00Z")
  /\ err3 = None /\ LockManager.lock lm3 = None /\ files w3 = ∅.
Proof. vm_compute. repeat split. Qed.

(** A second session on a path whose lock is held is refused; so is one
    that finds a lock file it cannot read. *)
Example Manager_Load_refused :
  let '(_, m1, w1) := Manager.Load (NewManager "/t/state.json") quiet_world in
  let '(r2, m2, _) := Manager.Load (NewManager "/t/state.json") w1 in
  let '(r3, _, _) := Manager.Load (NewManager "/u/state.json")
                       (with_files {["/u/state.json.lock" := "{corrupted"]} quiet_world) in
  (exists e, r2 = inr (ErrLockState e) /\ AlreadyLocked e)
  /\ Manager.state m2 = None
  /\ (exists e, r3 = inr (ErrLockState e) /\ AlreadyLocked e).
Proof.
  vm_compute. repeat split.
  - eexists. split; [reflexivity |]. left. repeat eexists.
  - eexists. split; [reflexivity |]. right. right. right. eexists. reflexivity.
Qed.

(** * Properties *)

(** ** The next pending step *)

Lemma waiting_test (p : ProvisionerState.t) :
  String.eqb (ProvisionerState.Status p) StatusPending
  || String.eqb (ProvisionerState.Status p) StatusFailed = true <-> waiting p.
Proof.
  unfold waiting. rewrite orb_true_iff, !String.eqb_eq. reflexivity.
Qed.

Lemma not_waiting_test (p : ProvisionerState.t) :
  String.eqb (ProvisionerState.Status p) StatusPending
  || String.eqb (ProvisionerState.Status p) StatusFailed = false <-> ~ waiting p.
Proof.
  rewrite <- waiting_test. destruct (_ || _); split; congruence.
Qed.

(** The loop started at index [i] stops within the steps left. *)
Lemma next_pending_from_bounds (ps : list ProvisionerState.t) (i : nat) :
  i <= Build.next_pending_from i ps <= i + length ps.
Proof.
  revert i. induction ps as [|p ps IH]; intros i; simpl.
  - lia.
  - destruct (_ || _).
    + lia.
    + specialize (IH (S i)). lia.
Qed.

(** Every step the loop went past is not waiting. *)
Lemma next_pending_from_passed (ps : list ProvisionerState.t) (i j : nat) (p : ProvisionerState.t) :
  i + j < Build.next_pending_from i ps -> ps !! j = Some p -> ~ waiting p.
Proof.
  revert i j. induction ps as [|q ps IH]; intros i j Hlt Hj; simpl in *.
  - discriminate.
  - destruct (_ || _) eqn:E.
    + lia.
    + destruct j as [|j]; simpl in Hj.
      * injection Hj as <-. now apply not_waiting_test.
      * apply (IH (S i) j); [lia | exact Hj].
Qed.

(** The step the loop stops at, if it stops before the end, is waiting. *)
Lemma next_pending_from_found (ps : list ProvisionerState.t) (i : nat) :
  Build.next_pending_from i ps < i + length ps ->
  exists p, ps !! (Build.next_pending_from i ps - i) = Some p /\ waiting p.
Proof.
  revert i. induction ps as [|q ps IH]; intros i Hlt; simpl in *.
  - lia.
  - destruct (_ || _) eqn:E.
    + exists q. rewrite Nat.sub_diag. split; [reflexivity | now apply waiting_test].
    + destruct (IH (S i)) as (p & Hp & Hw); [lia |].
      exists p. split; [| exact Hw].
      pose proof (next_pending_from_bounds ps (S i)) as Hb.
      replace (Build.next_pending_from (S i) ps - i)
        with (S (Build.next_pending_from (S i) ps - S i)) by lia.
      exact Hp.
Qed.

(** C6.  For every sequence of step records, NextPendingProvisioner
    returns the smallest index whose status is pending or failed: the
    step at the index returned is pending or failed, no step before it
    is, and the index is the length of the sequence when no step is
    pending or failed (steps that are running, complete or skipped are
    passed over). *)
Theorem NextPendingProvisioner_smallest_waiting (b : Build.t) :
  let ps := elems (Build.Provisioners b) in
  exists i : nat,
    Build.NextPendingProvisioner b = Z.of_nat i
    /\ i <= length ps
    /\ (forall j p, j < i -> ps !! j = Some p -> ~ waiting p)
    /\ (i < length ps -> exists p, ps !! i = Some p /\ waiting p)
    /\ ((forall p, p ∈ ps -> ~ waiting p) -> i = length ps).
Proof.
  intros ps. exists (Build.next_pending_from 0 ps).
  pose proof (next_pending_from_bounds ps 0) as Hb.
  assert (Hfound : Build.next_pending_from 0 ps < length ps ->
                   exists p, ps !! Build.next_pending_from 0 ps = Some p /\ waiting p).
  { intros Hlt. destruct (next_pending_from_found ps 0) as (p & Hp & Hw); [lia |].
    rewrite Nat.sub_0_r in Hp. eauto. }
  repeat split.
  - lia.
  - intros j p Hj Hp. apply (next_pending_from_passed ps 0 j p); [lia | exact Hp].
  - exact Hfound.
  - intros Hnone.
    destruct (Nat.lt_ge_cases (Build.next_pending_from 0 ps) (length ps)) as [Hlt | Hge]; [| lia].
    destruct (Hfound Hlt) as (p & Hp & Hw).
    exfalso. apply (Hnone p); [| exact Hw].
    apply list_elem_of_lookup. eauto.
Qed.

(** Steps whose status is running, complete or skipped are not waiting. *)
Lemma passed_over (p : ProvisionerState.t) :
  ProvisionerState.Status p = StatusRunning
  \/ ProvisionerState.Status p = StatusComplete
  \/ ProvisionerState.Status p = StatusSkipped ->
  ~ waiting p.
Proof.
  unfold waiting. intros [H | [H | H]] [W | W]; rewrite H in W; discriminate.
Qed.

Example NextPendingProvisioner_example :
  let step st := ProvisionerState.mk "shell" "" st "" zero_time zero_time in
  let build ps := Build.mk "b" "null" BuildStatusFailed None ps [] [] "" zero_time zero_time in
  Build.NextPendingProvisioner
    (build (Some [step StatusComplete; step StatusRunning; step StatusFailed; step StatusPending]))
  = 2%Z
  /\ Build.NextPendingProvisioner
       (build (Some [step StatusComplete; step StatusSkipped; step StatusRunning])) = 3%Z
  /\ Build.NextPendingProvisioner (build None) = 0%Z.
Proof. vm_compute. auto. Qed.

(** ** Change detection *)

(** The loop of InputsChanged answers [true] exactly when some entry it
    meets differs from what the recorded map yields for its key. *)
Lemma differs_true (recorded : GoMap.t string) (given : list (string * string)) :
  Manager.differs recorded given = true
  <-> exists k v, (k, v) ∈ given /\ GoMap.index "" recorded k <> v.
Proof.
  induction given as [|[k v] rest IH]; simpl.
  - split; [discriminate | intros (k & v & H & _); inversion H].
  - destruct (String.eqb_spec (GoMap.index "" recorded k) v) as [E | E]; simpl.
    + rewrite IH. split.
      * intros (k' & v' & Hin & Hne). exists k', v'. split; [now right | exact Hne].
      * intros (k' & v' & Hin & Hne). inversion Hin; subst.
        -- contradiction.
        -- eauto.
    + split; [| reflexivity]. intros _. exists k, v. split; [left | exact E].
Qed.

(** So the order in which the loop meets the entries does not matter. *)
Lemma differs_perm (recorded : GoMap.t string) (l1 l2 : list (string * string)) :
  l1 ≡ₚ l2 -> Manager.differs recorded l1 = Manager.differs recorded l2.
Proof.
  intros Hp.
  destruct (Manager.differs recorded l1) eqn:E1, (Manager.differs recorded l2) eqn:E2;
    try reflexivity.
  - apply differs_true in E1 as (k & v & Hin & Hne).
    assert (Manager.differs recorded l2 = true) as E.
    { apply differs_true. exists k, v. split; [now rewrite <- Hp | exact Hne]. }
    congruence.
  - apply differs_true in E2 as (k & v & Hin & Hne).
    assert (Manager.differs recorded l1 = true) as E.
    { apply differs_true. exists k, v. split; [now rewrite Hp | exact Hne]. }
    congruence.
Qed.

(** Whatever orders the two loops of InputsChanged meet the entries in,
    the answer is the same. *)
Lemma InputsChanged_any_order (m : Manager.t) (templateHash : string)
      (variables files : GoMap.t string) (vorder forder : list (string * string)) :
  GoMap.range_order variables vorder ->
  GoMap.range_order files forder ->
  Manager.InputsChanged_in m templateHash variables files vorder forder
  = Manager.InputsChanged m templateHash variables files.
Proof.
  unfold GoMap.range_order, Manager.InputsChanged, Manager.InputsChanged_in.
  intros Hv Hf. destruct (Manager.state m) as [st|]; [| reflexivity].
  rewrite (differs_perm _ _ _ Hv), (differs_perm _ _ _ Hf). reflexivity.
Qed.

(** What InputsChanged decides: it answers [false] exactly when the hash
    is the recorded one, the two pairs of maps have the same number of
    entries, and every entry given has the value that indexing the
    recorded map yields for its key (the empty string for a key the
    recorded map does not hold). *)
Lemma InputsChanged_false (m : Manager.t) (templateHash : string)
      (variables files : GoMap.t string) :
  Manager.InputsChanged m templateHash variables files = false
  <-> exists st,
      Manager.state m = Some st
      /\ TemplateState.Hash (State.Template st) = templateHash
      /\ GoMap.len (TemplateState.Variables (State.Template st)) = GoMap.len variables
      /\ (forall k v, GoMap.table variables !! k = Some v ->
                      GoMap.index "" (TemplateState.Variables (State.Template st)) k = v)
      /\ GoMap.len (TemplateState.Files (State.Template st)) = GoMap.len files
      /\ (forall k v, GoMap.table files !! k = Some v ->
                      GoMap.index "" (TemplateState.Files (State.Template st)) k = v).
Proof.
  unfold Manager.InputsChanged, Manager.InputsChanged_in.
  assert (Hd : forall recorded (given : gmap string string),
             Manager.differs recorded (map_to_list given) = false
             <-> forall k v, given !! k = Some v -> GoMap.index "" recorded k = v).
  { intros recorded given. split.
    - intros Hf k v Hkv.
      destruct (String.eqb_spec (GoMap.index "" recorded k) v) as [E | E]; [exact E |].
      assert (Manager.differs recorded (map_to_list given) = true) as Ht; [| congruence].
      apply differs_true. exists k, v. split; [| exact E].
      now apply elem_of_map_to_list.
    - intros Hall. destruct (Manager.differs _ _) eqn:E; [| reflexivity].
      apply differs_true in E as (k & v & Hin & Hne).
      apply elem_of_map_to_list in Hin. now apply Hall in Hin. }
  destruct (Manager.state m) as [st|].
  - destruct (String.eqb_spec (TemplateState.Hash (State.Template st)) templateHash) as [Eh | Eh];
      simpl.
    2: { split; [discriminate | intros (st' & [= <-] & H & _); contradiction]. }
    destruct (Nat.eqb_spec (GoMap.len (TemplateState.Variables (State.Template st)))
                           (GoMap.len variables)) as [Ev | Ev]; simpl.
    2: { split; [discriminate | intros (st' & [= <-] & _ & H & _); contradiction]. }
    destruct (Manager.differs (TemplateState.Variables (State.Template st)) _) eqn:Edv.
    { split; [discriminate |]. intros (st' & [= <-] & _ & _ & H & _).
      apply Hd in H. congruence. }
    destruct (Nat.eqb_spec (GoMap.len (TemplateState.Files (State.Template st)))
                           (GoMap.len files)) as [Ef | Ef]; simpl.
    2: { split; [discriminate | intros (st' & [= <-] & _ & _ & _ & H & _); contradiction]. }
    destruct (Manager.differs (TemplateState.Files (State.Template st)) _) eqn:Edf.
    { split; [discriminate |]. intros (st' & [= <-] & _ & _ & _ & _ & H).
      apply Hd in H. congruence. }
    split; [| reflexivity]. intros _. exists st.
    repeat split; try assumption; now apply Hd.
  - split; [discriminate | intros (st & [=] & _)].
Qed.

(** When the inputs given are the recorded ones, as maps, the answer is
    [false]. *)
Lemma InputsChanged_same (m : Manager.t) (st : State.t) (variables files : GoMap.t string) :
  Manager.state m = Some st ->
  GoMap.table (TemplateState.Variables (State.Template st)) = GoMap.table variables ->
  GoMap.table (TemplateState.Files (State.Template st)) = GoMap.table files ->
  Manager.InputsChanged m (TemplateState.Hash (State.Template st)) variables files = false.
Proof.
  intros Hst Hv Hf. apply InputsChanged_false. exists st.
  unfold GoMap.len, GoMap.index. rewrite Hv, Hf.
  repeat split; try assumption; try reflexivity; intros k v Hkv; now rewrite Hkv.
Qed.

(** A map given none of whose values is the empty string is told apart
    from every other recorded map. *)
Lemma same_len_same_index (recorded given : GoMap.t string) :
  GoMap.len recorded = GoMap.len given ->
  (forall k v, GoMap.table given !! k = Some v -> GoMap.index "" recorded k = v) ->
  (forall k, GoMap.table given !! k <> Some "") ->
  GoMap.table recorded = GoMap.table given.
Proof.
  unfold GoMap.len, GoMap.index. intros Hlen Hall Hne. symmetry.
  apply map_subseteq_size_eq; [| lia].
  apply map_subseteq_spec. intros k v Hkv.
  specialize (Hall k v Hkv).
  destruct (GoMap.table recorded !! k) as [v'|] eqn:E; simpl in Hall.
  - now subst.
  - subst v. now apply Hne in Hkv.
Qed.

Lemma InputsChanged_detects_nonempty (m : Manager.t) (st : State.t) (templateHash : string)
      (variables files : GoMap.t string) :
  Manager.state m = Some st ->
  (forall k, GoMap.table variables !! k <> Some "") ->
  (forall k, GoMap.table files !! k <> Some "") ->
  Manager.InputsChanged m templateHash variables files = false ->
  TemplateState.Hash (State.Template st) = templateHash
  /\ GoMap.table (TemplateState.Variables (State.Template st)) = GoMap.table variables
  /\ GoMap.table (TemplateState.Files (State.Template st)) = GoMap.table files.
Proof.
  intros Hst Hv Hf Hc.
  apply InputsChanged_false in Hc as (st' & Hst' & Hh & Hlv & Hav & Hlf & Haf).
  rewrite Hst in Hst'. injection Hst' as <-.
  repeat split; [exact Hh | |]; now apply same_len_same_index.
Qed.

(** C5.  A change InputsChanged does not see.  The recorded variables
    are [region = ""]; the variables given are [zone = ""].  The maps
    differ (the key changed), yet the answer is [false]: indexing the
    recorded map with the missing key [zone] yields the empty string, which
    is the value given. *)
Theorem InputsChanged_misses_renamed_empty_variable :
  ({["region" := ""]} : gmap string string) <> {["zone" := ""]}
  /\ Manager.InputsChanged manager_with_empty_region "sha256:h"
       (Some {["zone" := ""]}) (Some ∅) = false.
Proof.
  split.
  - intros E. apply (f_equal (fun m : gmap string string => m !! "zone")) in E.
    vm_compute in E. discriminate.
  - vm_compute. reflexivity.
Qed.

(** The changes the repository's own test makes are seen. *)
Example InputsChanged_examples :
  let m := Manager.mk "/t/s" (NewLockManager "/t/s")
             (Some (State.mk 1 1 "l" "" ""
                      (TemplateState.mk "" "sha256:original" (Some {["foo" := "bar"]}) (Some ∅))
                      (Some ∅) None "")) in
  Manager.InputsChanged m "sha256:original" (Some {["foo" := "bar"]}) (Some ∅) = false
  /\ Manager.InputsChanged m "sha256:modified" (Some {["foo" := "bar"]}) (Some ∅) = true
  /\ Manager.InputsChanged m "sha256:original" (Some {["foo" := "changed"]}) (Some ∅) = true
  /\ Manager.InputsChanged m "sha256:original"
       (Some (<["new" := "var"]> {["foo" := "bar"]})) (Some ∅) = true
  /\ Manager.InputsChanged m "sha256:original" (Some {["foo" := "bar"]}) None = false.
Proof. vm_compute. repeat split. Qed.

(** C10.  For every Manager on which no state document has been loaded,
    InputsChanged returns true, whatever the template hash, the
    variables and the files passed to it (and whatever order its loops
    would take). *)
Theorem InputsChanged_without_state (m : Manager.t) (templateHash : string)
        (variables files : GoMap.t string) :
  Manager.state m = None ->
  Manager.InputsChanged m templateHash variables files = true
  /\ forall vorder forder,
      Manager.InputsChanged_in m templateHash variables files vorder forder = true.
Proof.
  intros Hnone. unfold Manager.InputsChanged, Manager.InputsChanged_in.
  rewrite Hnone. split; [reflexivity | intros; reflexivity].
Qed.

Lemma InputsChanged_without_state_witness :
  Manager.state (NewManager "/t/state.json") = None
  /\ Manager.InputsChanged (NewManager "/t/state.json") "sha256:h"
       (Some {["foo" := "bar"]}) None = true.
Proof.
  split; [reflexivity |].
  apply (InputsChanged_without_state (NewManager "/t/state.json")). reflexivity.
Defined.

(** ** The fingerprint *)

(** A call of ComputeFingerprint returns: the orders the table lists the
    entries in are among those the loops can take. *)
Lemma ComputeFingerprint_returns (s : State.t) :
  exists fp, State.ComputeFingerprint s fp.
Proof.
  eexists. apply (State.ComputeFingerprint_intro s
    (map_to_list (GoMap.table (TemplateState.Variables (State.Template s))))
    (map_to_list (GoMap.table (TemplateState.Files (State.Template s)))));
    unfold GoMap.range_order; reflexivity.
Qed.

(** What the loops write is all that matters: two calls whose loops meet
    the entries in the same orders return the same fingerprint, on
    documents with the same template hash. *)
Lemma ComputeFingerprint_in_same (s1 s2 : State.t) (variables files : list (string * string)) :
  TemplateState.Hash (State.Template s1) = TemplateState.Hash (State.Template s2) ->
  State.ComputeFingerprint_in s1 variables files
  = State.ComputeFingerprint_in s2 variables files.
Proof.
  unfold State.ComputeFingerprint_in. intros ->. reflexivity.
Qed.

(** A map with at most one entry is met in one order only, so the
    fingerprint of a document whose two maps are that small is
    determined. *)
Lemma range_order_short {V : Type} (m : GoMap.t V) (order : list (string * V)) :
  GoMap.len m <= 1 -> GoMap.range_order m order -> order = map_to_list (GoMap.table m).
Proof.
  unfold GoMap.len, GoMap.range_order. rewrite <- length_map_to_list.
  destruct (map_to_list (GoMap.table m)) as [|x [|y l]]; simpl; intros Hlen Hp.
  - now apply Permutation_nil_r.
  - now apply Permutation_singleton_r.
  - lia.
Qed.

Lemma ComputeFingerprint_determined_when_short (s : State.t) (fp1 fp2 : string) :
  GoMap.len (TemplateState.Variables (State.Template s)) <= 1 ->
  GoMap.len (TemplateState.Files (State.Template s)) <= 1 ->
  State.ComputeFingerprint s fp1 -> State.ComputeFingerprint s fp2 -> fp1 = fp2.
Proof.
  intros Hv Hf [v1 f1 Hv1 Hf1] [v2 f2 Hv2 Hf2].
  rewrite (range_order_short _ _ Hv Hv1), (range_order_short _ _ Hv Hv2),
          (range_order_short _ _ Hf Hf1), (range_order_short _ _ Hf Hf2).
  reflexivity.
Qed.

(** C1.  The fingerprint depends on the order in which the loop over the
    variables meets them.  ComputeFingerprint does not sort the keys: it
    writes the entries to the hash as [range] yields them.  On the
    document with the variables [a = 1] and [b = 2] a call returns the
    SHA-256 of [sha256:ha1b2] when the loop meets [a] first and that of
    [sha256:hb2a1] when it meets [b] first: one document, two
    fingerprints. *)
Theorem ComputeFingerprint_depends_on_iteration_order :
  State.ComputeFingerprint document_two_variables
    "sha256:3a346010ceb2a4a92e0de3edf5c54a31e4ccaa2d16dbbf72b584e830ee2cacdb"
  /\ State.ComputeFingerprint document_two_variables
       "sha256:17c41e66f72bce16ccbacafc1df3698078d362274b80334559e6db55157c50cd"
  /\ "sha256:3a346010ceb2a4a92e0de3edf5c54a31e4ccaa2d16dbbf72b584e830ee2cacdb"
     <> "sha256:17c41e66f72bce16ccbacafc1df3698078d362274b80334559e6db55157c50cd".
Proof.
  assert (Hlist : map_to_list
                    (GoMap.table (TemplateState.Variables (State.Template document_two_variables)))
                  = [("a", "1"); ("b", "2")]) by (vm_compute; reflexivity).
  assert (Hfiles : map_to_list
                     (GoMap.table (TemplateState.Files (State.Template document_two_variables)))
                   = []) by (vm_compute; reflexivity).
  assert (Eab : State.ComputeFingerprint_in document_two_variables [("a", "1"); ("b", "2")] []
                = "sha256:3a346010ceb2a4a92e0de3edf5c54a31e4ccaa2d16dbbf72b584e830ee2cacdb")
    by (vm_compute; reflexivity).
  assert (Eba : State.ComputeFingerprint_in document_two_variables [("b", "2"); ("a", "1")] []
                = "sha256:17c41e66f72bce16ccbacafc1df3698078d362274b80334559e6db55157c50cd")
    by (vm_compute; reflexivity).
  split; [| split].
  - rewrite <- Eab.
    apply State.ComputeFingerprint_intro; unfold GoMap.range_order.
    + rewrite Hlist. reflexivity.
    + rewrite Hfiles. reflexivity.
  - rewrite <- Eba.
    apply State.ComputeFingerprint_intro; unfold GoMap.range_order.
    + rewrite Hlist. apply Permutation_swap.
    + rewrite Hfiles. reflexivity.
  - discriminate.
Qed.

(** ** What the calls of the operating system do to the files *)

Lemma fault_files (w : World) : files (snd (fault w)) = files w.
Proof. unfold fault. destruct (faults w); reflexivity. Qed.

Lemma MkdirAll_files (dir : string) (w w' : World) (r : option error) :
  os.MkdirAll dir w = (r, w') -> files w' = files w.
Proof.
  unfold os.MkdirAll. pose proof (fault_files w) as Hf.
  destruct (fault w) as [[] w1]; simpl in Hf; intros [= <- <-]; exact Hf.
Qed.

Lemma Close_files (path : string) (w w' : World) (r : option error) :
  os.Close path w = (r, w') -> files w' = files w.
Proof.
  unfold os.Close. pose proof (fault_files w) as Hf.
  destruct (fault w) as [[] w1]; simpl in Hf; intros [= <- <-]; exact Hf.
Qed.

Lemma Create_files (path : string) (w w' : World) (r : option error) :
  os.Create path w = (r, w') ->
  files w' = match r with
             | None => <[path := ""]> (files w)
             | Some _ => files w
             end.
Proof.
  unfold os.Create. pose proof (fault_files w) as Hf.
  destruct (fault w) as [[] w1]; simpl in Hf; intros [= <- <-]; simpl; now rewrite Hf.
Qed.

Lemma Write_files (path data : string) (w w' : World) (r : option error) :
  os.Write path data w = (r, w') ->
  files w' = match r with
             | None => <[path := (default "" (files w !! path) ++ data)%string]> (files w)
             | Some _ => files w
             end.
Proof.
  unfold os.Write. pose proof (fault_files w) as Hf.
  destruct (fault w) as [[] w1]; simpl in Hf; intros [= <- <-]; simpl; now rewrite Hf.
Qed.

Lemma OpenFile_excl_files (path : string) (w w' : World) (r : option error) :
  os.OpenFile_excl path w = (r, w') ->
  match r with
  | None => files w !! path = None /\ files w' = <[path := ""]> (files w)
  | Some _ => files w' = files w
  end.
Proof.
  unfold os.OpenFile_excl. destruct (files w !! path) eqn:E.
  - intros [= <- <-]. reflexivity.
  - pose proof (fault_files w) as Hf.
    destruct (fault w) as [[] w1]; simpl in Hf; intros [= <- <-]; simpl; rewrite Hf; auto.
Qed.

Lemma Rename_files (old new : string) (w w' : World) (r : option error) :
  os.Rename old new w = (r, w') ->
  match r with
  | None => exists content,
      files w !! old = Some content /\ files w' = <[new := content]> (delete old (files w))
  | Some err => files w' = files w /\ (IsNotExist err = true -> files w !! old = None)
  end.
Proof.
  unfold os.Rename. destruct (files w !! old) as [content|] eqn:E.
  - pose proof (fault_files w) as Hf.
    destruct (fault w) as [[] w1]; simpl in Hf; intros [= <- <-]; simpl.
    + split; [exact Hf | discriminate].
    + exists content. rewrite Hf. auto.
  - intros [= <- <-]. auto.
Qed.

(** [Remove] leaves no file at the path, and the other files alone. *)
Lemma Remove_files (path : string) (w w' : World) (r : option error) :
  os.Remove path w = (r, w') -> files w' = delete path (files w).
Proof.
  unfold os.Remove. destruct (files w !! path) eqn:E; intros [= <- <-]; simpl.
  - reflexivity.
  - symmetry. now apply delete_id.
Qed.

Lemma Remove_result (path : string) (w w' : World) (r : option error) :
  os.Remove path w = (r, w') ->
  match r with
  | None => is_Some (files w !! path)
  | Some err => files w !! path = None /\ IsNotExist err = true
  end.
Proof.
  unfold os.Remove. destruct (files w !! path) eqn:E; intros [= <- <-]; simpl; eauto.
Qed.

(** ** Saving *)

Lemma append_length (s t : string) :
  String.length (s ++ t) = String.length s + String.length t.
Proof. induction s as [|c s IH]; simpl; [reflexivity | now rewrite IH]. Qed.

(** The temporary file is not the state file. *)
Lemma tmp_path_differs (path : string) : (path ++ ".tmp")%string <> path.
Proof.
  intros E. apply (f_equal String.length) in E. rewrite append_length in E.
  simpl in E. lia.
Qed.

(** Below the largest value an increment is the successor. *)
Lemma incr_below_max (x : Z) :
  (Int.MinInt <= x < Int.MaxInt)%Z -> Int.incr x = (x + 1)%Z.
Proof.
  unfold Int.incr, Int.wrap, Int.MinInt, Int.MaxInt, Int.size. intros H.
  rewrite Z.mod_small; lia.
Qed.

(** At the largest value it wraps around to the smallest. *)
Lemma incr_at_max : Int.incr Int.MaxInt = Int.MinInt.
Proof. reflexivity. Qed.

(** What Save does to the document, whether it succeeds or fails: the
    serial is incremented and the path recorded, before any call of the
    operating system. *)
Lemma Save_document (s s' : State.t) (path : string) (w w' : World) (r : option error) :
  State.Save s path w = (r, s', w') ->
  s' = State.set_filePath path (State.set_Serial (Int.incr (State.Serial s)) s).
Proof.
  unfold State.Save.
  destruct (os.MkdirAll _ w) as [[e1|] w1]; [now intros [= _ <- _] |].
  destruct (os.Create _ w1) as [[e2|] w2]; [now intros [= _ <- _] |].
  destruct (os.Write _ _ w2) as [[e3|] w3].
  { destruct (os.Close _ w3) as [r4 w4]. destruct (os.Remove _ w4) as [r5 w5].
    now intros [= _ <- _]. }
  destruct (os.Close _ w3) as [[e4|] w4].
  { destruct (os.Remove _ w4) as [r5 w5]. now intros [= _ <- _]. }
  destruct (os.Rename _ _ w4) as [[e5|] w5].
  { destruct (os.Remove _ w5) as [r6 w6]. now intros [= _ <- _]. }
  now intros [= _ <- _].
Qed.

(** What Save does to the files. *)
Lemma Save_files (s s' : State.t) (path : string) (w w' : World) (r : option error) :
  State.Save s path w = (r, s', w') ->
  let tmp := (path ++ ".tmp")%string in
  match r with
  | None => files w' = <[path := State.Encode s']> (delete tmp (files w))
  | Some err =>
      ((exists c, err = ErrCreateStateDir c \/ err = ErrCreateTemp c) /\ files w' = files w)
      \/ ((exists c, err = ErrEncodeState c \/ err = ErrCloseTemp c \/ err = ErrRenameState c)
          /\ files w' = delete tmp (files w))
  end.
Proof.
  intros HS tmp. pose proof (Save_document _ _ _ _ _ _ HS) as Hdoc.
  revert HS. unfold State.Save. fold tmp. rewrite <- Hdoc.
  destruct (os.MkdirAll _ w) as [r1 w1] eqn:E1. apply MkdirAll_files in E1.
  destruct r1 as [e1|].
  { intros [= <- <-]. left. split; [eauto | exact E1]. }
  destruct (os.Create tmp w1) as [r2 w2] eqn:E2. apply Create_files in E2.
  destruct r2 as [e2|].
  { intros [= <- <-]. left. split; [eauto | congruence]. }
  destruct (os.Write tmp _ w2) as [r3 w3] eqn:E3. apply Write_files in E3.
  destruct r3 as [e3|].
  { destruct (os.Close tmp w3) as [r4 w4] eqn:E4. apply Close_files in E4.
    destruct (os.Remove tmp w4) as [r5 w5] eqn:E5. apply Remove_files in E5.
    intros [= <- <-]. right. split; [eauto |].
    rewrite E5, E4, E3, E2, E1. apply delete_insert_eq. }
  destruct (os.Close tmp w3) as [r4 w4] eqn:E4. apply Close_files in E4.
  assert (Hw4 : files w4 = <[tmp := State.Encode s']> (files w)).
  { rewrite E4, E3, E2, E1. rewrite lookup_insert_eq. simpl. apply insert_insert_eq. }
  destruct r4 as [e4|].
  { destruct (os.Remove tmp w4) as [r5 w5] eqn:E5. apply Remove_files in E5.
    intros [= <- <-]. right. split; [eauto |].
    rewrite E5, Hw4. apply delete_insert_eq. }
  destruct (os.Rename tmp path w4) as [r5 w5] eqn:E5. apply Rename_files in E5.
  destruct r5 as [e5|].
  { destruct E5 as [E5 _].
    destruct (os.Remove tmp w5) as [r6 w6] eqn:E6. apply Remove_files in E6.
    intros [= <- <-]. right. split; [eauto 6 |].
    rewrite E6, E5, Hw4. apply delete_insert_eq. }
  destruct E5 as (content & Hc & E5).
  intros [= <- <-].
  rewrite Hw4, lookup_insert_eq in Hc. injection Hc as <-.
  rewrite E5, Hw4, delete_insert_eq. reflexivity.
Qed.

(** ** The calls on a file system whose reads and removals can fail *)

(** On the reliable file system the definitions are the ones above. *)
Lemma readLock_on_reliable (lm : LockManager.t) (w : World) :
  LockManager.readLock_on FS.reliable lm w = (LockManager.readLock lm w, w).
Proof.
  unfold LockManager.readLock_on, LockManager.readLock, os.ReadFile. cbn [FS.Open FS.reliable].
  destruct (os.Open _ w); [destruct (Lock.Unmarshal _) |]; reflexivity.
Qed.

Lemma Lock_on_reliable (lm : LockManager.t) (operation : string) (w : World) :
  LockManager.Lock_on FS.reliable lm operation w = LockManager.Lock lm operation w.
Proof.
  unfold LockManager.Lock_on, LockManager.Lock. rewrite readLock_on_reliable.
  destruct (os.Stat _ w); [| destruct (LockManager.readLock lm w); reflexivity].
  destruct (uuid_New w) as [id w0]. destruct (Lock.MarshalIndent _); [| reflexivity].
  destruct (os.MkdirAll _ w0) as [[?|] w2]; [reflexivity |].
  destruct (os.OpenFile_excl _ w2) as [[e3|] w3]; [| reflexivity].
  rewrite readLock_on_reliable.
  destruct (IsExist e3); [destruct (LockManager.readLock lm w3) |]; reflexivity.
Qed.

Lemma Unlock_on_reliable (lm : LockManager.t) (w : World) :
  LockManager.Unlock_on FS.reliable lm w = LockManager.Unlock lm w.
Proof.
  unfold LockManager.Unlock_on, LockManager.Unlock. rewrite readLock_on_reliable.
  destruct (LockManager.lock lm); [| reflexivity].
  destruct (LockManager.readLock lm w); reflexivity.
Qed.

Lemma Save_on_reliable (s : State.t) (path : string) (w : World) :
  State.Save_on FS.reliable s path w = State.Save s path w.
Proof. reflexivity. Qed.

Lemma Load_on_reliable (path : string) (w : World) :
  Load_on FS.reliable path w = (Load path w, w).
Proof.
  unfold Load_on, Load. cbn [FS.Open FS.reliable].
  destruct (os.Open path w) as [content | err].
  - destruct (State.Decode content); reflexivity.
  - destruct (IsNotExist err); reflexivity.
Qed.

Lemma Manager_Load_on_reliable (m : Manager.t) (w : World) :
  Manager.Load_on FS.reliable m w = Manager.Load m w.
Proof.
  unfold Manager.Load_on, Manager.Load. rewrite Lock_on_reliable.
  destruct (LockManager.Lock _ _ w) as [[[e|] lm] w1]; [reflexivity |].
  rewrite Load_on_reliable.
  destruct (Load _ w1) as [st | e]; [reflexivity |].
  rewrite Unlock_on_reliable. reflexivity.
Qed.

(** What a call does to the files and to the failures to come. *)
Lemma fault_failures (w : World) :
  files (snd (fault w)) = files w
  /\ failures w = (if fst (fault w) then S (failures (snd (fault w))) else failures (snd (fault w))).
Proof.
  unfold fault, failures. destruct (faults w) as [|[] bs] eqn:E; cbn; rewrite ?E; auto.
Qed.

Lemma MkdirAll_failures (dir : string) (w w' : World) (r : option error) :
  os.MkdirAll dir w = (r, w') ->
  failures w = match r with Some _ => S (failures w') | None => failures w' end.
Proof.
  unfold os.MkdirAll. destruct (fault_failures w) as [_ H].
  destruct (fault w) as [[] w1]; intros [= <- <-]; exact H.
Qed.

Lemma Create_failures (path : string) (w w' : World) (r : option error) :
  os.Create path w = (r, w') ->
  failures w = match r with Some _ => S (failures w') | None => failures w' end.
Proof.
  unfold os.Create. destruct (fault_failures w) as [_ H].
  destruct (fault w) as [[] w1]; intros [= <- <-]; exact H.
Qed.

Lemma Write_failures (path data : string) (w w' : World) (r : option error) :
  os.Write path data w = (r, w') ->
  failures w = match r with Some _ => S (failures w') | None => failures w' end.
Proof.
  unfold os.Write. destruct (fault_failures w) as [_ H].
  destruct (fault w) as [[] w1]; intros [= <- <-]; exact H.
Qed.

Lemma Close_failures (path : string) (w w' : World) (r : option error) :
  os.Close path w = (r, w') ->
  failures w = match r with Some _ => S (failures w') | None => failures w' end.
Proof.
  unfold os.Close. destruct (fault_failures w) as [_ H].
  destruct (fault w) as [[] w1]; intros [= <- <-]; exact H.
Qed.

Lemma OpenFile_excl_failures (path : string) (w w' : World) (r : option error) :
  os.OpenFile_excl path w = (r, w') -> failures w' <= failures w.
Proof.
  unfold os.OpenFile_excl. destruct (files w !! path); [intros [= _ <-]; lia |].
  destruct (fault_failures w) as [_ H].
  destruct (fault w) as [[] w1]; intros [= <- <-]; cbn in H |- *; unfold failures in *;
    cbn in *; lia.
Qed.

Lemma Rename_failures (old new : string) (w w' : World) (r : option error) :
  os.Rename old new w = (r, w') ->
  is_Some (files w !! old) ->
  failures w = match r with Some _ => S (failures w') | None => failures w' end.
Proof.
  unfold os.Rename. intros H [content Hc]. rewrite Hc in H. revert H.
  destruct (fault_failures w) as [_ H].
  destruct (fault w) as [[] w1]; intros [= <- <-]; exact H.
Qed.

(** The removal on the faulty file system: the file is gone, or the
    removal has failed and every file is as it was; it fails on a file
    that exists only by one of the [failures]. *)
Lemma faulty_Remove_spec (path : string) (w w' : World) (r : option error) :
  FS.faulty_Remove path w = (r, w') ->
  match r with
  | None => files w' = delete path (files w) /\ failures w' = failures w
  | Some err =>
      files w' = files w
      /\ (files w !! path = None \/ (IsNotExist err = false /\ failures w = S (failures w')))
  end.
Proof.
  unfold FS.faulty_Remove. destruct (files w !! path) eqn:E.
  - destruct (fault_failures w) as [Hf H].
    destruct (fault w) as [[] w1]; intros [= <- <-]; cbn in *.
    + split; [exact Hf | right; split; [reflexivity | exact H]].
    + rewrite Hf. split; [reflexivity | now symmetry].
  - intros [= <- <-]. auto.
Qed.

(** The opening on the faulty file system. *)
Lemma faulty_Open_spec (path : string) (w w' : World) (r : string + error) :
  FS.faulty_Open path w = (r, w') ->
  files w' = files w
  /\ match r with
     | inl content => files w !! path = Some content /\ failures w' = failures w
     | inr err =>
         (files w !! path = None /\ IsNotExist err = true /\ w' = w)
         \/ (is_Some (files w !! path) /\ IsNotExist err = false
             /\ failures w = S (failures w'))
     end.
Proof.
  unfold FS.faulty_Open. destruct (files w !! path) eqn:E.
  - destruct (fault_failures w) as [Hf H].
    destruct (fault w) as [[] w1]; intros [= <- <-]; cbn in *; (split; [exact Hf |]).
    + right. eauto.
    + auto.
  - intros [= <- <-]. auto.
Qed.

(** ** Saving on the faulty file system *)

(** Whatever the file system, Save counts before its first call. *)
Lemma Save_on_document (fs : FS.t) (s s' : State.t) (path : string) (w w' : World)
      (r : option error) :
  State.Save_on fs s path w = (r, s', w') ->
  s' = State.set_filePath path (State.set_Serial (Int.incr (State.Serial s)) s).
Proof.
  unfold State.Save_on.
  destruct (os.MkdirAll _ w) as [[e1|] w1]; [now intros [= _ <- _] |].
  destruct (os.Create _ w1) as [[e2|] w2]; [now intros [= _ <- _] |].
  destruct (os.Write _ _ w2) as [[e3|] w3].
  { destruct (os.Close _ w3) as [r4 w4]. destruct (FS.Remove fs _ w4) as [r5 w5].
    now intros [= _ <- _]. }
  destruct (os.Close _ w3) as [[e4|] w4].
  { destruct (FS.Remove fs _ w4) as [r5 w5]. now intros [= _ <- _]. }
  destruct (os.Rename _ _ w4) as [[e5|] w5].
  { destruct (FS.Remove fs _ w5) as [r6 w6]. now intros [= _ <- _]. }
  now intros [= _ <- _].
Qed.


(** What a save that fails does to the files, when the removal of the
    temporary file can fail too. *)
Lemma Save_on_faulty_failure (s s' : State.t) (path : string) (w w' : World) (err : error) :
  State.Save_on FS.faulty s path w = (Some err, s', w') ->
  let tmp := (path ++ ".tmp")%string in
  ((exists c, err = ErrCreateStateDir c \/ err = ErrCreateTemp c) /\ files w' = files w)
  \/ ((exists c, err = ErrEncodeState c \/ err = ErrCloseTemp c \/ err = ErrRenameState c)
      /\ (files w' = delete tmp (files w)
          \/ (2 <= failures w /\ exists content, files w' = <[tmp := content]> (files w)))).
Proof.
  intros HS tmp. revert HS. unfold State.Save_on. fold tmp. cbn [FS.Remove FS.faulty].
  set (doc := State.set_filePath _ _).
  destruct (os.MkdirAll _ w) as [r1 w1] eqn:E1.
  pose proof (MkdirAll_failures _ _ _ _ E1) as F1. apply MkdirAll_files in E1.
  destruct r1 as [e1|].
  { intros [= <- _ <-]. left. split; [eauto | exact E1]. }
  destruct (os.Create tmp w1) as [r2 w2] eqn:E2.
  pose proof (Create_failures _ _ _ _ E2) as F2. apply Create_files in E2.
  destruct r2 as [e2|].
  { intros [= <- _ <-]. left. split; [eauto | congruence]. }
  destruct (os.Write tmp _ w2) as [r3 w3] eqn:E3.
  pose proof (Write_failures _ _ _ _ _ E3) as F3. apply Write_files in E3.
  assert (Hclean : forall content, delete tmp (<[tmp := content]> (files w)) = delete tmp (files w))
    by (intros; apply delete_insert_eq).
  destruct r3 as [e3|].
  { destruct (os.Close tmp w3) as [r4 w4] eqn:E4.
    pose proof (Close_failures _ _ _ _ E4) as F4. apply Close_files in E4.
    destruct (FS.faulty_Remove tmp w4) as [r5 w5] eqn:E5. apply faulty_Remove_spec in E5.
    intros [= <- _ <-]. right. split; [eauto |].
    assert (Hw4 : files w4 = <[tmp := ""]> (files w)) by (rewrite E4, E3, E2, E1; reflexivity).
    destruct r5 as [e5|].
    - destruct E5 as [E5 [Habsent | [_ F5]]].
      + rewrite Hw4, lookup_insert_eq in Habsent. discriminate.
      + right. split; [destruct r4; lia |]. exists "". now rewrite E5.
    - destruct E5 as [E5 _]. left. now rewrite E5, Hw4. }
  destruct (os.Close tmp w3) as [r4 w4] eqn:E4.
  pose proof (Close_failures _ _ _ _ E4) as F4. apply Close_files in E4.
  assert (Hw4 : files w4 = <[tmp := State.Encode doc]> (files w)).
  { rewrite E4, E3, E2, E1. rewrite lookup_insert_eq. simpl. apply insert_insert_eq. }
  destruct r4 as [e4|].
  { destruct (FS.faulty_Remove tmp w4) as [r5 w5] eqn:E5. apply faulty_Remove_spec in E5.
    intros [= <- _ <-]. right. split; [eauto |].
    destruct r5 as [e5|].
    - destruct E5 as [E5 [Habsent | [_ F5]]].
      + rewrite Hw4, lookup_insert_eq in Habsent. discriminate.
      + right. split; [lia |]. eexists. rewrite E5. exact Hw4.
    - destruct E5 as [E5 _]. left. now rewrite E5, Hw4. }
  destruct (os.Rename tmp path w4) as [r5 w5] eqn:E5.
  assert (Hthere : is_Some (files w4 !! tmp)) by (rewrite Hw4, lookup_insert_eq; eauto).
  pose proof (Rename_failures _ _ _ _ _ E5 Hthere) as F5. apply Rename_files in E5.
  destruct r5 as [e5|]; [| discriminate].
  destruct E5 as [E5 _].
  destruct (FS.faulty_Remove tmp w5) as [r6 w6] eqn:E6. apply faulty_Remove_spec in E6.
  intros [= <- _ <-]. right. split; [eauto 6 |].
  destruct r6 as [e6|].
  - destruct E6 as [E6 [Habsent | [_ F6]]].
    + rewrite E5, Hw4, lookup_insert_eq in Habsent. discriminate.
    + right. split; [lia |]. eexists. rewrite E6, E5. exact Hw4.
  - destruct E6 as [E6 _]. left. now rewrite E6, E5, Hw4.
Qed.

(** C3, as the code has it.  For every state document and every save
    that fails (directory creation, temp-file creation, encoding, close
    or rename fails), on a file system where the removal of a file can
    fail too: the file at the state path is left as it was, and so is
    every file but the temporary one.  A failure to create the directory
    or the temporary file touches no file.  After a later failure Save
    calls os.Remove on the temporary file and throws the outcome away:
    the temporary file is gone, unless that removal has failed as well
    (a second call that fails), and then it is left behind.  The serial
    of the document in memory IS incremented: the increment comes
    before the first call of the operating system and is not undone. *)
Theorem Save_failure_keeps_file_but_counts (s s' : State.t) (path : string) (w w' : World)
        (err : error) :
  State.Save_on FS.faulty s path w = (Some err, s', w') ->
  let tmp := (path ++ ".tmp")%string in
  files w' !! path = files w !! path
  /\ (forall p, p <> tmp -> files w' !! p = files w !! p)
  /\ (((exists c, err = ErrCreateStateDir c \/ err = ErrCreateTemp c) /\ files w' = files w)
      \/ ((exists c, err = ErrEncodeState c \/ err = ErrCloseTemp c \/ err = ErrRenameState c)
          /\ (files w' !! tmp = None
              \/ (2 <= failures w /\ is_Some (files w' !! tmp)))))
  /\ State.Serial s' = Int.incr (State.Serial s).
Proof.
  intros HS tmp.
  pose proof (Save_on_document _ _ _ _ _ _ _ HS) as Hdoc.
  pose proof (Save_on_faulty_failure _ _ _ _ _ _ HS) as Hfiles. simpl in Hfiles.
  fold tmp in Hfiles.
  assert (Hne : tmp <> path) by apply tmp_path_differs.
  assert (Hothers : forall p, p <> tmp -> files w' !! p = files w !! p).
  { intros p Hp. destruct Hfiles as [[_ ->] | [_ [-> | [_ [content ->]]]]].
    - reflexivity.
    - now apply lookup_delete_ne.
    - now apply lookup_insert_ne. }
  split; [apply Hothers; congruence |]. split; [exact Hothers |]. split.
  - destruct Hfiles as [[He ->] | [He Hfiles]]; [left; auto | right].
    split; [exact He |].
    destruct Hfiles as [-> | [Hf [content ->]]].
    + left. apply lookup_delete_eq.
    + right. split; [exact Hf |]. rewrite lookup_insert_eq. eauto.
  - rewrite Hdoc. reflexivity.
Qed.

Lemma Save_failure_keeps_file_but_counts_witness :
  let s := fst (New "/t/state.json" quiet_world) in
  let r := State.Save_on FS.faulty s "/t/state.json"
             (with_faults [false; false; true; false; true] quiet_world) in
  fst (fst r) = Some (ErrEncodeState (PathError "write" "/t/state.json.tmp" EIO))
  /\ files (snd r) !! "/t/state.json.tmp" = Some ""
  /\ files (snd r) !! "/t/state.json" = None
  /\ State.Serial (snd (fst r)) = Int.incr (State.Serial s).
Proof.
  intros s r. split; [vm_compute; reflexivity |]. split; [vm_compute; reflexivity |].
  destruct (Save_failure_keeps_file_but_counts
              s (snd (fst r)) "/t/state.json"
              (with_faults [false; false; true; false; true] quiet_world) (snd r)
              (ErrEncodeState (PathError "write" "/t/state.json.tmp" EIO)))
    as (Hfile & _ & _ & Hserial).
  - vm_compute. reflexivity.
  - split; [rewrite Hfile; reflexivity | exact Hserial].
Defined.

(** C3 as stated fails: a save that fails leaves the serial incremented.
    A fresh document (serial 1) is saved (serial 2, in memory and on
    disk); the next save fails at the rename.  The file still holds
    serial 2, the temporary file is gone, and the document in memory has
    serial 3. *)
Lemma Save_failure_increments_serial :
  let fresh := New "/t/state.json" quiet_world in
  let r1 := State.Save (fst fresh) "/t/state.json" (snd fresh) in
  let s1 := snd (fst r1) in
  let w1 := snd r1 in
  let r2 := State.Save s1 "/t/state.json"
              (with_faults [false; false; false; false; true] w1) in
  let s2 := snd (fst r2) in
  let w2 := snd r2 in
  fst (fst r1) = None
  /\ fst (fst r2) = Some (ErrRenameState (PathError "rename" "/t/state.json.tmp" EIO))
  /\ files w2 = files w1
  /\ Load "/t/state.json" w2 = inl (Some s1)
  /\ State.Serial s1 = 2%Z
  /\ State.Serial s2 = 3%Z.
Proof.
  intros fresh r1 s1 w1 r2 s2 w2.
  split; [| split; [| split; [| split; [| split]]]]; vm_compute; reflexivity.
Qed.

(** A successful save: the serial is incremented once, the file holds
    the document as saved, and the temporary file is gone. *)
Lemma Save_success (s s' : State.t) (path : string) (w w' : World) :
  State.Save s path w = (None, s', w') ->
  State.Serial s' = Int.incr (State.Serial s)
  /\ files w' !! path = Some (State.Encode s')
  /\ files w' !! (path ++ ".tmp")%string = None.
Proof.
  intros HS.
  pose proof (Save_document _ _ _ _ _ _ HS) as Hdoc.
  pose proof (Save_files _ _ _ _ _ _ HS) as Hfiles. simpl in Hfiles.
  split; [| split].
  - rewrite Hdoc. reflexivity.
  - rewrite Hfiles. apply lookup_insert_eq.
  - rewrite Hfiles. rewrite lookup_insert_ne by (intros E; symmetry in E; revert E; apply tmp_path_differs).
    apply lookup_delete_eq.
Qed.

Lemma Manager_Save_success (m m' : Manager.t) (w w' : World) :
  Manager.Save m w = (None, m', w') ->
  exists s s', Manager.state m = Some s /\ Manager.state m' = Some s'
               /\ State.Serial s' = Int.incr (State.Serial s).
Proof.
  unfold Manager.Save. destruct (Manager.state m) as [s|]; [| discriminate].
  destruct (State.Save s (Manager.statePath m) w) as [[r s'] w1] eqn:E.
  intros [= -> <- <-]. exists s, s'. repeat split.
  now apply Save_success in E as [E _].
Qed.

Lemma Manager_Save_on_counts (fs : FS.t) (m m' : Manager.t) (w w' : World)
      (r : option error) (s : State.t) :
  Manager.Save_on fs m w = (r, m', w') ->
  Manager.state m = Some s ->
  exists s', Manager.state m' = Some s' /\ State.Serial s' = Int.incr (State.Serial s).
Proof.
  unfold Manager.Save_on. intros H Hs. rewrite Hs in H.
  destruct (State.Save_on fs s (Manager.statePath m) w) as [[r0 s'] w1] eqn:E.
  injection H as _ <- _. exists s'. split; [reflexivity |].
  apply Save_on_document in E. rewrite E. reflexivity.
Qed.

(** C4, as the code has it.  Every save of a loaded document, whether
    it succeeds or fails, increments the serial by exactly one as long
    as the serial is below the largest value of an [int].  So over a
    session with [n] saves that succeed and [k] saves that fail, with
    any changes of the document between them, the serial goes from
    [serial] to [serial + n + k], as long as that stays within the range
    of [int]: it increases with every save, and from one successful
    save to the next by one more than the number of saves that failed
    in between. *)
Theorem saves_count (n k : nat) (m m' : Manager.t) (s : State.t) :
  saves n k m m' ->
  Manager.state m = Some s ->
  (Int.MinInt <= State.Serial s)%Z ->
  (State.Serial s + Z.of_nat n + Z.of_nat k <= Int.MaxInt)%Z ->
  exists s', Manager.state m' = Some s'
             /\ State.Serial s' = (State.Serial s + Z.of_nat n + Z.of_nat k)%Z.
Proof.
  intros Hsaves Hs Hmin.
  induction Hsaves as [m | n k m m1 m2 Hsaves IH Hsame
                       | n k m m1 m2 fs w w' Hsaves IH Hsave
                       | n k m m1 m2 fs w w' err Hsaves IH Hsave]; intros Hmax.
  - exists s. split; [exact Hs | lia].
  - destruct (IH Hs Hmax) as (s1 & Hs1 & Hserial1).
    unfold same_serial in Hsame. rewrite Hs1 in Hsame.
    destruct (Manager.state m2) as [s2|]; [| discriminate].
    injection Hsame as Hsame. exists s2. split; [reflexivity | congruence].
  - destruct (IH Hs) as (s1 & Hs1 & Hserial1); [lia |].
    destruct (Manager_Save_on_counts _ _ _ _ _ _ _ Hsave Hs1) as (s2 & Hs2 & Hincr).
    exists s2. split; [exact Hs2 |]. rewrite Hincr, Hserial1, incr_below_max; lia.
  - destruct (IH Hs) as (s1 & Hs1 & Hserial1); [lia |].
    destruct (Manager_Save_on_counts _ _ _ _ _ _ _ Hsave Hs1) as (s2 & Hs2 & Hincr).
    exists s2. split; [exact Hs2 |]. rewrite Hincr, Hserial1, incr_below_max; lia.
Qed.

Lemma saves_count_witness :
  let m0 := snd (fst (Manager.Load (NewManager "/t/state.json") quiet_world)) in
  let r1 := Manager.Save_on FS.faulty m0 quiet_world in
  let r2 := Manager.Save_on FS.faulty (snd (fst r1))
              (with_faults [false; false; false; false; true] (snd r1)) in
  let r3 := Manager.Save_on FS.faulty (snd (fst r2)) (with_faults [] (snd r2)) in
  fst (fst r1) = None /\ fst (fst r2) <> None /\ fst (fst r3) = None
  /\ exists s', Manager.state (snd (fst r3)) = Some s' /\ State.Serial s' = 4%Z.
Proof.
  intros m0 r1 r2 r3.
  assert (H1 : Manager.Save_on FS.faulty m0 quiet_world = (None, snd (fst r1), snd r1))
    by (vm_compute; reflexivity).
  assert (H2 : Manager.Save_on FS.faulty (snd (fst r1))
                 (with_faults [false; false; false; false; true] (snd r1))
               = (Some (ErrRenameState (PathError "rename" "/t/state.json.tmp" EIO)),
                  snd (fst r2), snd r2))
    by (vm_compute; reflexivity).
  assert (H3 : Manager.Save_on FS.faulty (snd (fst r2)) (with_faults [] (snd r2))
               = (None, snd (fst r3), snd r3))
    by (vm_compute; reflexivity).
  split; [vm_compute; reflexivity |]. split; [vm_compute; discriminate |].
  split; [vm_compute; reflexivity |].
  assert (Hs : exists s, Manager.state m0 = Some s /\ State.Serial s = 1%Z)
    by (eexists; split; vm_compute; reflexivity).
  destruct Hs as (s & Hs & Hserial).
  destruct (saves_count 2 1 m0 (snd (fst r3)) s) as (s' & Hs' & Hcount).
  - eapply saves_saved; [eapply saves_failed; [eapply saves_saved; [apply saves_none |] |] |].
    + exact H1.
    + exact H2.
    + exact H3.
  - exact Hs.
  - rewrite Hserial. vm_compute. discriminate.
  - rewrite Hserial. vm_compute. discriminate.
  - exists s'. split; [exact Hs' |]. rewrite Hcount, Hserial. reflexivity.
Defined.

(** C4 as stated fails at the largest serial.  A state file may hold
    it; the document loads, the save succeeds, and the serial in memory
    and on disk is then the smallest value of an [int]: it did not
    increase. *)
Lemma Save_wraps_serial :
  let w := with_files
             {["/t/state.json" :=
                 (with_quotes "{'version': 1, 'serial': 9223372036854775807, 'builds': {}}")]}
             quiet_world in
  exists s s' w',
    Load "/t/state.json" w = inl (Some s)
    /\ State.Serial s = 9223372036854775807%Z
    /\ State.Save s "/t/state.json" w = (None, s', w')
    /\ State.Serial s' = (-9223372036854775808)%Z
    /\ (State.Serial s' < State.Serial s)%Z
    /\ Load "/t/state.json" w' = inl (Some s').
Proof.
  intros w.
  destruct (Load "/t/state.json" w) as [[s|]|] eqn:EL; try (vm_compute in EL; discriminate).
  destruct (State.Save s "/t/state.json" w) as [[r s'] w'] eqn:ES.
  exists s, s', w'.
  vm_compute in EL. injection EL as <-.
  vm_compute in ES. injection ES as <- <- <-.
  vm_compute. repeat split.
Qed.

(** ** The lock file is read back as it was written *)

Lemma append_cons (c : ascii) (s t : string) :
  (String c s ++ t)%string = String c (s ++ t)%string.
Proof. reflexivity. Qed.

Lemma append_nil_l (t : string) : ("" ++ t)%string = t.
Proof. reflexivity. Qed.

Lemma append_nil_r (s : string) : (s ++ "")%string = s.
Proof. induction s as [|c s IH]; [reflexivity |]. rewrite append_cons, IH. reflexivity. Qed.

Lemma append_assoc (s t u : string) : ((s ++ t) ++ u)%string = (s ++ (t ++ u))%string.
Proof. induction s as [|c s IH]; [reflexivity |]. rewrite !append_cons, IH. reflexivity. Qed.

(** The scanner reads the escape of a byte as that byte. *)
Lemma lex_escape_char (c : ascii) (acc tail : string) :
  Json.lex (Json.MStr acc) (Json.escape_char c ++ tail)
  = Json.lex (Json.MStr (Json.snoc acc c)) tail.
Proof. destruct c as [[] [] [] [] [] [] [] []]; reflexivity. Qed.

Lemma lex_escape (s acc tail : string) :
  Json.lex (Json.MStr acc) (Json.escape s ++ String "034" tail)
  = Json.TString (acc ++ s) :: Json.lex Json.MTop tail.
Proof.
  revert acc. induction s as [|c s IH]; intros acc.
  - rewrite append_nil_r. reflexivity.
  - change (Json.escape (String c s)) with (Json.escape_char c ++ Json.escape s)%string.
    rewrite append_assoc, lex_escape_char, IH. unfold Json.snoc.
    rewrite append_assoc. reflexivity.
Qed.

Ltac flatten_appends :=
  repeat first [ rewrite append_cons | rewrite append_nil_l | rewrite append_assoc ].

(** A string the encoder wrote is one string token, with the string it
    was written from. *)
Lemma lex_quote (s tail : string) :
  Json.lex Json.MTop (Json.quote s ++ tail) = Json.TString s :: Json.lex Json.MTop tail.
Proof.
  unfold Json.quote. flatten_appends.
  change (Json.lex Json.MTop (String "034" ?x)) with (Json.lex (Json.MStr "") x).
  rewrite lex_escape. reflexivity.
Qed.

Lemma lex_newline (n : nat) (tail : string) :
  Json.lex Json.MTop (Json.newline n ++ tail) = Json.lex Json.MTop tail.
Proof.
  unfold Json.newline. rewrite append_assoc, append_cons, append_nil_l.
  change (Json.lex Json.MTop (String "010" ?x)) with (Json.lex Json.MTop x).
  induction n as [|n IH]; [reflexivity |].
  change (Json.indent (S n)) with ("  " ++ Json.indent n)%string.
  rewrite append_assoc, !append_cons, append_nil_l. exact IH.
Qed.

Lemma lex_lbrace (tail : string) :
  Json.lex Json.MTop (String "{" tail) = Json.TLBrace :: Json.lex Json.MTop tail.
Proof. reflexivity. Qed.

Lemma lex_rbrace (tail : string) :
  Json.lex Json.MTop (String "}" tail) = Json.TRBrace :: Json.lex Json.MTop tail.
Proof. reflexivity. Qed.

Lemma lex_colon (tail : string) :
  Json.lex Json.MTop (String ":" tail) = Json.TColon :: Json.lex Json.MTop tail.
Proof. reflexivity. Qed.

Lemma lex_comma (tail : string) :
  Json.lex Json.MTop (String "," tail) = Json.TComma :: Json.lex Json.MTop tail.
Proof. reflexivity. Qed.

Lemma lex_space (tail : string) :
  Json.lex Json.MTop (String " " tail) = Json.lex Json.MTop tail.
Proof. reflexivity. Qed.

Ltac lex_through :=
  flatten_appends;
  repeat first [ rewrite lex_quote | rewrite lex_newline | rewrite lex_lbrace
               | rewrite lex_rbrace | rewrite lex_colon | rewrite lex_comma
               | rewrite lex_space ].

Lemma Lock_tokens (id op who created path : string) :
  Json.tokens (Json.MarshalIndent (Lock.to_json (Lock.mk id op who created path)))
  = [Json.TLBrace; Json.TString "id"; Json.TColon; Json.TString id; Json.TComma;
     Json.TString "operation"; Json.TColon; Json.TString op; Json.TComma;
     Json.TString "who"; Json.TColon; Json.TString who; Json.TComma;
     Json.TString "created"; Json.TColon; Json.TString created; Json.TComma;
     Json.TString "path"; Json.TColon; Json.TString path; Json.TRBrace].
Proof.
  unfold Json.tokens, Json.MarshalIndent, Lock.to_json.
  cbn [Json.print Json.newline Json.indent
       Lock.ID Lock.Operation Lock.Who Lock.Created Lock.Path].
  lex_through. reflexivity.
Qed.

(** The body written for a lock is decoded to that lock.  The writer
    here copies each byte above 127 as it is, and a time is its text: of
    the code this is the round trip of the locks that are [plain_lock]. *)
Lemma Lock_round_trip (l : Lock.t) (data : string) :
  Lock.MarshalIndent l = inl data -> Lock.Unmarshal data = inl l.
Proof.
  destruct l as [id op who created path]. intros [= <-].
  unfold Lock.Unmarshal, Json.parse. rewrite Lock_tokens. reflexivity.
Qed.

(** ** Acquiring and releasing the lock *)

Lemma uuid_New_files (w : World) : files (snd (uuid_New w)) = files w.
Proof. reflexivity. Qed.

(** What holding the lock means once Lock has returned without error:
    the manager records the lock it made, and the lock file, which did
    not exist, holds the body written for that lock; no other file
    changed. *)
Lemma Lock_acquired (lm lm1 : LockManager.t) (operation : string) (w w1 : World) :
  LockManager.Lock lm operation w = (None, lm1, w1) ->
  exists lock data,
    lm1 = LockManager.set_lock (Some lock) lm
    /\ Lock.MarshalIndent lock = inl data
    /\ files w !! LockManager.lockPath lm = None
    /\ files w1 = <[LockManager.lockPath lm := data]> (files w).
Proof.
  unfold LockManager.Lock, os.Stat.
  destruct (files w !! LockManager.lockPath lm) eqn:Eabsent.
  { destruct (LockManager.readLock lm w); discriminate. }
  destruct (uuid_New w) as [id w0] eqn:E0.
  assert (H0 : files w0 = files w) by (now injection E0 as _ <-).
  set (lock := Lock.mk id operation _ _ _).
  destruct (Lock.MarshalIndent lock) as [data|] eqn:Edata; [| discriminate].
  destruct (os.MkdirAll _ w0) as [[e2|] w2] eqn:E2; [discriminate |].
  apply MkdirAll_files in E2.
  destruct (os.OpenFile_excl _ w2) as [[e3|] w3] eqn:E3.
  { destruct (IsExist e3); [destruct (LockManager.readLock lm w3) |]; discriminate. }
  apply OpenFile_excl_files in E3 as [_ E3].
  destruct (os.Write _ data w3) as [[e4|] w4] eqn:E4.
  { destruct (os.Close _ w4) as [? w5]. destruct (os.Remove _ w5). discriminate. }
  apply Write_files in E4.
  destruct (os.Close _ w4) as [[e5|] w5] eqn:E5.
  { destruct (os.Remove _ w5). discriminate. }
  apply Close_files in E5.
  intros [= <- <-]. exists lock, data. repeat split; try assumption.
  rewrite E5, E4, E3, E2, H0. rewrite lookup_insert_eq. simpl.
  apply insert_insert_eq.
Qed.

(** Releasing a lock whose file holds a body with the same id. *)
Lemma Unlock_own (lm : LockManager.t) (held existing : Lock.t) (data : string) (w : World) :
  LockManager.lock lm = Some held ->
  files w !! LockManager.lockPath lm = Some data ->
  Lock.Unmarshal data = inl existing ->
  Lock.ID existing = Lock.ID held ->
  LockManager.Unlock lm w
  = (None, LockManager.set_lock None lm,
     with_files (delete (LockManager.lockPath lm) (files w)) w).
Proof.
  intros Hheld Hfile Hdata Hid.
  unfold LockManager.Unlock, LockManager.readLock, os.ReadFile, os.Open, os.Remove.
  rewrite Hheld, Hfile, Hdata, Hid, String.eqb_refl. reflexivity.
Qed.




(** ** Opening a session *)

(** A lock is acquired on one file system as on the other: nothing is
    read or removed on the way to success. *)
Lemma Lock_on_acquired (fs : FS.t) (lm lm1 : LockManager.t) (operation : string)
      (w w1 : World) :
  LockManager.Lock_on fs lm operation w = (None, lm1, w1) ->
  LockManager.Lock lm operation w = (None, lm1, w1).
Proof.
  unfold LockManager.Lock_on, LockManager.Lock.
  destruct (os.Stat _ w).
  2: { destruct (LockManager.readLock_on fs lm w) as [[?|?] ?]; discriminate. }
  destruct (uuid_New w) as [id w0]. destruct (Lock.MarshalIndent _); [| discriminate].
  destruct (os.MkdirAll _ w0) as [[?|] w2]; [discriminate |].
  destruct (os.OpenFile_excl _ w2) as [[e3|] w3].
  { destruct (IsExist e3); [destruct (LockManager.readLock_on fs lm w3) as [[?|?] ?] |];
      discriminate. }
  destruct (os.Write _ _ w3) as [[?|] w4].
  { destruct (os.Close _ w4) as [? w5]. destruct (FS.Remove fs _ w5). discriminate. }
  destruct (os.Close _ w4) as [[?|] w5]; [| auto].
  destruct (FS.Remove fs _ w5). discriminate.
Qed.

Lemma Load_on_faulty_files (path : string) (w w' : World) (r : option State.t + error) :
  Load_on FS.faulty path w = (r, w') -> files w' = files w.
Proof.
  unfold Load_on. cbn [FS.Open FS.faulty].
  destruct (FS.faulty_Open path w) as [[content | err] w1] eqn:E;
    apply faulty_Open_spec in E as [E _].
  - destruct (State.Decode content); now intros [= _ <-].
  - destruct (IsNotExist err); now intros [= _ <-].
Qed.

(** Releasing the lock one holds, on the faulty file system: the lock
    file is removed and the lock given up, or the reading or the
    removing of the lock file has failed and nothing has changed. *)
Lemma Unlock_on_faulty_own (lm : LockManager.t) (held existing : Lock.t) (data : string)
      (w : World) :
  LockManager.lock lm = Some held ->
  files w !! LockManager.lockPath lm = Some data ->
  Lock.Unmarshal data = inl existing ->
  Lock.ID existing = Lock.ID held ->
  exists r lm' w',
    LockManager.Unlock_on FS.faulty lm w = (r, lm', w')
    /\ match r with
       | None => lm' = LockManager.set_lock None lm
                 /\ files w' = delete (LockManager.lockPath lm) (files w)
       | Some e => (exists c, e = ErrReadLockBeforeUnlock c \/ e = ErrRemoveLock c)
                   /\ lm' = lm /\ files w' = files w /\ 1 <= failures w
       end.
Proof.
  intros Hheld Hfile Hdata Hid.
  unfold LockManager.Unlock_on, LockManager.readLock_on. rewrite Hheld.
  cbn [FS.Open FS.Remove FS.faulty].
  destruct (FS.faulty_Open _ w) as [[content | err] w1] eqn:E1;
    apply faulty_Open_spec in E1 as [E1 H1].
  2: { eexists _, _, _. split; [reflexivity |]. split; [eauto |]. split; [reflexivity |].
       split; [exact E1 |].
       destruct H1 as [[Habsent _] | (_ & _ & F1)]; [congruence | lia]. }
  destruct H1 as [H1 F1]. rewrite Hfile in H1. injection H1 as <-. rewrite Hdata, Hid, String.eqb_refl. cbn [negb].
  destruct (FS.faulty_Remove _ w1) as [[err|] w2] eqn:E2; apply faulty_Remove_spec in E2.
  - destruct E2 as [E2 [Habsent | [Hne F2]]]; [rewrite E1 in Habsent; congruence |].
    rewrite Hne. cbn [negb].
    eexists _, _, _. split; [reflexivity |]. split; [eauto |]. split; [reflexivity |].
    split; [congruence |]. lia.
  - destruct E2 as [E2 _].
    eexists _, _, _. split; [reflexivity |]. split; [reflexivity |]. now rewrite E2, E1.
Qed.

(** C9, as the code has it.  For every open of a session in which the
    lock is acquired but the load of the state document fails, on a
    file system where reading and removing a file can fail: the Manager
    calls Unlock before it returns the error of the load, and throws the
    outcome of that call away.  The error of the load is returned as it
    is and no document is loaded, in every case.  When the release
    succeeds the manager holds no lock and the lock file is gone (the
    files are those from before the open).  When the release fails (the
    lock file cannot be read back, or cannot be removed) the lock
    remains held: the manager still records it and the lock file is
    still there. *)
Theorem Manager_Load_releases_lock_when_load_fails
        (m : Manager.t) (w w1 w2 : World) (lm1 : LockManager.t) (err : error) :
  LockManager.Lock_on FS.faulty (Manager.lockManager m) "build" w = (None, lm1, w1) ->
  Load_on FS.faulty (Manager.statePath m) w1 = (inr err, w2) ->
  exists r lm' w',
    LockManager.Unlock_on FS.faulty lm1 w2 = (r, lm', w')
    /\ Manager.Load_on FS.faulty m w = (inr err, Manager.set_lockManager lm' m, w')
    /\ Manager.state (Manager.set_lockManager lm' m) = Manager.state m
    /\ match r with
       | None =>
           LockManager.lock lm' = None
           /\ files w' !! LockManager.lockPath (Manager.lockManager m) = None
           /\ files w' = files w
       | Some e =>
           (exists c, e = ErrReadLockBeforeUnlock c \/ e = ErrRemoveLock c)
           /\ lm' = lm1
           /\ is_Some (LockManager.lock lm1)
           /\ is_Some (files w' !! LockManager.lockPath (Manager.lockManager m))
           /\ files w' = files w1
           /\ 1 <= failures w2
       end.
Proof.
  intros Hlock Hload.
  pose proof (Lock_on_acquired _ _ _ _ _ _ Hlock) as Hlock0.
  destruct (Lock_acquired _ _ _ _ _ Hlock0) as (lock & data & -> & Hdata & Habsent & Hfiles).
  pose proof (Load_on_faulty_files _ _ _ _ Hload) as Hw2.
  assert (Hfile : files w2 !! LockManager.lockPath (Manager.lockManager m) = Some data)
    by (rewrite Hw2, Hfiles; apply lookup_insert_eq).
  destruct (Unlock_on_faulty_own (LockManager.set_lock (Some lock) (Manager.lockManager m))
                                 lock lock data w2 eq_refl Hfile
                                 (Lock_round_trip _ _ Hdata) eq_refl)
    as (r & lm' & w' & Hunlock & Hcases).
  exists r, lm', w'. split; [exact Hunlock |]. split; [| split; [reflexivity |]].
  - unfold Manager.Load_on. rewrite Hlock.
    cbn [Manager.statePath Manager.set_lockManager Manager.lockManager].
    rewrite Hload, Hunlock. reflexivity.
  - cbn [LockManager.lockPath LockManager.set_lock] in Hcases.
    destruct r as [e|].
    + destruct Hcases as (He & -> & Hw' & Hf).
      split; [exact He |]. split; [reflexivity |]. split; [cbn; eauto |].
      rewrite Hw'. split; [eauto |]. split; [exact Hw2 | exact Hf].
    + destruct Hcases as (-> & Hw'). split; [reflexivity |]. rewrite Hw', Hw2, Hfiles.
      split; [apply lookup_delete_eq |]. rewrite delete_insert_eq. now apply delete_id.
Qed.

Lemma Manager_Load_releases_lock_when_load_fails_witness :
  let w := with_files {["/t/state.json" := (with_quotes "{'version': 1, 'serial': 1, 'builds': {")]}
                      quiet_world in
  let r := Manager.Load_on FS.faulty (NewManager "/t/state.json") w in
  fst (fst r) = inr (ErrDecodeState JsonError)
  /\ exists lm' w',
       r = (inr (ErrDecodeState JsonError),
            Manager.set_lockManager lm' (NewManager "/t/state.json"), w')
       /\ LockManager.lock lm' = None
       /\ files w' = files w.
Proof.
  intros w r. split; [vm_compute; reflexivity |].
  set (l := LockManager.Lock_on FS.faulty (NewLockManager "/t/state.json") "build" w).
  destruct (Manager_Load_releases_lock_when_load_fails
              (NewManager "/t/state.json") w (snd l) (snd l) (snd (fst l))
              (ErrDecodeState JsonError))
    as (res & lm' & w' & Hunlock & Hload & _ & Hcases).
  - vm_compute. reflexivity.
  - vm_compute. reflexivity.
  - assert (Hres : res = None).
    { assert (H : fst (fst (LockManager.Unlock_on FS.faulty (snd (fst l)) (snd l))) = None)
        by (vm_compute; reflexivity).
      rewrite Hunlock in H. exact H. }
    subst res. destruct Hcases as (Hnone & _ & Hsame).
    exists lm', w'. split; [exact Hload |]. split; [exact Hnone | exact Hsame].
Defined.

(** C9 as stated fails: when the release fails, the lock remains held
    after the failed open.  The state file is corrupt; the lock is
    taken, the load fails, and so does the removal of the lock file.
    Manager.Load returns the error of the load only; the manager still
    records the lock, the lock file is still there, and the next open is
    refused. *)
Lemma Manager_Load_keeps_lock_when_release_fails :
  let w := with_faults [false; false; false; false; false; false; true]
             (with_files
                {["/t/state.json" := (with_quotes "{'version': 1, 'serial': 1, 'builds': {")]}
                quiet_world) in
  let r := Manager.Load_on FS.faulty (NewManager "/t/state.json") w in
  fst (fst r) = inr (ErrDecodeState JsonError)
  /\ (exists held, LockManager.lock (Manager.lockManager (snd (fst r))) = Some held)
  /\ (exists data, files (snd r) !! "/t/state.json.lock" = Some data)
  /\ fst (fst (Manager.Load_on FS.faulty (NewManager "/t/state.json") (snd r)))
     = inr (ErrLockState (ErrLockedBy "user@host" "00000000-0000-4000-8000-000000000000"
                                      "build" "2025-11-17T10:00:00Z")).
Proof.
  intros w r.
  split; [vm_compute; reflexivity |].
  split; [eexists; vm_compute; reflexivity |].
  split; [eexists; vm_compute; reflexivity |].
  vm_compute. reflexivity.
Qed.

(** ** The version of a state document *)

(** Decoding a field from the members of an object and one more. *)
Lemma field_app {B : Type} (d : Json.decoder B) (name : string)
      (ms : list (string * Json.value)) (k : string) (x : Json.value) (cur : B) :
  Json.field d name (ms ++ [(k, x)]) cur
  = match Json.field d name ms cur with
    | Some c => if String.eqb (Json.lower k) name then d c x else Some c
    | None => None
    end.
Proof.
  revert cur. induction ms as [|[k' x'] ms IH]; intros cur; simpl.
  - destruct (String.eqb (Json.lower k) name); [| reflexivity].
    destruct (d cur x); reflexivity.
  - destruct (String.eqb (Json.lower k') name); [| apply IH].
    destruct (d cur x'); [apply IH | reflexivity].
Qed.

(** The decoder takes any integer for the version: a document that is
    decoded from an object is decoded from the object with one more
    member, a version of any value, and then carries that version. *)
Lemma State_of_json_any_version (ms : list (string * Json.value)) (d : State.t)
      (lit : string) (v : Z) :
  State.of_json State.zero (Json.Object ms) = Some d ->
  Strconv.ParseInt lit = Some v ->
  State.of_json State.zero (Json.Object (ms ++ [("version", Json.Number lit)]))
  = Some (State.mk v (State.Serial d) (State.Lineage d) (State.BuilderVersion d)
                   (State.PackerVersion d) (State.Template d) (State.Builds d)
                   (State.LastRun d) (State.filePath d)).
Proof.
  unfold State.of_json, Json.into_struct, State.fields. intros Hd Hlit.
  rewrite !field_app.
  repeat match type of Hd with
         | context [Json.field ?dec ?name ms ?cur] =>
             destruct (Json.field dec name ms cur) eqn:?; [| discriminate]
         end.
  simpl in Hd. injection Hd as <-.
  cbn. rewrite Hlit. reflexivity.
Qed.

(** ** The build wrapper *)

(** What the wrapper does with a complete build.  For every build whose
    record exists with status complete, Run returns the cached artifacts
    reconstructed from the record's artifacts (each reports the id, the
    builder id and the files of its record, and its destruction does
    nothing), whatever the inputs: its own change check,
    inputsChangedSinceLastBuild, always answers that they did not
    change.  The engine is not run, nothing is saved, and the document
    is left as it was; two messages are sent. *)
Lemma Run_complete_build_returns_cached
        (sb : StatefulBuild.t) (engine : Engine) (s : Session) (st : State.t) (b : Build.t) :
  Manager.state (manager s) = Some st ->
  State.GetBuild st (StatefulBuild.buildName sb) = Some b ->
  Build.Status b = BuildStatusComplete ->
  exists artifacts msg1 msg2,
    StatefulBuild.Run sb engine s
    = (Return (inl artifacts), mkSession (manager s) (world s) (ui s ++ [UiSay msg1; UiSay msg2]))
    /\ StatefulBuild.loadArtifactsFromState sb b = inl artifacts
    /\ map Artifact.Id artifacts = map ArtifactState.ID (Build.Artifacts b)
    /\ map Artifact.BuilderId artifacts = map ArtifactState.BuilderID (Build.Artifacts b)
    /\ map Artifact.Files artifacts = map ArtifactState.Files (Build.Artifacts b)
    /\ Forall (fun a => exists c, a = Artifact.Cached c /\ CachedArtifact.Destroy c = None)
              artifacts.
Proof.
  intros Hst Hb Hcomplete.
  eexists _, _, _. split; [| split; [reflexivity |]].
  - unfold StatefulBuild.Run, Manager.State. rewrite Hst, Hb.
    unfold Build.IsComplete. rewrite Hcomplete. cbn.
    unfold mbind, Cmd_bind, bind, Say, ret. cbn.
    rewrite <- app_assoc. reflexivity.
  - rewrite !map_map. cbn. repeat split.
    apply Forall_forall. intros a Ha.
    apply list_elem_of_In, in_map_iff in Ha as (x & <- & _). eauto.
Qed.

Example Run_complete_build_example :
  exists artifacts s',
    StatefulBuild.Run (NewStatefulBuild (CoreBuild.mk "b" "null" []))
                      engine_makes_new session_with_complete_build
    = (Return (inl artifacts), s')
    /\ map Artifact.Id artifacts = ["art-1"].
Proof.
  destruct (Run_complete_build_returns_cached
              (NewStatefulBuild (CoreBuild.mk "b" "null" [])) engine_makes_new
              session_with_complete_build
              (default State.zero (Manager.state (manager session_with_complete_build)))
              (default Build.zero
                 (State.GetBuild
                    (default State.zero (Manager.state (manager session_with_complete_build)))
                    "b")))
    as (artifacts & msg1 & msg2 & Hrun & _ & Hids & _).
  - reflexivity.
  - vm_compute. reflexivity.
  - reflexivity.
  - exists artifacts. eexists. split; [exact Hrun |]. rewrite Hids. vm_compute. reflexivity.
Qed.

(** C7.  An input changed and the wrapper still returns the cached
    artifacts.  The document records [v = 1] and a complete build [b];
    the run is made with [v = 2], which InputsChanged reports as a
    change.  The caller records the new inputs, as the build command
    does, and runs the wrapper: it returns the artifact of the record,
    not the one the engine would make, and the record of the build is as
    it was.  The build is not re-created. *)
Theorem Run_returns_cached_after_input_change :
  let s := session_with_complete_build in
  let m := Manager.UpdateTemplateInputs (manager s) "/t/x.pkr.hcl" "sha256:h"
             (Some {["v" := "2"]}) (Some ∅) in
  let '(r, s') := StatefulBuild.Run (NewStatefulBuild (CoreBuild.mk "b" "null" []))
                    engine_makes_new (mkSession m (world s) (ui s)) in
  Manager.InputsChanged (manager s) "sha256:h" (Some {["v" := "2"]}) (Some ∅) = true
  /\ r = Return (inl [Artifact.Cached (CachedArtifact.mk "art-1" "null" ["out.img"])])
  /\ manager s' = m
  /\ world s' = world s
  /\ build_record s' "b" = build_record s "b".
Proof. vm_compute. repeat split. Qed.

(** When the record is not complete the engine is run: here a build
    that failed before is run again and its record becomes complete,
    with the artifact the engine made. *)
Example Run_failed_build_runs_engine :
  let s := session_with_complete_build in
  let failed := Build.mk "b" "null" BuildStatusFailed None (Some []) [] [] "boom"
                         "2025-11-17T09:00:00Z" zero_time in
  let m := Manager.set_state
             (State.SetBuild (default State.zero (Manager.state (manager s))) "b" (Some failed))
             (manager s) in
  let '(r, s') := StatefulBuild.Run (NewStatefulBuild (CoreBuild.mk "b" "null" []))
                    engine_makes_new (mkSession m (world s) (ui s)) in
  r = Return (inl [Artifact.Built "art-2" "null" ["new.img"]])
  /\ Build.Status <$> build_record s' "b" = Some BuildStatusComplete
  /\ (State.Serial <$> Manager.state (manager s')) = Some 8%Z.
Proof. vm_compute. repeat split. Qed.

(** ** More on the lock *)

Lemma Lock_on_existing_file (lm : LockManager.t) (operation data : string) (w : World) :
  files w !! LockManager.lockPath lm = Some data ->
  LockManager.Lock lm operation w = (Some (refusal data), lm, w).
Proof.
  intros Hfile.
  unfold LockManager.Lock, os.Stat, LockManager.readLock, os.ReadFile, os.Open, refusal.
  rewrite Hfile. destruct (Lock.Unmarshal data); reflexivity.
Qed.

Lemma refusal_AlreadyLocked (data : string) : AlreadyLocked (refusal data).
Proof.
  unfold refusal, AlreadyLocked. destruct (Lock.Unmarshal data); eauto 10.
Qed.




Lemma readLock_on_faulty_files (lm : LockManager.t) (w w' : World) (r : Lock.t + error) :
  LockManager.readLock_on FS.faulty lm w = (r, w') -> files w' = files w.
Proof.
  unfold LockManager.readLock_on. cbn [FS.Open FS.faulty].
  destruct (FS.faulty_Open _ w) as [[data | err] w1] eqn:E;
    apply faulty_Open_spec in E as [E _].
  - destruct (Lock.Unmarshal data); now intros [= _ <-].
  - now intros [= _ <-].
Qed.

(** What a Lock that fails does to the files, when the removal of the
    lock file can fail too. *)
Lemma Lock_on_faulty_failure
      (lm lm' : LockManager.t) (operation : string) (w w' : World) (err : error) :
  LockManager.Lock_on FS.faulty lm operation w = (Some err, lm', w') ->
  lm' = lm
  /\ (files w' = files w
      \/ ((exists c, err = ErrWriteLock c \/ err = ErrCloseLock c)
          /\ files w !! LockManager.lockPath lm = None
          /\ 2 <= failures w
          /\ exists content, files w' = <[LockManager.lockPath lm := content]> (files w))).
Proof.
  unfold LockManager.Lock_on, os.Stat.
  destruct (files w !! LockManager.lockPath lm) eqn:Eabsent.
  { destruct (LockManager.readLock_on FS.faulty lm w) as [[?|?] w0] eqn:E;
      apply readLock_on_faulty_files in E; intros [= _ <- <-]; auto. }
  destruct (uuid_New w) as [id w0] eqn:E0.
  assert (H0 : files w0 = files w) by (now injection E0 as _ <-).
  assert (F0 : failures w0 = failures w) by (now injection E0 as _ <-).
  set (lock := Lock.mk id operation _ _ _).
  destruct (Lock.MarshalIndent lock) as [data|] eqn:Edata.
  2: { intros [= _ <- <-]; auto. }
  destruct (os.MkdirAll _ w0) as [r2 w2] eqn:E2.
  pose proof (MkdirAll_failures _ _ _ _ E2) as F2. apply MkdirAll_files in E2.
  destruct r2 as [e2|].
  { intros [= _ <- <-]. split; [reflexivity | left; congruence]. }
  destruct (os.OpenFile_excl _ w2) as [r3 w3] eqn:E3.
  pose proof (OpenFile_excl_failures _ _ _ _ E3) as F3. apply OpenFile_excl_files in E3.
  destruct r3 as [e3|].
  { destruct (IsExist e3).
    - destruct (LockManager.readLock_on FS.faulty lm w3) as [[?|?] w4] eqn:E4;
        apply readLock_on_faulty_files in E4; intros [= _ <- <-];
        (split; [reflexivity | left; congruence]).
    - intros [= _ <- <-]. split; [reflexivity | left; congruence]. }
  destruct E3 as [_ E3]. cbn [FS.Remove FS.faulty].
  assert (Hw3 : files w3 = <[LockManager.lockPath lm := ""]> (files w)) by congruence.
  destruct (os.Write _ data w3) as [r4 w4] eqn:E4.
  pose proof (Write_failures _ _ _ _ _ E4) as F4. apply Write_files in E4.
  destruct r4 as [e4|].
  { destruct (os.Close _ w4) as [r5 w5] eqn:E5.
    pose proof (Close_failures _ _ _ _ E5) as F5. apply Close_files in E5.
    destruct (FS.faulty_Remove _ w5) as [r6 w6] eqn:E6. apply faulty_Remove_spec in E6.
    intros [= <- <- <-]. split; [reflexivity |].
    assert (Hw5 : files w5 = <[LockManager.lockPath lm := ""]> (files w)) by congruence.
    destruct r6 as [e6|].
    - destruct E6 as [E6 [Habsent | [_ F6]]].
      + rewrite Hw5, lookup_insert_eq in Habsent. discriminate.
      + right. split; [eauto |]. split; [reflexivity |].
        split; [destruct r5; lia |]. exists "". congruence.
    - destruct E6 as [E6 _]. left. rewrite E6, Hw5, delete_insert_eq. now apply delete_id. }
  destruct (os.Close _ w4) as [r5 w5] eqn:E5.
  pose proof (Close_failures _ _ _ _ E5) as F5. apply Close_files in E5.
  destruct r5 as [e5|]; [| discriminate].
  destruct (FS.faulty_Remove _ w5) as [r6 w6] eqn:E6. apply faulty_Remove_spec in E6.
  intros [= <- <- <-]. split; [reflexivity |].
  assert (Hw5 : files w5 = <[LockManager.lockPath lm := ("" ++ data)%string]> (files w)).
  { rewrite E5, E4, Hw3, lookup_insert_eq. simpl. apply insert_insert_eq. }
  destruct r6 as [e6|].
  - destruct E6 as [E6 [Habsent | [_ F6]]].
    + rewrite Hw5, lookup_insert_eq in Habsent. discriminate.
    + right. split; [eauto |]. split; [reflexivity |].
      split; [lia |]. eexists. rewrite E6. exact Hw5.
  - destruct E6 as [E6 _]. left. rewrite E6, Hw5, delete_insert_eq. now apply delete_id.
Qed.

(** On a lock file that exists, Lock is refused on the faulty file
    system too. *)
Lemma Lock_on_faulty_existing_file (lm : LockManager.t) (operation data : string) (w : World) :
  files w !! LockManager.lockPath lm = Some data ->
  exists err w',
    LockManager.Lock_on FS.faulty lm operation w = (Some err, lm, w') /\ AlreadyLocked err.
Proof.
  intros Hfile. unfold LockManager.Lock_on, os.Stat. rewrite Hfile.
  destruct (LockManager.readLock_on FS.faulty lm w) as [[l | e] w'];
    eexists _, _; (split; [reflexivity |]); unfold AlreadyLocked; eauto 10.
Qed.

(** X2. A Lock that returns an error, whichever it is, on a file system
    where reading and removing a file can fail too. The manager is as it
    was, and so is every file but the lock file. The lock file is as it was
    as well, with one exception: when the lock file was created and the
    writing or the closing then fails, Lock calls os.Remove and throws its
    outcome away; if that removal fails as well (a second call that fails),
    the new lock file is left behind, held by nobody, and every later Lock
    on that path is refused. *)
Theorem Lock_failure_cleans_up
        (lm lm' : LockManager.t) (operation : string) (w w' : World) (err : error) :
  LockManager.Lock_on FS.faulty lm operation w = (Some err, lm', w') ->
  lm' = lm
  /\ (forall p, p <> LockManager.lockPath lm -> files w' !! p = files w !! p)
  /\ (files w' = files w
      \/ ((exists c, err = ErrWriteLock c \/ err = ErrCloseLock c)
          /\ files w !! LockManager.lockPath lm = None
          /\ is_Some (files w' !! LockManager.lockPath lm)
          /\ 2 <= failures w
          /\ forall other operation',
               LockManager.lockPath other = LockManager.lockPath lm ->
               exists e w'',
                 LockManager.Lock_on FS.faulty other operation' w' = (Some e, other, w'')
                 /\ AlreadyLocked e)).
Proof.
  intros H. destruct (Lock_on_faulty_failure _ _ _ _ _ _ H) as [-> Hfiles].
  split; [reflexivity |]. split.
  - intros p Hp. destruct Hfiles as [-> | (_ & _ & _ & content & ->)]; [reflexivity |].
    now apply lookup_insert_ne.
  - destruct Hfiles as [-> | (He & Habsent & Hf & content & Hw')]; [now left | right].
    split; [exact He |]. split; [exact Habsent |].
    assert (Hthere : files w' !! LockManager.lockPath lm = Some content)
      by (rewrite Hw'; apply lookup_insert_eq).
    split; [eauto |]. split; [exact Hf |].
    intros other operation' Hpath. rewrite <- Hpath in Hthere.
    apply (Lock_on_faulty_existing_file other operation' content w' Hthere).
Qed.

Lemma Lock_failure_cleans_up_witness :
  let w := with_faults [false; false; true; false; true] quiet_world in
  let r := LockManager.Lock_on FS.faulty (NewLockManager "/t/state.json") "build" w in
  fst (fst r) = Some (ErrWriteLock (PathError "write" "/t/state.json.lock" EIO))
  /\ snd (fst r) = NewLockManager "/t/state.json"
  /\ files (snd r) !! "/t/state.json.lock" = Some ""
  /\ fst (fst (LockManager.Lock_on FS.faulty (NewLockManager "/t/state.json") "build" (snd r)))
     = Some (ErrReadExistingLock JsonError).
Proof.
  intros w r. split; [vm_compute; reflexivity |].
  destruct (Lock_failure_cleans_up
              (NewLockManager "/t/state.json") (snd (fst r)) "build" w (snd r)
              (ErrWriteLock (PathError "write" "/t/state.json.lock" EIO)))
    as (Hlm & _ & _).
  - vm_compute. reflexivity.
  - split; [exact Hlm |]. split; vm_compute; reflexivity.
Defined.



(** The lock a successful Lock records. *)
Lemma Lock_acquired_lock (lm lm1 : LockManager.t) (operation : string) (w w1 : World) :
  LockManager.Lock lm operation w = (None, lm1, w1) ->
  LockManager.lock lm1
  = Some (Lock.mk (uuids w (uuid_next w)) operation
                  (env_USER w ++ "@" ++ (if String.eqb (hostname w) "" then "unknown"
                                         else hostname w))
                  (clock w) (LockManager.statePath lm)).
Proof.
  unfold LockManager.Lock.
  destruct (os.Stat _ w); [| destruct (LockManager.readLock lm w); discriminate].
  unfold uuid_New. cbn [env_USER clock].
  set (lock := Lock.mk _ operation _ _ _).
  set (w0 := mkWorld _ _ _ _ _ _ _).
  destruct (Lock.MarshalIndent lock) as [body|]; [| discriminate].
  destruct (os.MkdirAll _ w0) as [[?|] w2]; [discriminate |].
  destruct (os.OpenFile_excl _ w2) as [[e3|] w3].
  { destruct (IsExist e3); [destruct (LockManager.readLock lm w3) |]; discriminate. }
  destruct (os.Write _ body w3) as [[?|] w4].
  { destruct (os.Close _ w4) as [? w5]. destruct (os.Remove _ w5). discriminate. }
  destruct (os.Close _ w4) as [[?|] w5].
  { destruct (os.Remove _ w5). discriminate. }
  intros [= <- _]. reflexivity.
Qed.



(** ** More on saving *)

Lemma append_inj_l (p s t : string) : (p ++ s)%string = (p ++ t)%string -> s = t.
Proof.
  induction p as [|c p IH]; [auto |]. rewrite !append_cons. intros [= H]. auto.
Qed.

(** The lock file is neither the state file nor its temporary file. *)
Lemma lock_path_differs (path : string) :
  (path ++ ".lock")%string <> path /\ (path ++ ".lock")%string <> (path ++ ".tmp")%string.
Proof.
  split.
  - intros E. apply (f_equal String.length) in E. rewrite append_length in E.
    simpl in E. lia.
  - intros E. apply append_inj_l in E. discriminate.
Qed.

(** Load looks at the state file only. *)
Lemma Load_same_file (path : string) (w1 w2 : World) :
  files w1 !! path = files w2 !! path -> Load path w1 = Load path w2.
Proof. unfold Load, os.Open. now intros ->. Qed.

(** X5. A Save that succeeds leaves the document with its serial incremented
    and the path recorded; the state file holds the encoding of that
    document, no temporary file exists (also one left over by an earlier run
    is gone), and every other file is as it was. *)
Theorem Save_success_changes_state_file_only
        (s s' : State.t) (path : string) (w w' : World) :
  State.Save s path w = (None, s', w') ->
  s' = State.set_filePath path (State.set_Serial (Int.incr (State.Serial s)) s)
  /\ files w' !! path = Some (State.Encode s')
  /\ files w' !! (path ++ ".tmp")%string = None
  /\ forall p, p <> path -> p <> (path ++ ".tmp")%string -> files w' !! p = files w !! p.
Proof.
  intros HS.
  pose proof (Save_document _ _ _ _ _ _ HS) as Hdoc.
  pose proof (Save_files _ _ _ _ _ _ HS) as Hfiles. simpl in Hfiles.
  assert (Hne : (path ++ ".tmp")%string <> path) by apply tmp_path_differs.
  split; [exact Hdoc |]. rewrite Hfiles. repeat split.
  - apply lookup_insert_eq.
  - rewrite lookup_insert_ne by congruence. apply lookup_delete_eq.
  - intros p Hp Htmp. rewrite lookup_insert_ne by congruence.
    rewrite lookup_delete_ne by congruence. reflexivity.
Qed.

Lemma Save_success_changes_state_file_only_witness :
  let w := with_files {["/t/state.json.tmp" := "left over"; "/t/other" := "x"]} quiet_world in
  let r := State.Save (fst (New "/t/state.json" w)) "/t/state.json" w in
  files (snd r) !! "/t/state.json" = Some (State.Encode (snd (fst r)))
  /\ files (snd r) !! "/t/state.json.tmp" = None
  /\ files (snd r) !! "/t/other" = Some "x".
Proof.
  intros w r.
  destruct (Save_success_changes_state_file_only
              (fst (New "/t/state.json" w)) (snd (fst r)) "/t/state.json" w (snd r))
    as (_ & Hfile & Htmp & Hother).
  - vm_compute. reflexivity.
  - split; [exact Hfile |]. split; [exact Htmp |].
    rewrite Hother; [vm_compute; reflexivity | discriminate | discriminate].
Defined.

(** ** Closing a session *)

(** X6. Close gives up at a failing save. For a manager whose lock path is
    the state path followed by [.lock] and whose lock file exists: when the
    save of the loaded document fails, Close returns the error of the save,
    the lock file still holds what it held, and Manager.Load of a new
    manager on the same state path is refused with an error that says the
    state is locked. *)
Theorem Close_keeps_lock_when_save_fails
        (m : Manager.t) (s s' : State.t) (w w' : World) (err : error) (data : string) :
  Manager.state m = Some s ->
  State.Save s (Manager.statePath m) w = (Some err, s', w') ->
  LockManager.lockPath (Manager.lockManager m) = (Manager.statePath m ++ ".lock")%string ->
  files w !! LockManager.lockPath (Manager.lockManager m) = Some data ->
  Manager.Close m w = (Some err, Manager.set_state (Some s') m, w')
  /\ files w' !! LockManager.lockPath (Manager.lockManager m) = Some data
  /\ exists e, Manager.Load (NewManager (Manager.statePath m)) w'
               = (inr (ErrLockState e), NewManager (Manager.statePath m), w')
               /\ AlreadyLocked e.
Proof.
  intros Hs HS Hlp Hdata.
  assert (Hkept : files w' !! LockManager.lockPath (Manager.lockManager m) = Some data).
  { pose proof (Save_files _ _ _ _ _ _ HS) as Hfiles. simpl in Hfiles.
    destruct (lock_path_differs (Manager.statePath m)) as [_ Hne].
    rewrite <- Hdata.
    destruct Hfiles as [[_ ->] | [_ ->]]; [reflexivity |].
    rewrite Hlp. now apply lookup_delete_ne. }
  split; [| split; [exact Hkept |]].
  - unfold Manager.Close, Manager.Save. rewrite Hs, HS. reflexivity.
  - rewrite Hlp in Hkept.
    exists (refusal data). split; [| apply refusal_AlreadyLocked].
    unfold Manager.Load, NewManager. cbn [Manager.lockManager].
    rewrite (Lock_on_existing_file _ _ data) by exact Hkept. reflexivity.
Qed.

Lemma Close_keeps_lock_when_save_fails_witness :
  let r := Manager.Load (NewManager "/t/state.json") quiet_world in
  let m := snd (fst r) in
  let w := with_faults [true] (snd r) in
  exists m' w',
    Manager.Close m w = (Some (ErrCreateStateDir (PathError "mkdir" "/t" EIO)), m', w')
    /\ is_Some (files w' !! "/t/state.json.lock").
Proof.
  intros r m w.
  destruct (Close_keeps_lock_when_save_fails
              m (default State.zero (Manager.state m))
              (snd (fst (State.Save (default State.zero (Manager.state m)) "/t/state.json" w)))
              w
              (snd (State.Save (default State.zero (Manager.state m)) "/t/state.json" w))
              (ErrCreateStateDir (PathError "mkdir" "/t" EIO))
              (default "" (files w !! "/t/state.json.lock")))
    as (Hclose & Hkept & _).
  - vm_compute. reflexivity.
  - vm_compute. reflexivity.
  - reflexivity.
  - vm_compute. reflexivity.
  - eexists _, _. split; [exact Hclose |].
    exists (default "" (files w !! "/t/state.json.lock")). exact Hkept.
Defined.



(** ** Recording the inputs *)

(** X8. Inputs that were recorded are reported as unchanged: on a manager
    with a loaded document, after UpdateTemplateInputs with a hash,
    variables and files, InputsChanged with the same hash, variables and
    files answers false, in whatever order its loops meet the entries of the
    two maps. *)
Theorem UpdateTemplateInputs_then_unchanged
        (m : Manager.t) (st : State.t) (templatePath templateHash : string)
        (variables files : GoMap.t string) (vorder forder : list (string * string)) :
  Manager.state m = Some st ->
  GoMap.range_order variables vorder ->
  GoMap.range_order files forder ->
  Manager.InputsChanged_in
    (Manager.UpdateTemplateInputs m templatePath templateHash variables files)
    templateHash variables files vorder forder = false.
Proof.
  intros Hst Hv Hf. rewrite (InputsChanged_any_order _ _ _ _ _ _ Hv Hf).
  unfold Manager.UpdateTemplateInputs. rewrite Hst.
  apply (InputsChanged_same _ (State.set_Template
                                 (TemplateState.mk templatePath templateHash variables files) st));
    reflexivity.
Qed.

Lemma UpdateTemplateInputs_then_unchanged_witness :
  Manager.InputsChanged_in
    (Manager.UpdateTemplateInputs manager_with_empty_region "/t/y.pkr.hcl" "sha256:k"
       (Some {["zone" := ""]}) None)
    "sha256:k" (Some {["zone" := ""]}) None [("zone", "")] [] = false.
Proof.
  apply (UpdateTemplateInputs_then_unchanged manager_with_empty_region
           (default State.zero (Manager.state manager_with_empty_region))).
  - reflexivity.
  - unfold GoMap.range_order. simpl. now rewrite map_to_list_singleton.
  - unfold GoMap.range_order. simpl. now rewrite map_to_list_empty.
Defined.

(** ** Steps *)

(** X9. ProvisionerComplete at every index. At or beyond the number of steps
    it answers false; a negative index makes it panic (index out of range:
    only the upper bound is tested); at the index of a step it tells whether
    the status of the step is complete; and at the index
    NextPendingProvisioner returns it answers false. *)
Theorem ProvisionerComplete_by_index (b : Build.t) :
  let ps := elems (Build.Provisioners b) in
  (forall index, (Z.of_nat (length ps) <= index)%Z ->
                 Build.ProvisionerComplete b index = Some false)
  /\ (forall index, (index < 0)%Z -> Build.ProvisionerComplete b index = None)
  /\ (forall index p, (0 <= index)%Z -> ps !! Z.to_nat index = Some p ->
        Build.ProvisionerComplete b index
        = Some (bool_decide (ProvisionerState.Status p = StatusComplete)))
  /\ Build.ProvisionerComplete b (Build.NextPendingProvisioner b) = Some false.
Proof.
  intros ps. unfold Build.ProvisionerComplete, Build.NextPendingProvisioner. fold ps.
  split; [| split; [| split]].
  - intros index H. destruct (Z.geb_spec index (Z.of_nat (length ps))); [reflexivity | lia].
  - intros index H. destruct (Z.geb_spec index (Z.of_nat (length ps))); [lia |].
    destruct (Z.ltb_spec index 0); [reflexivity | lia].
  - intros index p H0 Hp. pose proof (lookup_lt_Some _ _ _ Hp) as Hlt.
    destruct (Z.geb_spec index (Z.of_nat (length ps))); [lia |].
    destruct (Z.ltb_spec index 0); [lia |].
    rewrite Hp. f_equal.
    destruct (String.eqb_spec (ProvisionerState.Status p) StatusComplete) as [E | E].
    + now rewrite bool_decide_eq_true_2.
    + now rewrite bool_decide_eq_false_2.
  - pose proof (next_pending_from_bounds ps 0) as Hb.
    destruct (Z.geb_spec (Z.of_nat (Build.next_pending_from 0 ps)) (Z.of_nat (length ps)));
      [reflexivity |].
    destruct (Z.ltb_spec (Z.of_nat (Build.next_pending_from 0 ps)) 0); [lia |].
    rewrite Nat2Z.id.
    destruct (next_pending_from_found ps 0) as (p & Hp & Hw); [lia |].
    rewrite Nat.sub_0_r in Hp. rewrite Hp. f_equal.
    destruct Hw as [Hw | Hw]; rewrite Hw; reflexivity.
Qed.

Lemma ProvisionerComplete_by_index_witness :
  let b := Build.mk "b" "null" BuildStatusProvisioning None
             (Some [ProvisionerState.mk "shell" "" StatusComplete "" zero_time zero_time;
                    ProvisionerState.mk "file" "" StatusPending "" zero_time zero_time])
             [] [] "" zero_time zero_time in
  Build.ProvisionerComplete b 2 = Some false
  /\ Build.ProvisionerComplete b (-1) = None
  /\ Build.ProvisionerComplete b 0 = Some true
  /\ Build.ProvisionerComplete b (Build.NextPendingProvisioner b) = Some false.
Proof.
  intros b. destruct (ProvisionerComplete_by_index b) as (Hbeyond & Hneg & Hat & Hnext).
  split; [apply Hbeyond; simpl; lia |]. split; [apply Hneg; lia |]. split; [| exact Hnext].
  rewrite (Hat 0%Z (ProvisionerState.mk "shell" "" StatusComplete "" zero_time zero_time));
    [reflexivity | lia | reflexivity].
Defined.

(** ** The builds of a document *)

(** X10. The builds of a document, set, read and removed by name. SetBuild
    panics exactly when the document has no map of builds (assignment to an
    entry of a nil map), and otherwise makes GetBuild answer with what was
    set for that name, leaves the answer for every other name and every
    other field of the document alone; RemoveBuild makes GetBuild answer nil
    for that name, leaves the other names alone, and does nothing to a
    document without a map of builds. *)
Theorem Builds_set_get_remove (s : State.t) (name : string) (build : option Build.t) :
  match State.SetBuild s name build with
  | None => State.Builds s = None
  | Some s' =>
      State.Builds s <> None
      /\ State.GetBuild s' name = build
      /\ (forall other, other <> name -> State.GetBuild s' other = State.GetBuild s other)
      /\ s' = State.set_Builds (State.Builds s') s
  end
  /\ State.GetBuild (State.RemoveBuild s name) name = None
  /\ (forall other, other <> name ->
        State.GetBuild (State.RemoveBuild s name) other = State.GetBuild s other)
  /\ (State.Builds s = None -> State.RemoveBuild s name = s).
Proof.
  split.
  { unfold State.SetBuild, State.GetBuild, GoMap.assign, GoMap.index, GoMap.table.
    destruct (State.Builds s) as [tbl|]; [| reflexivity]. cbn.
    split; [discriminate |]. split; [| split; [| reflexivity]].
    - rewrite lookup_insert_eq. reflexivity.
    - intros other Hne. rewrite lookup_insert_ne by congruence. reflexivity. }
  unfold State.RemoveBuild, State.GetBuild, GoMap.remove, GoMap.index, GoMap.table.
  destruct (State.Builds s) as [tbl|] eqn:E; cbn; repeat split.
  - rewrite lookup_delete_eq. reflexivity.
  - intros other Hne. rewrite lookup_delete_ne by congruence. reflexivity.
  - discriminate.
  - intros _. destruct s. cbn in E. subst. reflexivity.
Qed.

(** ** Hashes *)

Lemma be_bytes_length (k : nat) (x : Z) : length (Sha256.be_bytes k x) = k.
Proof.
  unfold Sha256.be_bytes. now rewrite length_map, length_rev, length_seq.
Qed.

Lemma be_bytes_range (k : nat) (x : Z) :
  Forall (fun b => (0 <= b < 256)%Z) (Sha256.be_bytes k x).
Proof.
  unfold Sha256.be_bytes. apply Forall_map, Forall_forall. intros i _. simpl.
  apply Z.mod_pos_bound. lia.
Qed.

Lemma Sum256_length (bs : list Z) : length (Sha256.Sum256 bs) = 32.
Proof.
  unfold Sha256.Sum256, Sha256.digest_of. cbn [map concat].
  rewrite !length_app, !be_bytes_length. reflexivity.
Qed.

Lemma Sum256_range (bs : list Z) : Forall (fun b => (0 <= b < 256)%Z) (Sha256.Sum256 bs).
Proof.
  unfold Sha256.Sum256, Sha256.digest_of. cbn [map concat].
  repeat (apply Forall_app; split); try apply be_bytes_range. constructor.
Qed.

Lemma hex_digit_ok (d : Z) : (0 <= d < 16)%Z -> is_hex_digit (hex_digit d) = true.
Proof.
  intros H.
  assert (d = 0 \/ d = 1 \/ d = 2 \/ d = 3 \/ d = 4 \/ d = 5 \/ d = 6 \/ d = 7 \/ d = 8
          \/ d = 9 \/ d = 10 \/ d = 11 \/ d = 12 \/ d = 13 \/ d = 14 \/ d = 15)%Z as Hd by lia.
  repeat (destruct Hd as [-> | Hd]; [reflexivity |]). subst. reflexivity.
Qed.

Lemma hex_of_bytes_shape (bs : list Z) :
  Forall (fun b => (0 <= b < 256)%Z) bs ->
  String.length (hex_of_bytes bs) = 2 * length bs
  /\ all_chars is_hex_digit (hex_of_bytes bs) = true.
Proof.
  induction 1 as [|b bs Hb _ [IHl IHc]]; [split; reflexivity |].
  cbn [hex_of_bytes String.length all_chars length]. split; [lia |].
  rewrite !hex_digit_ok, IHc; [reflexivity | |].
  - apply Z.mod_pos_bound. lia.
  - split; [apply Z.div_pos; lia | apply Z.div_lt_upper_bound; lia].
Qed.

(** X11. Every hash ComputeStringHash returns is the label [sha256:]
    followed by 64 lower-case hexadecimal digits; ComputeFileHash of a file
    that exists is ComputeStringHash of its content, and for a file that
    does not exist it returns the error of the opening, one that
    os.IsNotExist recognises. *)
Theorem hashes_shape :
  (forall s, exists hex,
      ComputeStringHash s = "sha256:" ++ hex
      /\ String.length hex = 64
      /\ all_chars is_hex_digit hex = true)
  /\ (forall path w,
        match files w !! path with
        | Some content => ComputeFileHash path w = inl (ComputeStringHash content)
        | None => exists err, ComputeFileHash path w = inr err /\ IsNotExist err = true
        end).
Proof.
  split.
  - intros s. exists (hex_of_bytes (Sha256.Sum256 (bytes_of s))). split; [reflexivity |].
    destruct (hex_of_bytes_shape _ (Sum256_range (bytes_of s))) as [Hl Hc].
    rewrite Hl, Sum256_length. split; [reflexivity | exact Hc].
  - intros path w. unfold ComputeFileHash, os.Open.
    destruct (files w !! path); [reflexivity |]. eexists. split; reflexivity.
Qed.

(** ** The fingerprint does not delimit what it hashes *)

Lemma range_order_singleton {V : Type} (k : string) (v : V) (order : list (string * V)) :
  GoMap.range_order (Some {[k := v]}) order <-> order = [(k, v)].
Proof.
  unfold GoMap.range_order. simpl. rewrite map_to_list_singleton. split.
  - apply Permutation_singleton_r.
  - now intros ->.
Qed.

Lemma range_order_empty {V : Type} (m : GoMap.t V) (order : list (string * V)) :
  GoMap.len m = 0 -> GoMap.range_order m order -> order = [].
Proof.
  unfold GoMap.len, GoMap.range_order. intros H%map_size_empty_inv. rewrite H.
  rewrite map_to_list_empty. apply Permutation_nil_r.
Qed.

Lemma range_order_of_empty {V : Type} (m : GoMap.t V) :
  GoMap.len m = 0 -> GoMap.range_order m [].
Proof.
  unfold GoMap.len, GoMap.range_order. intros H%map_size_empty_inv. rewrite H.
  now rewrite map_to_list_empty.
Qed.

(** X12. ComputeFingerprint writes the keys and values to the hash with
    nothing between them, and nothing between the variables and the files.
    So a document with the single variable [k = v] and no files and a
    document with the same template hash, no variables and the single file
    [k' = v'] have the same fingerprints whenever [k] followed by [v] is the
    same text as [k'] followed by [v']. *)
Theorem ComputeFingerprint_does_not_delimit
        (s1 s2 : State.t) (k v k' v' : string) (fp : string) :
  TemplateState.Hash (State.Template s1) = TemplateState.Hash (State.Template s2) ->
  TemplateState.Variables (State.Template s1) = Some {[k := v]} ->
  GoMap.len (TemplateState.Files (State.Template s1)) = 0 ->
  GoMap.len (TemplateState.Variables (State.Template s2)) = 0 ->
  TemplateState.Files (State.Template s2) = Some {[k' := v']} ->
  (k ++ v)%string = (k' ++ v')%string ->
  State.ComputeFingerprint s1 fp <-> State.ComputeFingerprint s2 fp.
Proof.
  intros Hh Hv1 Hf1 Hv2 Hf2 Hkv.
  assert (Hsame : State.ComputeFingerprint_in s1 [(k, v)] []
                  = State.ComputeFingerprint_in s2 [] [(k', v')]).
  { unfold State.ComputeFingerprint_in. rewrite Hh. cbn [State.written].
    rewrite !append_nil_r, !append_nil_l. now rewrite Hkv. }
  split; intros [vo fo Hvo Hfo].
  - rewrite Hv1 in Hvo. apply range_order_singleton in Hvo as ->.
    apply (range_order_empty _ _ Hf1) in Hfo as ->.
    rewrite Hsame. constructor.
    + now apply range_order_of_empty.
    + rewrite Hf2. now apply range_order_singleton.
  - rewrite Hf2 in Hfo. apply range_order_singleton in Hfo as ->.
    apply (range_order_empty _ _ Hv2) in Hvo as ->.
    rewrite <- Hsame. constructor.
    + rewrite Hv1. now apply range_order_singleton.
    + now apply range_order_of_empty.
Qed.

Lemma ComputeFingerprint_does_not_delimit_witness :
  let s1 := State.mk 1 1 "l" "" "" (TemplateState.mk "t" "sha256:h" (Some {["ab" := "c"]}) None)
                     (Some ∅) None "" in
  let s2 := State.mk 1 1 "l" "" "" (TemplateState.mk "t" "sha256:h" None (Some {["a" := "bc"]}))
                     (Some ∅) None "" in
  let fp := State.ComputeFingerprint_in s1 [("ab", "c")] [] in
  State.ComputeFingerprint s1 fp <-> State.ComputeFingerprint s2 fp.
Proof.
  intros s1 s2 fp.
  apply (ComputeFingerprint_does_not_delimit s1 s2 "ab" "c" "a" "bc" fp); reflexivity.
Defined.

(** ** The wrapper, step by step *)

Lemma SetBuild_cases (name : string) (b : Build.t) (s : Session) :
  (exists msg, SetBuild name b s = (Panic msg, s)
               /\ forall st, Manager.state (manager s) = Some st -> State.Builds st = None)
  \/ (exists s', SetBuild name b s = (Return tt, s')
                 /\ recorded s' name b /\ world s' = world s /\ ui s' = ui s
                 /\ Manager.statePath (manager s') = Manager.statePath (manager s)
                 /\ Manager.lockManager (manager s') = Manager.lockManager (manager s)
                 /\ exists st, Manager.state (manager s) = Some st /\ State.Builds st <> None).
Proof.
  unfold SetBuild, recorded, build_record.
  destruct (Manager.state (manager s)) as [st|] eqn:Est.
  2: { left. eexists. split; [reflexivity | discriminate]. }
  unfold State.SetBuild, GoMap.assign.
  destruct (State.Builds st) as [tbl|] eqn:Eb.
  - right. eexists. split; [reflexivity |]. cbn.
    unfold State.GetBuild, GoMap.index. cbn. rewrite lookup_insert_eq.
    repeat split. exists st. split; [reflexivity | congruence].
  - left. eexists. split; [reflexivity |]. intros st' [= <-]. exact Eb.
Qed.

Lemma Save_cases (s : Session) :
  exists err s',
    Save s = (Return err, s')
    /\ ui s' = ui s
    /\ Manager.statePath (manager s') = Manager.statePath (manager s)
    /\ Manager.lockManager (manager s') = Manager.lockManager (manager s)
    /\ (forall name b, recorded s name b -> recorded s' name b).
Proof.
  unfold Save, Manager.Save, recorded, build_record.
  destruct (Manager.state (manager s)) as [st|] eqn:Est.
  - destruct (State.Save st (Manager.statePath (manager s)) (world s)) as [[err st'] w'] eqn:E.
    eexists _, _. split; [reflexivity |]. cbn. repeat split.
    intros name b. apply Save_document in E. rewrite E. auto.
  - eexists _, _. split; [reflexivity |]. cbn. rewrite Est. auto.
Qed.

Lemma recorded_ui (s : Session) (u : list UiEvent) (name : string) (b : Build.t) :
  recorded s name b -> recorded (mkSession (manager s) (world s) u) name b.
Proof. exact (fun H => H). Qed.

Lemma recorded_world (s : Session) (w : World) (name : string) (b : Build.t) :
  recorded s name b -> recorded (mkSession (manager s) w (ui s)) name b.
Proof. exact (fun H => H). Qed.

Lemma recorded_Builds (s : Session) (name : string) (b : Build.t) :
  recorded s name b ->
  exists st, Manager.state (manager s) = Some st /\ State.Builds st <> None.
Proof.
  unfold recorded, build_record. destruct (Manager.state (manager s)) as [st|]; [| discriminate].
  unfold State.GetBuild, GoMap.index, GoMap.table. intros H. exists st. split; [reflexivity |].
  intros E. rewrite E in H. discriminate.
Qed.

(** Once the document has a map of builds, storing a record goes through. *)
Lemma SetBuild_returns (name : string) (b : Build.t) (s : Session) :
  (exists st, Manager.state (manager s) = Some st /\ State.Builds st <> None) ->
  exists s', SetBuild name b s = (Return tt, s')
             /\ recorded s' name b /\ world s' = world s /\ ui s' = ui s
             /\ Manager.statePath (manager s') = Manager.statePath (manager s)
             /\ Manager.lockManager (manager s') = Manager.lockManager (manager s).
Proof.
  intros (st & Hst & Hb).
  destruct (SetBuild_cases name b s) as [(msg & _ & Hnil) | (s' & E & H1 & H2 & H3 & H4 & H5 & _)].
  - now apply Hnil in Hst.
  - exists s'. auto 10.
Qed.

Ltac unfold_cmd := unfold mbind, Cmd_bind, bind, ret; cbv beta zeta.

Lemma runFreshBuild_settles (sb : StatefulBuild.t) (engine : Engine) (b : Build.t) (s : Session) :
  (exists st, Manager.state (manager s) = Some st /\ State.Builds st <> None) ->
  exists r s1,
    StatefulBuild.runFreshBuild sb engine b s = (Return r, s1)
    /\ settled sb b s1 r
    /\ (exists more, ui s1 = (ui s ++ more)%list).
Proof.
  intros Hnonnil. unfold StatefulBuild.runFreshBuild. unfold_cmd.
  destruct (SetBuild_returns (StatefulBuild.buildName sb)
              (Build.set_Status BuildStatusCreating b) s Hnonnil)
    as (s2 & -> & Hrec2 & _ & Hui2 & _).
  destruct (Save_cases s2) as (err3 & s3 & -> & Hui3 & _ & _ & Hkeep3).
  apply Hkeep3 in Hrec2.
  destruct err3 as [err3|].
  { eexists _, _. split; [reflexivity |]. split.
    - eexists. split; [exact Hrec2 |]. split; [reflexivity | left; reflexivity].
    - exists []. rewrite app_nil_r. congruence. }
  unfold Say at 1. unfold StatefulBuild.inner_Run. cbn [manager world ui].
  destruct (engine (StatefulBuild.inner sb) (world s3)) as [[artifacts | err] w4].
  - unfold Now. cbn [manager world ui].
    match goal with
    | |- context [SetBuild ?n ?b' ?s'] =>
        destruct (SetBuild_returns n b' s') as (s5 & -> & Hrec5 & _ & Hui5 & _)
    end.
    { apply (recorded_Builds _ _ _ Hrec2). }
    destruct (Save_cases s5) as (err6 & s6 & -> & Hui6 & _ & _ & Hkeep6).
    apply Hkeep6 in Hrec5.
    destruct err6 as [err6|].
    + unfold Printf. eexists _, _. split; [reflexivity |]. split.
      * eexists. split; [exact Hrec5 |]. split; [reflexivity |]. split; reflexivity.
      * cbn [ui]. rewrite Hui6, Hui5. cbn [ui]. rewrite Hui3, Hui2, <- app_assoc. eauto.
    + eexists _, _. split; [reflexivity |]. split.
      * eexists. split; [exact Hrec5 |]. split; [reflexivity |]. split; reflexivity.
      * rewrite Hui6, Hui5. cbn [ui]. rewrite Hui3, Hui2. eauto.
  - match goal with
    | |- context [SetBuild ?n ?b' ?s'] =>
        destruct (SetBuild_returns n b' s') as (s5 & -> & Hrec5 & _ & Hui5 & _)
    end.
    { apply (recorded_Builds _ _ _ Hrec2). }
    destruct (Save_cases s5) as (err6 & s6 & -> & Hui6 & _ & _ & Hkeep6).
    apply Hkeep6 in Hrec5.
    eexists _, _. split; [reflexivity |]. split.
    + eexists. split; [exact Hrec5 |]. split; [reflexivity |]. right. split; reflexivity.
    + rewrite Hui6, Hui5. cbn [ui]. rewrite Hui3, Hui2. eauto.
Qed.

Lemma Run_build_existing (sb : StatefulBuild.t) (engine : Engine) (b : Build.t) (s : Session) :
  recorded s (StatefulBuild.buildName sb) b ->
  exists r s1,
    StatefulBuild.Run_build sb engine (Some b) s = (Return r, s1)
    /\ settled sb (if Build.HasInstance b
                   then Build.set_Status BuildStatusPending (Build.set_Instance None b)
                   else b) s1 r
    /\ (Build.HasInstance b = true -> resume_refused ∈ ui s1).
Proof.
  intros Hrec. unfold StatefulBuild.Run_build. unfold_cmd.
  destruct (Build.HasInstance b) eqn:Hinst.
  - unfold Say at 1 2 3, Error, StatefulBuild.resumeBuild, ret. cbn [manager world ui].
    match goal with
    | |- context [SetBuild ?n ?b' ?s'] =>
        destruct (SetBuild_returns n b' s') as (s2 & -> & Hrec2 & _ & Hui2 & _)
    end.
    { apply (recorded_Builds _ _ _ Hrec). }
    destruct (runFreshBuild_settles sb engine
                (Build.set_Status BuildStatusPending (Build.set_Instance None b)) s2
                (recorded_Builds _ _ _ Hrec2))
      as (r & s1 & -> & Hsettled & more & Hui).
    exists r, s1. split; [reflexivity |]. split; [exact Hsettled |].
    intros _. rewrite Hui, Hui2. cbn [ui]. unfold resume_refused. cbn [Error_text].
    set_solver.
  - destruct (runFreshBuild_settles sb engine b s (recorded_Builds _ _ _ Hrec))
      as (r & s1 & -> & Hsettled & _).
    exists r, s1. split; [reflexivity |]. split; [exact Hsettled | discriminate].
Qed.

Lemma Run_build_fresh (sb : StatefulBuild.t) (engine : Engine) (s : Session) :
  (exists st, Manager.state (manager s) = Some st /\ State.Builds st <> None) ->
  exists r s1,
    StatefulBuild.Run_build sb engine None s = (Return r, s1)
    /\ ((exists c b1, r = inr (ErrSaveInitialState c)
                      /\ recorded s1 (StatefulBuild.buildName sb) b1
                      /\ Build.Status b1 = BuildStatusPending)
        \/ exists b0, Build.Instance b0 = None /\ settled sb b0 s1 r).
Proof.
  intros Hnonnil. unfold StatefulBuild.Run_build. unfold_cmd.
  unfold Now. cbn [manager world ui].
  match goal with
  | |- context [SetBuild ?n ?b' ?s'] =>
      destruct (SetBuild_returns n b' s' Hnonnil) as (s2 & -> & Hrec2 & _ & Hui2 & _);
      set (b0 := b') in *
  end.
  destruct (Save_cases s2) as (err3 & s3 & -> & Hui3 & _ & _ & Hkeep3).
  apply Hkeep3 in Hrec2.
  destruct err3 as [err3|].
  - eexists _, _. split; [reflexivity |]. left. exists err3, b0. auto.
  - change (Build.HasInstance b0) with false. cbv iota.
    destruct (runFreshBuild_settles sb engine b0 s3 (recorded_Builds _ _ _ Hrec2))
      as (r & s1 & -> & Hsettled & _).
    exists r, s1. split; [reflexivity |]. right. exists b0. split; [reflexivity | exact Hsettled].
Qed.

Lemma Run_build_fresh_panics (sb : StatefulBuild.t) (engine : Engine) (s : Session) (st : State.t) :
  Manager.state (manager s) = Some st ->
  State.Builds st = None ->
  StatefulBuild.Run_build sb engine None s = (Panic "assignment to entry in nil map", s).
Proof.
  intros Hst Hb. unfold StatefulBuild.Run_build. unfold_cmd.
  unfold Now, SetBuild. cbn [manager world ui]. rewrite Hst.
  unfold State.SetBuild, GoMap.assign. rewrite Hb. destruct s. reflexivity.
Qed.

Lemma cached_report (sb : StatefulBuild.t) (artifacts : list Artifact.t) (b : Build.t) :
  Build.Artifacts b = StatefulBuild.artifactsToState sb artifacts ->
  exists cached,
    StatefulBuild.loadArtifactsFromState sb b = inl cached /\ same_report cached artifacts.
Proof.
  intros Hb. eexists. split; [reflexivity |]. rewrite Hb.
  unfold same_report, StatefulBuild.artifactsToState. rewrite !map_map. cbn.
  repeat split; apply map_ext; reflexivity.
Qed.

(** What Run leaves behind when it returns artifacts. *)
Lemma Run_returns_artifacts (sb : StatefulBuild.t) (engine : Engine) (s s1 : Session)
      (artifacts : list Artifact.t) :
  StatefulBuild.Run sb engine s = (Return (inl artifacts), s1) ->
  exists b1 cached,
    recorded s1 (StatefulBuild.buildName sb) b1
    /\ Build.Status b1 = BuildStatusComplete
    /\ StatefulBuild.loadArtifactsFromState sb b1 = inl cached
    /\ same_report cached artifacts.
Proof.
  unfold StatefulBuild.Run, Manager.State.
  destruct (Manager.state (manager s)) as [st|] eqn:Hst; [| discriminate].
  destruct (State.GetBuild st (StatefulBuild.buildName sb)) as [b|] eqn:Hb.
  - assert (Hrec : recorded s (StatefulBuild.buildName sb) b).
    { unfold recorded, build_record. now rewrite Hst. }
    destruct (Build.IsComplete b) eqn:Hc.
    + unfold_cmd. unfold Say. cbn. intros [= <- <-].
      exists b, (map (fun a => Artifact.Cached
                                 (CachedArtifact.mk (ArtifactState.ID a) (ArtifactState.BuilderID a)
                                                    (ArtifactState.Files a)))
                     (Build.Artifacts b)).
      split; [exact Hrec |]. split; [now apply String.eqb_eq |].
      split; [reflexivity |]. repeat split.
    + destruct (Run_build_existing sb engine b s Hrec) as (r & s' & -> & Hsettled & _).
      intros [= -> ->]. destruct Hsettled as (b1 & Hrec1 & _ & Hstatus & Harts).
      destruct (cached_report sb artifacts b1 Harts) as (cached & Hload & Hsame).
      exists b1, cached. auto.
  - destruct (State.Builds st) as [tbl|] eqn:Hbuilds.
    2: { rewrite (Run_build_fresh_panics sb engine s st Hst Hbuilds). discriminate. }
    destruct (Run_build_fresh sb engine s) as (r & s' & -> & Hpost).
    { exists st. split; [exact Hst | congruence]. }
    intros [= -> ->].
    destruct Hpost as [(c & b1 & [=] & _) | (b0 & _ & b1 & Hrec1 & _ & Hstatus & Harts)].
    destruct (cached_report sb artifacts b1 Harts) as (cached & Hload & Hsame).
    exists b1, cached. auto.
Qed.

(** X13. Once Run has returned artifacts, the next Run of the same build in
    that session, with whatever engine, returns cached copies of them: same
    ids, builder ids and files, each a CachedArtifact. The engine is not
    run, nothing is saved, the document and the world stay as they are, and
    two messages are said. *)
Theorem Run_again_returns_cached
        (sb : StatefulBuild.t) (engine engine' : Engine) (s s1 : Session)
        (artifacts : list Artifact.t) :
  StatefulBuild.Run sb engine s = (Return (inl artifacts), s1) ->
  exists cached msg1 msg2,
    StatefulBuild.Run sb engine' s1
    = (Return (inl cached), mkSession (manager s1) (world s1) (ui s1 ++ [UiSay msg1; UiSay msg2]))
    /\ map Artifact.Id cached = map Artifact.Id artifacts
    /\ map Artifact.BuilderId cached = map Artifact.BuilderId artifacts
    /\ map Artifact.Files cached = map Artifact.Files artifacts
    /\ Forall (fun a => exists c, a = Artifact.Cached c) cached.
Proof.
  intros Hrun.
  destruct (Run_returns_artifacts _ _ _ _ _ Hrun) as (b1 & cached & Hrec & Hstatus & Hload & Hsame).
  unfold recorded, build_record in Hrec.
  destruct (Manager.state (manager s1)) as [st1|] eqn:Hst1; [| discriminate].
  destruct (Run_complete_build_returns_cached sb engine' s1 st1 b1 Hst1 Hrec Hstatus)
    as (cached' & msg1 & msg2 & Hrun' & Hload' & _ & _ & _ & Hall).
  rewrite Hload in Hload'. injection Hload' as <-.
  exists cached, msg1, msg2. split; [exact Hrun' |].
  destruct Hsame as (H1 & H2 & H3). repeat split; try assumption.
  eapply Forall_impl; [exact Hall |]. intros a (c & -> & _). eauto.
Qed.

Lemma Run_again_returns_cached_witness :
  let s := mkSession (snd (fst (Manager.Load (NewManager "/t/state.json") quiet_world)))
                     (snd (Manager.Load (NewManager "/t/state.json") quiet_world)) [] in
  let sb := NewStatefulBuild (CoreBuild.mk "b" "null" [CoreBuild.mkProvisioner "shell"]) in
  let r := StatefulBuild.Run sb engine_makes_new s in
  exists cached msg1 msg2,
    StatefulBuild.Run sb (fun _ w => (inr (EngineError "must not run"), w)) (snd r)
    = (Return (inl cached),
       mkSession (manager (snd r)) (world (snd r)) (ui (snd r) ++ [UiSay msg1; UiSay msg2]))
    /\ map Artifact.Id cached = ["art-2"].
Proof.
  intros s sb r.
  destruct (Run_again_returns_cached sb engine_makes_new
              (fun _ w => (inr (EngineError "must not run"), w)) s (snd r)
              [Artifact.Built "art-2" "null" ["new.img"]])
    as (cached & msg1 & msg2 & Hrun & Hid & _).
  - vm_compute. reflexivity.
  - exists cached, msg1, msg2. split; [exact Hrun | exact Hid].
Defined.

(** X14. On a loaded document without a map of builds (a state file with no
    [builds] member decodes to one) Run panics with [assignment to entry in
    nil map] at its first SetBuild, before it says or saves anything. *)
Theorem Run_panics_without_builds_map
        (sb : StatefulBuild.t) (engine : Engine) (s : Session) (st : State.t) :
  Manager.state (manager s) = Some st ->
  State.Builds st = None ->
  StatefulBuild.Run sb engine s = (Panic "assignment to entry in nil map", s).
Proof.
  intros Hst Hb. unfold StatefulBuild.Run, Manager.State. rewrite Hst.
  unfold State.GetBuild, GoMap.index, GoMap.table. rewrite Hb. cbn.
  apply (Run_build_fresh_panics sb engine s st Hst Hb).
Qed.

Lemma Run_panics_without_builds_map_witness :
  let w := with_files {["/t/state.json" := with_quotes "{'version': 1, 'serial': 4}"]}
                      quiet_world in
  let r := Manager.Load (NewManager "/t/state.json") w in
  let s := mkSession (snd (fst r)) (snd r) [] in
  (exists st, fst (fst r) = inl st /\ State.Serial st = 4%Z /\ State.Builds st = None)
  /\ StatefulBuild.Run (NewStatefulBuild (CoreBuild.mk "b" "null" [])) engine_makes_new s
     = (Panic "assignment to entry in nil map", s).
Proof.
  intros w r s. split; [eexists; split; [vm_compute; reflexivity | split; reflexivity] |].
  apply (Run_panics_without_builds_map _ _ s (default State.zero (Manager.state (manager s))));
    vm_compute; reflexivity.
Defined.

(** X15. Run never goes on with a recorded instance. For a build on record
    that is not complete and has an instance, Run returns (an answer of the
    fresh build), the user interface is told that the resumption failed
    because it is not yet implemented, and the record of the build no longer
    has an instance. *)
Theorem Run_forgets_the_instance
        (sb : StatefulBuild.t) (engine : Engine) (s : Session) (b : Build.t) :
  recorded s (StatefulBuild.buildName sb) b ->
  Build.HasInstance b = true ->
  Build.IsComplete b = false ->
  exists r s1 b1,
    StatefulBuild.Run sb engine s = (Return r, s1)
    /\ recorded s1 (StatefulBuild.buildName sb) b1
    /\ Build.Instance b1 = None
    /\ resume_refused ∈ ui s1.
Proof.
  intros Hrec Hinst Hc.
  destruct (Run_build_existing sb engine b s Hrec) as (r & s1 & Hrun & Hsettled & Hui).
  rewrite Hinst in Hsettled. destruct Hsettled as (b1 & Hrec1 & Hi & _).
  exists r, s1, b1. split; [| split; [exact Hrec1 | split; [exact Hi | auto]]].
  unfold recorded, build_record in Hrec. unfold StatefulBuild.Run, Manager.State.
  destruct (Manager.state (manager s)) as [st|]; [| discriminate].
  rewrite Hrec, Hc. exact Hrun.
Qed.

(** X16. When Run returns an error, either no document was loaded (the error
    says so, and the session is as it was), or the build is on record in the
    document in memory, and the record tells how far the run came: status
    pending with the error that the initial state could not be saved, or
    status creating, or status failed with the text of the returned error as
    the recorded error. *)
Theorem Run_failure_is_recorded
        (sb : StatefulBuild.t) (engine : Engine) (s s1 : Session) (err : error) :
  StatefulBuild.Run sb engine s = (Return (inr err), s1) ->
  (err = ErrStateNotLoaded /\ s1 = s)
  \/ exists b1,
       recorded s1 (StatefulBuild.buildName sb) b1
       /\ ((exists c, err = ErrSaveInitialState c /\ Build.Status b1 = BuildStatusPending)
           \/ Build.Status b1 = BuildStatusCreating
           \/ (Build.Status b1 = BuildStatusFailed /\ Build.Error b1 = Error_text err)).
Proof.
  unfold StatefulBuild.Run, Manager.State.
  destruct (Manager.state (manager s)) as [st|] eqn:Hst.
  2: { intros [= <- <-]. left. auto. }
  intros Hrun. right. revert Hrun.
  destruct (State.GetBuild st (StatefulBuild.buildName sb)) as [b|] eqn:Hb.
  - assert (Hrec : recorded s (StatefulBuild.buildName sb) b).
    { unfold recorded, build_record. now rewrite Hst. }
    destruct (Build.IsComplete b) eqn:Hc.
    + unfold_cmd. unfold Say. cbn. discriminate.
    + destruct (Run_build_existing sb engine b s Hrec) as (r & s' & -> & Hsettled & _).
      intros [= -> ->]. destruct Hsettled as (b1 & Hrec1 & _ & Hcases).
      exists b1. split; [exact Hrec1 |]. right. exact Hcases.
  - destruct (State.Builds st) as [tbl|] eqn:Hbuilds.
    2: { rewrite (Run_build_fresh_panics sb engine s st Hst Hbuilds). discriminate. }
    destruct (Run_build_fresh sb engine s) as (r & s' & -> & Hpost).
    { exists st. split; [exact Hst | congruence]. }
    intros [= -> ->].
    destruct Hpost as [(c & b1 & [= ->] & Hrec1 & Hstatus) | (b0 & _ & b1 & Hrec1 & _ & Hcases)].
    + exists b1. split; [exact Hrec1 |]. left. eauto.
    + exists b1. split; [exact Hrec1 |]. right. exact Hcases.
Qed.

Lemma Run_forgets_the_instance_witness :
  exists r s1 b1,
    StatefulBuild.Run (NewStatefulBuild (CoreBuild.mk "b" "null" [])) engine_makes_new
                      session_with_instance = (Return r, s1)
    /\ recorded s1 "b" b1 /\ Build.Instance b1 = None /\ resume_refused ∈ ui s1.
Proof.
  apply (Run_forgets_the_instance (NewStatefulBuild (CoreBuild.mk "b" "null" [])) engine_makes_new
           session_with_instance
           (default Build.zero (build_record session_with_instance "b"))).
  - vm_compute. reflexivity.
  - reflexivity.
  - reflexivity.
Defined.

Lemma Run_failure_is_recorded_witness :
  let sb := NewStatefulBuild (CoreBuild.mk "b" "null" []) in
  let engine : Engine := fun _ w => (inr (EngineError "no capacity"), w) in
  let r := StatefulBuild.Run sb engine session_with_instance in
  exists b1, recorded (snd r) "b" b1 /\ Build.Status b1 = BuildStatusFailed
             /\ Build.Error b1 = "no capacity".
Proof.
  intros sb engine r.
  destruct (Run_failure_is_recorded sb engine session_with_instance (snd r)
              (EngineError "no capacity")) as [[[=] _] | (b1 & Hrec & Hcases)].
  - vm_compute. reflexivity.
  - exists b1. split; [exact Hrec |].
    assert (Hb1 : Some b1 = build_record (snd r) "b") by (symmetry; exact Hrec).
    vm_compute in Hb1. injection Hb1 as ->. split; reflexivity.
Defined.

(** ** The arguments of the command line *)

Lemma index_from_spec (x : string) (args : list string) (i : nat) :
  match index_from x args i with
  | Some j => exists before after,
      args = (before ++ (x :: after))%list /\ (x ∉ before) /\ j = i + length before
  | None => x ∉ args
  end.
Proof.
  revert i. induction args as [|arg rest IH]; intros i; simpl.
  - apply not_elem_of_nil.
  - destruct (String.eqb_spec arg x) as [-> | Hne].
    + exists [], rest. split; [reflexivity |]. split; [apply not_elem_of_nil | simpl; lia].
    + specialize (IH (S i)). destruct (index_from x rest (S i)) as [j|].
      * destruct IH as (before & after & -> & Hnotin & ->).
        exists (arg :: before), after. split; [reflexivity |]. split.
        -- apply not_elem_of_cons. auto.
        -- simpl. lia.
      * apply not_elem_of_cons. auto.
Qed.

(** X17. extractMachineReadable takes out the first argument equal to
    [-machine-readable], and only that one: it answers true with the
    arguments before and after it, in their order (later occurrences of the
    flag stay), and answers false with the arguments as they are when none
    is equal to the flag. *)
Theorem extractMachineReadable_first_only (args : list string) :
  let flag := "-machine-readable" in
  match extractMachineReadable args with
  | (result, true) =>
      exists before after,
        args = (before ++ (flag :: after))%list /\ (flag ∉ before)
        /\ result = (before ++ after)%list
  | (result, false) => (flag ∉ args) /\ result = args
  end.
Proof.
  intros flag. unfold extractMachineReadable.
  pose proof (index_from_spec flag args 0) as H. fold flag.
  destruct (index_from flag args 0) as [j|].
  - destruct H as (before & after & -> & Hnotin & ->).
    exists before, after. split; [reflexivity |]. split; [exact Hnotin |].
    simpl. rewrite take_app_length. f_equal.
    replace (S (length before)) with (length before + 1) by lia.
    rewrite <- drop_drop, drop_app_length. reflexivity.
  - auto.
Qed.

(** X18. extractTemplatePath returns the first argument that is neither a
    flag (an argument that begins with a dash) nor the argument after one of
    the seven flags that take a value. After flags that take no value of
    their own it returns the first argument without a dash; a value flag
    before it makes it skip one argument more, and return the empty string
    when that was the last; a flag that contains [=] never takes the next
    argument. *)
Theorem extractTemplatePath_skips_flags
        (flags : list string) (template : string) (rest : list string) :
  Forall lone_flag flags ->
  strings_HasPrefix template "-" = false ->
  extractTemplatePath (flags ++ template :: rest) = template
  /\ (forall flag value, strings_HasPrefix flag "-" = true -> needsValue flag = true ->
        extractTemplatePath (flags ++ flag :: value :: template :: rest) = template
        /\ extractTemplatePath (flags ++ [flag; template]) = "")
  /\ (forall flag, strings_HasPrefix flag "-" = true -> strings_Contains flag "=" = true ->
        lone_flag flag).
Proof.
  intros Hflags Htemplate. unfold extractTemplatePath.
  assert (Hskip : forall tail, extractTemplatePath_loop false (flags ++ tail)
                               = extractTemplatePath_loop false tail).
  { intros tail. induction Hflags as [|f fs [Hp Hn] _ IH]; [reflexivity |].
    simpl. now rewrite Hp, Hn. }
  split; [| split].
  - rewrite Hskip. simpl. now rewrite Htemplate.
  - intros flag value Hp Hn. rewrite !Hskip. simpl. now rewrite Hp, Hn, Htemplate.
  - intros flag Hp Hc. split; [exact Hp |]. unfold needsValue. now rewrite Hc.
Qed.

Lemma extractTemplatePath_skips_flags_witness :
  extractTemplatePath ["-force"; "-var=a=b"; "--var"; "t.pkr.hcl"; "x"] = "t.pkr.hcl".
Proof.
  apply (extractTemplatePath_skips_flags ["-force"; "-var=a=b"; "--var"] "t.pkr.hcl" ["x"]).
  - repeat constructor.
  - reflexivity.
Defined.

(** * What is saved is what is loaded *)

(** ** Integers in decimal *)

Lemma digit_char_facts (d : Z) :
  (0 <= d < 10)%Z ->
  Strconv.is_digit (Strconv.digit_char d) = true
  /\ (byte_of (Strconv.digit_char d) - 48 = d)%Z
  /\ (Ascii.eqb (Strconv.digit_char d) "0" = (d =? 0)%Z)
  /\ Ascii.eqb (Strconv.digit_char d) "-" = false.
Proof.
  intros H.
  assert (d = 0 \/ d = 1 \/ d = 2 \/ d = 3 \/ d = 4 \/ d = 5 \/ d = 6 \/ d = 7 \/ d = 8
          \/ d = 9)%Z as Hd by lia.
  repeat (destruct Hd as [-> | Hd]; [repeat split |]). subst. repeat split.
Qed.

Lemma digits_acc (f : nat) (x : Z) (acc : string) :
  Strconv.digits f x acc = (Strconv.digits f x "" ++ acc)%string.
Proof.
  revert x acc. induction f as [|f IH]; intros x acc; [reflexivity |].
  cbn [Strconv.digits]. destruct (x <? 10)%Z; [reflexivity |].
  rewrite IH, (IH _ (String _ "")), append_assoc. reflexivity.
Qed.

Lemma digits_more (f : nat) (x : Z) :
  (10 <= x)%Z ->
  Strconv.digits (S f) x ""
  = (Strconv.digits f (x / 10) "" ++ String (Strconv.digit_char (x mod 10)) "")%string.
Proof.
  intros H. cbn [Strconv.digits]. destruct (Z.ltb_spec x 10); [lia |]. apply digits_acc.
Qed.

Lemma digits_one (f : nat) (x : Z) :
  (x < 10)%Z -> Strconv.digits (S f) x "" = String (Strconv.digit_char (x mod 10)) "".
Proof.
  intros H. cbn [Strconv.digits]. destruct (Z.ltb_spec x 10); [reflexivity | lia].
Qed.

Lemma nrun_app (st : Json.nstate) (s t : string) :
  Json.nrun st (s ++ t) = Json.nrun (Json.nrun st s) t.
Proof.
  revert st. induction s as [|c s IH]; intros st; [reflexivity |].
  rewrite append_cons. cbn [Json.nrun]. apply IH.
Qed.

Lemma digits_value_app (s t : string) (a : Z) :
  Strconv.digits_value (s ++ t) a
  = match Strconv.digits_value s a with
    | Some a' => Strconv.digits_value t a'
    | None => None
    end.
Proof.
  revert a. induction s as [|c s IH]; intros a; [reflexivity |].
  rewrite append_cons. cbn [Strconv.digits_value].
  destruct (Strconv.is_digit c); [apply IH | reflexivity].
Qed.

Lemma all_chars_app (f : ascii -> bool) (s t : string) :
  all_chars f (s ++ t) = all_chars f s && all_chars f t.
Proof.
  induction s as [|c s IH]; [reflexivity |].
  rewrite append_cons. cbn [all_chars]. now rewrite IH, andb_assoc.
Qed.

Lemma pow10_S (f : nat) : (10 ^ Z.of_nat (S f) = 10 * 10 ^ Z.of_nat f)%Z.
Proof. rewrite Nat2Z.inj_succ, Z.pow_succ_r; lia. Qed.

(** The decimal digits of a number, as the scanner and [ParseInt] take
    them. *)
Lemma digits_spec (f : nat) (x : Z) :
  (0 <= x < 10 ^ Z.of_nat (S f))%Z ->
  let ds := Strconv.digits (S f) x "" in
  (forall st, st = Json.NStart \/ st = Json.NMinus ->
              Json.nrun st ds = if (x =? 0)%Z then Json.NZero else Json.NInt)
  /\ all_chars Strconv.is_digit ds = true
  /\ (exists c ds', ds = String c ds')
  /\ (forall a, exists p, Strconv.digits_value ds a = Some (a * p + x)%Z).
Proof.
  revert x. induction f as [|f IH]; intros x Hx ds.
  - assert (x < 10)%Z by (change (10 ^ Z.of_nat 1)%Z with 10%Z in Hx; lia).
    subst ds. rewrite digits_one by assumption. rewrite Z.mod_small by lia.
    destruct (digit_char_facts x) as (Hd & Hv & Hz & Hm); [lia |].
    split; [| split; [| split]].
    + intros st [-> | ->]; cbn [Json.nrun Json.nstep]; rewrite ?Hm, Hz, Hd;
        destruct (x =? 0)%Z; reflexivity.
    + cbn. now rewrite Hd.
    + eauto.
    + intros a. exists 10%Z. cbn. rewrite Hd, Hv. f_equal. lia.
  - destruct (Z.lt_ge_cases x 10) as [Hsmall | Hbig].
    + subst ds. rewrite digits_one by assumption. rewrite Z.mod_small by lia.
      destruct (digit_char_facts x) as (Hd & Hv & Hz & Hm); [lia |].
      split; [| split; [| split]].
      * intros st [-> | ->]; cbn [Json.nrun Json.nstep]; rewrite ?Hm, Hz, Hd;
          destruct (x =? 0)%Z; reflexivity.
      * cbn. now rewrite Hd.
      * eauto.
      * intros a. exists 10%Z. cbn. rewrite Hd, Hv. f_equal. lia.
    + subst ds. rewrite digits_more by assumption.
      rewrite pow10_S in Hx.
      assert (Hq : (0 <= x / 10 < 10 ^ Z.of_nat (S f))%Z).
      { split; [apply Z.div_pos; lia | apply Z.div_lt_upper_bound; lia]. }
      assert (Hq1 : (1 <= x / 10)%Z) by (apply Z.div_le_lower_bound; lia).
      destruct (IH _ Hq) as (Hrun & Hall & (c & ds' & Hne) & Hval).
      destruct (digit_char_facts (x mod 10)) as (Hd & Hv & Hz & Hm).
      { apply Z.mod_pos_bound. lia. }
      split; [| split; [| split]].
      * intros st Hst. rewrite nrun_app, (Hrun st Hst).
        destruct (Z.eqb_spec (x / 10) 0); [lia |]. destruct (Z.eqb_spec x 0); [lia |].
        cbn [Json.nrun Json.nstep]. now rewrite Hd.
      * rewrite all_chars_app, Hall. cbn. now rewrite Hd.
      * rewrite Hne, append_cons. eauto.
      * intros a. destruct (Hval a) as (p & Hp). exists (10 * p)%Z.
        rewrite digits_value_app, Hp. cbn. rewrite Hd, Hv. f_equal.
        pose proof (Z.div_mod x 10). lia.
Qed.

Lemma in_range_bounds (x : Z) :
  Int.in_range x = true -> (- 10 ^ Z.of_nat 20 < x < 10 ^ Z.of_nat 20)%Z.
Proof.
  unfold Int.in_range. intros [H1 H2]%andb_true_iff.
  apply Z.leb_le in H1, H2.
  assert (Int.MaxInt < 10 ^ Z.of_nat 20)%Z by (vm_compute; reflexivity).
  assert (- 10 ^ Z.of_nat 20 < Int.MinInt)%Z by (vm_compute; reflexivity).
  lia.
Qed.

Lemma ParseInt_digits (c : ascii) (ds : string) :
  Ascii.eqb c "-" = false ->
  Strconv.ParseInt (String c ds)
  = match Strconv.digits_value (String c ds) 0 with
    | Some x => if Int.in_range x then Some x else None
    | None => None
    end.
Proof.
  intros H. unfold Strconv.ParseInt.
  destruct c as [[] [] [] [] [] [] [] []]; try reflexivity; discriminate.
Qed.

(** The decimal text of an [int] is read back as that [int]. *)
Lemma ParseInt_Itoa (x : Z) :
  Int.in_range x = true -> Strconv.ParseInt (Strconv.Itoa x) = Some x.
Proof.
  intros Hr. pose proof (in_range_bounds x Hr) as Hb. unfold Strconv.Itoa.
  destruct (Z.ltb_spec x 0) as [Hneg | Hpos].
  - destruct (digits_spec 19 (- x)) as (_ & Hall & (c & ds' & Hne) & Hval); [lia |].
    destruct (Hval 0%Z) as (p & Hp). rewrite Hne in *.
    replace (0 * p + - x)%Z with (- x)%Z in Hp by lia.
    unfold Strconv.ParseInt. rewrite Hp. cbn [option_map].
    rewrite Z.opp_involutive, Hr. reflexivity.
  - destruct (digits_spec 19 x) as (_ & Hall & (c & ds' & Hne) & Hval); [lia |].
    destruct (Hval 0%Z) as (p & Hp). rewrite Hne in *.
    cbn [all_chars] in Hall. apply andb_true_iff in Hall as [Hc _].
    replace (0 * p + x)%Z with x in Hp by lia.
    rewrite ParseInt_digits.
    + rewrite Hp. now rewrite Hr.
    + destruct c as [[] [] [] [] [] [] [] []]; try reflexivity; discriminate.
Qed.

(** ** Numbers, as the scanner takes them *)

Lemma lex_number_chars (ds acc tail : string) :
  all_chars Json.is_number_char ds = true ->
  Json.lex (Json.MNum acc) (ds ++ tail) = Json.lex (Json.MNum (acc ++ ds)) tail.
Proof.
  revert acc. induction ds as [|c ds IH]; intros acc Hall.
  - now rewrite append_nil_l, append_nil_r.
  - cbn [all_chars] in Hall. apply andb_true_iff in Hall as [Hc Hall].
    rewrite append_cons. cbn [Json.lex Json.step]. rewrite Hc. cbn [app].
    rewrite IH by exact Hall. unfold Json.snoc. rewrite append_assoc. reflexivity.
Qed.

Lemma lex_number_end (lit tail : string) :
  Json.number_ok lit = true ->
  JsonText.delimited tail ->
  Json.lex (Json.MNum lit) tail = Json.TNumber lit :: Json.lex Json.MTop tail.
Proof.
  intros Hok Hd. destruct tail as [|c tail].
  - cbn. unfold Json.number_token. now rewrite Hok.
  - destruct Hd as [Hn _]. cbn [Json.lex Json.step]. rewrite Hn.
    unfold Json.emit_then_top, Json.number_token. rewrite Hok.
    destruct (Json.step_top c) as [ts m]. reflexivity.
Qed.

Lemma is_digit_number_char (c : ascii) :
  Strconv.is_digit c = true -> Json.is_number_char c = true.
Proof. unfold Json.is_number_char. now intros ->. Qed.

Lemma all_chars_impl (f g : ascii -> bool) (s : string) :
  (forall c, f c = true -> g c = true) -> all_chars f s = true -> all_chars g s = true.
Proof.
  intros Hfg. induction s as [|c s IH]; [reflexivity |]. cbn.
  intros [Hc Hs]%andb_true_iff. rewrite (Hfg _ Hc). now apply IH.
Qed.

Lemma step_top_digit (c : ascii) :
  Strconv.is_digit c = true -> Json.step_top c = ([], Some (Json.MNum (String c ""))).
Proof.
  intros H. unfold Json.step_top. rewrite H.
  destruct c as [[] [] [] [] [] [] [] []]; try reflexivity; discriminate.
Qed.

(** The decimal text of an [int] is one number token. *)
Lemma lex_Itoa (x : Z) (tail : string) :
  Int.in_range x = true ->
  JsonText.delimited tail ->
  Json.lex Json.MTop (Strconv.Itoa x ++ tail)
  = Json.TNumber (Strconv.Itoa x) :: Json.lex Json.MTop tail.
Proof.
  intros Hr Hd. pose proof (in_range_bounds x Hr) as Hb. unfold Strconv.Itoa.
  destruct (Z.ltb_spec x 0) as [Hneg | Hpos].
  - destruct (digits_spec 19 (- x)) as (Hrun & Hall & _ & _); [lia |].
    rewrite append_cons.
    change (Json.lex Json.MTop (String "-" ?s)) with (Json.lex (Json.MNum "-") s).
    rewrite lex_number_chars by (eapply all_chars_impl; [apply is_digit_number_char | exact Hall]).
    apply lex_number_end; [| exact Hd].
    unfold Json.number_ok. change ("-" ++ ?s)%string with (String "-" s).
    cbn [Json.nrun Json.nstep]. change (Ascii.eqb "-" "-") with true. cbv iota.
    rewrite (Hrun Json.NMinus) by auto. now destruct (- x =? 0)%Z.
  - destruct (digits_spec 19 x) as (Hrun & Hall & (c & ds' & Hne) & _); [lia |].
    assert (Hok : Json.number_ok (Strconv.digits 20 x "") = true).
    { unfold Json.number_ok. rewrite (Hrun Json.NStart) by auto. now destruct (x =? 0)%Z. }
    rewrite Hne in *. cbn [all_chars] in Hall. apply andb_true_iff in Hall as [Hc Hall].
    rewrite append_cons. cbn [Json.lex Json.step]. rewrite (step_top_digit c Hc). cbn [app].
    rewrite lex_number_chars by (eapply all_chars_impl; [apply is_digit_number_char | exact Hall]).
    apply lex_number_end; [exact Hok | exact Hd].
Qed.

(** ** The text of a value, as the scanner takes it *)

Lemma print_Array (n : nat) (v0 : Json.value) (vs : list Json.value) :
  Json.print n (Json.Array (v0 :: vs))
  = "[" ++ Json.newline (S n) ++ Json.print (S n) v0 ++ JsonText.print_elements n vs
        ++ Json.newline n ++ "]".
Proof.
  cbn [Json.print]. do 3 f_equal. f_equal.
  induction vs as [|x vs IH]; [reflexivity |].
  cbn [JsonText.print_elements]. now rewrite IH.
Qed.

Lemma print_Object (n : nat) (k0 : string) (v0 : Json.value) (ms : list (string * Json.value)) :
  Json.print n (Json.Object ((k0, v0) :: ms))
  = "{" ++ Json.newline (S n) ++ Json.quote k0 ++ ": " ++ Json.print (S n) v0
        ++ JsonText.print_members n ms ++ Json.newline n ++ "}".
Proof.
  cbn [Json.print]. do 5 f_equal. f_equal.
  induction ms as [|[k x] ms IH]; [reflexivity |].
  cbn [JsonText.print_members]. now rewrite IH.
Qed.

Lemma toks_Array (v0 : Json.value) (vs : list Json.value) :
  JsonText.toks (Json.Array (v0 :: vs))
  = (Json.TLBracket :: JsonText.toks v0 ++ JsonText.toks_elements vs ++ [Json.TRBracket])%list.
Proof. reflexivity. Qed.

Lemma toks_Object (k0 : string) (v0 : Json.value) (ms : list (string * Json.value)) :
  JsonText.toks (Json.Object ((k0, v0) :: ms))
  = (Json.TLBrace :: Json.TString k0 :: Json.TColon :: JsonText.toks v0
       ++ JsonText.toks_members ms ++ [Json.TRBrace])%list.
Proof. reflexivity. Qed.

Lemma lex_word_end (w : string) (tok : Json.token) (tail : string) :
  Json.word_token w = tok -> tok <> Json.TBad ->
  JsonText.delimited tail ->
  Json.lex (Json.MWord w) tail = tok :: Json.lex Json.MTop tail.
Proof.
  intros Hw Hok Hd. destruct tail as [|c tail].
  - cbn. now rewrite Hw.
  - destruct Hd as [_ Hl]. cbn [Json.lex Json.step]. rewrite Hl.
    unfold Json.emit_then_top. rewrite Hw.
    destruct (Json.step_top c) as [ts m]. destruct tok; try reflexivity. contradiction.
Qed.

Lemma delimited_newline (n : nat) (tail : string) : JsonText.delimited (Json.newline n ++ tail).
Proof. unfold Json.newline. rewrite append_assoc, append_cons. split; reflexivity. Qed.

Lemma delimited_comma (tail : string) : JsonText.delimited ("," ++ tail).
Proof. rewrite append_cons. split; reflexivity. Qed.

Lemma delimited_elements (n : nat) (vs : list Json.value) (tail : string) :
  JsonText.delimited (JsonText.print_elements n vs ++ Json.newline n ++ tail).
Proof.
  destruct vs as [|x vs]; [apply delimited_newline |].
  cbn [JsonText.print_elements]. rewrite append_assoc. apply delimited_comma.
Qed.

Lemma delimited_members (n : nat) (ms : list (string * Json.value)) (tail : string) :
  JsonText.delimited (JsonText.print_members n ms ++ Json.newline n ++ tail).
Proof.
  destruct ms as [|[k x] ms]; [apply delimited_newline |].
  cbn [JsonText.print_members]. rewrite append_assoc. apply delimited_comma.
Qed.

Lemma lex_lbracket (tail : string) :
  Json.lex Json.MTop (String "[" tail) = Json.TLBracket :: Json.lex Json.MTop tail.
Proof. reflexivity. Qed.

Lemma lex_rbracket (tail : string) :
  Json.lex Json.MTop (String "]" tail) = Json.TRBracket :: Json.lex Json.MTop tail.
Proof. reflexivity. Qed.

Lemma size_element (x : Json.value) (vs : list Json.value) :
  x ∈ vs -> JsonText.size x < JsonText.size (Json.Array vs).
Proof.
  induction vs as [|y vs IH]; intros H; [inversion H |].
  change (JsonText.size (Json.Array (y :: vs)))
    with (S (JsonText.size y + fold_right (fun x n => JsonText.size x + n) 0 vs)).
  apply elem_of_cons in H as [-> | H]; [lia |].
  specialize (IH H).
  change (JsonText.size (Json.Array vs))
    with (S (fold_right (fun x n => JsonText.size x + n) 0 vs)) in IH.
  lia.
Qed.

Lemma size_member (k : string) (x : Json.value) (ms : list (string * Json.value)) :
  (k, x) ∈ ms -> JsonText.size x < JsonText.size (Json.Object ms).
Proof.
  induction ms as [|[k' y] ms IH]; intros H; [inversion H |].
  change (JsonText.size (Json.Object ((k', y) :: ms)))
    with (S (JsonText.size y + fold_right (fun kx n => JsonText.size (snd kx) + n) 0 ms)).
  apply elem_of_cons in H as [[= -> ->] | H]; [lia |].
  specialize (IH H).
  change (JsonText.size (Json.Object ms))
    with (S (fold_right (fun kx n => JsonText.size (snd kx) + n) 0 ms)) in IH.
  lia.
Qed.

Lemma integers_element (x : Json.value) (vs : list Json.value) :
  JsonText.integers (Json.Array vs) -> x ∈ vs -> JsonText.integers x.
Proof.
  induction vs as [|y vs IH]; intros H Hin; [inversion Hin |].
  change (JsonText.integers y /\ JsonText.integers (Json.Array vs)) in H.
  destruct H as [H1 H2]. apply elem_of_cons in Hin as [-> | Hin]; auto.
Qed.

Lemma integers_member (k : string) (x : Json.value) (ms : list (string * Json.value)) :
  JsonText.integers (Json.Object ms) -> (k, x) ∈ ms -> JsonText.integers x.
Proof.
  induction ms as [|[k' y] ms IH]; intros H Hin; [inversion Hin |].
  change (JsonText.integers y /\ JsonText.integers (Json.Object ms)) in H.
  destruct H as [H1 H2]. apply elem_of_cons in Hin as [[= -> ->] | Hin]; auto.
Qed.

Lemma lex_elements (n : nat) (vs : list Json.value) (tail : string) :
  (forall x m t, x ∈ vs -> JsonText.delimited t ->
                 Json.lex Json.MTop (Json.print m x ++ t)
                 = (JsonText.toks x ++ Json.lex Json.MTop t)%list) ->
  Json.lex Json.MTop (JsonText.print_elements n vs ++ Json.newline n ++ String "]" tail)
  = (JsonText.toks_elements vs ++ Json.TRBracket :: Json.lex Json.MTop tail)%list.
Proof.
  induction vs as [|x vs IHvs]; intros Hvs.
  - cbn [JsonText.print_elements JsonText.toks_elements app]. rewrite append_nil_l.
    now rewrite lex_newline, lex_rbracket.
  - cbn [JsonText.print_elements JsonText.toks_elements]. flatten_appends.
    rewrite lex_comma, lex_newline.
    rewrite Hvs by (try left; apply delimited_elements).
    cbn [app]. f_equal. rewrite <- app_assoc. f_equal.
    apply IHvs. intros y m t Hy. apply Hvs. now right.
Qed.

Lemma lex_members (n : nat) (ms : list (string * Json.value)) (tail : string) :
  (forall k x m t, (k, x) ∈ ms -> JsonText.delimited t ->
                   Json.lex Json.MTop (Json.print m x ++ t)
                   = (JsonText.toks x ++ Json.lex Json.MTop t)%list) ->
  Json.lex Json.MTop (JsonText.print_members n ms ++ Json.newline n ++ String "}" tail)
  = (JsonText.toks_members ms ++ Json.TRBrace :: Json.lex Json.MTop tail)%list.
Proof.
  induction ms as [|[k x] ms IHms]; intros Hms.
  - cbn [JsonText.print_members JsonText.toks_members app]. rewrite append_nil_l.
    now rewrite lex_newline, lex_rbrace.
  - cbn [JsonText.print_members JsonText.toks_members]. flatten_appends.
    rewrite lex_comma, lex_newline, lex_quote.
    rewrite ?append_cons, ?append_nil_l, lex_colon, lex_space.
    rewrite (Hms k) by (try left; apply delimited_members).
    cbn [app]. do 3 f_equal. rewrite <- app_assoc. f_equal.
    apply IHms. intros k' y m t Hy. apply (Hms k'). now right.
Qed.

(** The scanner reads the text of a value as the tokens of the value. *)
Lemma lex_print_bounded (bound : nat) :
  forall (v : Json.value) (n : nat) (tail : string),
    JsonText.size v <= bound ->
    JsonText.integers v ->
    JsonText.delimited tail ->
    Json.lex Json.MTop (Json.print n v ++ tail)
    = (JsonText.toks v ++ Json.lex Json.MTop tail)%list.
Proof.
  induction bound as [|bound IH]; intros v n tail Hsize Hint Hd.
  { destruct v; cbn in Hsize; lia. }
  destruct v as [| [] | lit | s | vs | ms].
  - change (Json.lex Json.MTop (Json.print n Json.Null ++ tail))
      with (Json.lex (Json.MWord "null") tail).
    now rewrite (lex_word_end "null" Json.TNull).
  - change (Json.lex Json.MTop (Json.print n (Json.Bool true) ++ tail))
      with (Json.lex (Json.MWord "true") tail).
    now rewrite (lex_word_end "true" Json.TTrue).
  - change (Json.lex Json.MTop (Json.print n (Json.Bool false) ++ tail))
      with (Json.lex (Json.MWord "false") tail).
    now rewrite (lex_word_end "false" Json.TFalse).
  - destruct Hint as (x & Hr & ->). cbn [Json.print JsonText.toks].
    now rewrite lex_Itoa.
  - cbn [Json.print JsonText.toks]. now rewrite lex_quote.
  - destruct vs as [|v0 vs]; [reflexivity |].
    rewrite print_Array, toks_Array.
    assert (Hel : forall x m t, x ∈ v0 :: vs -> JsonText.delimited t ->
                                Json.lex Json.MTop (Json.print m x ++ t)
                                = (JsonText.toks x ++ Json.lex Json.MTop t)%list).
    { intros x m t Hx Ht. apply IH; [| now apply (integers_element x (v0 :: vs)) | exact Ht].
      pose proof (size_element x (v0 :: vs) Hx). lia. }
    flatten_appends. rewrite lex_lbracket, lex_newline.
    rewrite Hel by (try left; apply delimited_elements).
    cbn [app]. f_equal. rewrite <- !app_assoc. f_equal. cbn [app].
    apply lex_elements. intros x m t Hx. apply Hel. now right.
  - destruct ms as [|[k0 v0] ms]; [reflexivity |].
    rewrite print_Object, toks_Object.
    assert (Hel : forall k x m t, (k, x) ∈ (k0, v0) :: ms -> JsonText.delimited t ->
                                  Json.lex Json.MTop (Json.print m x ++ t)
                                  = (JsonText.toks x ++ Json.lex Json.MTop t)%list).
    { intros k x m t Hx Ht.
      apply IH; [| now apply (integers_member k x ((k0, v0) :: ms)) | exact Ht].
      pose proof (size_member k x ((k0, v0) :: ms) Hx). lia. }
    flatten_appends. rewrite lex_lbrace, lex_newline, lex_quote.
    rewrite ?append_cons, ?append_nil_l, lex_colon, lex_space.
    rewrite (Hel k0) by (try left; apply delimited_members).
    cbn [app]. do 3 f_equal. rewrite <- !app_assoc. f_equal. cbn [app].
    apply lex_members. intros k x m t Hx. apply (Hel k). now right.
Qed.

Lemma lex_print (v : Json.value) (n : nat) (tail : string) :
  JsonText.integers v ->
  JsonText.delimited tail ->
  Json.lex Json.MTop (Json.print n v ++ tail)
  = (JsonText.toks v ++ Json.lex Json.MTop tail)%list.
Proof. now apply (lex_print_bounded (JsonText.size v)). Qed.

(** ** The tokens of a value, as the parser takes them *)

Lemma toks_head (v : Json.value) :
  exists t ts, JsonText.toks v = t :: ts /\ t <> Json.TRBracket /\ t <> Json.TRBrace.
Proof.
  destruct v as [| [] | lit | s | [|v0 vs] | [|[k0 v0] ms]];
    eexists _, _; (split; [reflexivity | split; discriminate]).
Qed.

Lemma toks_length (v : Json.value) : 1 <= length (JsonText.toks v).
Proof. destruct (toks_head v) as (t & ts & -> & _). simpl. lia. Qed.

Lemma parse_elements_toks (vs : list Json.value) :
  forall (v0 : Json.value) (acc : list Json.value) (rest : list Json.token) (f : nat),
    (forall x f' r, x ∈ v0 :: vs -> 2 * length (JsonText.toks x) <= f' ->
                    Json.parse_value f' (JsonText.toks x ++ r) = Some (x, r)) ->
    2 * (length (JsonText.toks v0) + length (JsonText.toks_elements vs)) + 1 <= f ->
    Json.parse_elements f (JsonText.toks v0 ++ JsonText.toks_elements vs
                             ++ Json.TRBracket :: rest) acc
    = Some (Json.Array (rev acc ++ v0 :: vs), rest).
Proof.
  induction vs as [|x vs IH]; intros v0 acc rest f Hall Hf;
    (destruct f as [|f]; [lia |]); cbn [Json.parse_elements].
  - rewrite Hall by (try left; cbn [JsonText.toks_elements length] in Hf; lia).
    cbn [JsonText.toks_elements app rev]. reflexivity.
  - cbn [JsonText.toks_elements length] in Hf. rewrite length_app in Hf.
    pose proof (toks_length v0). pose proof (toks_length x).
    rewrite Hall by (try left; lia).
    cbn [JsonText.toks_elements app]. rewrite <- app_assoc.
    rewrite IH.
    + cbn [rev]. rewrite <- app_assoc. reflexivity.
    + intros y f' r Hy. apply Hall. now right.
    + lia.
Qed.

Lemma parse_members_toks (ms : list (string * Json.value)) :
  forall (k0 : string) (v0 : Json.value) (acc : list (string * Json.value))
         (rest : list Json.token) (f : nat),
    (forall k x f' r, (k, x) ∈ (k0, v0) :: ms -> 2 * length (JsonText.toks x) <= f' ->
                      Json.parse_value f' (JsonText.toks x ++ r) = Some (x, r)) ->
    2 * (length (JsonText.toks v0) + length (JsonText.toks_members ms)) + 1 <= f ->
    Json.parse_members f (Json.TString k0 :: Json.TColon :: JsonText.toks v0
                            ++ JsonText.toks_members ms ++ Json.TRBrace :: rest) acc
    = Some (Json.Object (rev acc ++ (k0, v0) :: ms), rest).
Proof.
  induction ms as [|[k x] ms IH]; intros k0 v0 acc rest f Hall Hf;
    (destruct f as [|f]; [lia |]); cbn [Json.parse_members].
  - rewrite (Hall k0) by (try left; cbn [JsonText.toks_members length] in Hf; lia).
    cbn [JsonText.toks_members app rev]. reflexivity.
  - cbn [JsonText.toks_members length] in Hf. rewrite length_app in Hf.
    pose proof (toks_length v0). pose proof (toks_length x).
    rewrite (Hall k0) by (try left; lia).
    cbn [JsonText.toks_members app]. rewrite <- app_assoc.
    rewrite IH.
    + cbn [rev]. rewrite <- app_assoc. reflexivity.
    + intros k' y f' r Hy. apply (Hall k'). now right.
    + lia.
Qed.

Lemma parse_value_bounded (bound : nat) :
  forall (v : Json.value) (f : nat) (rest : list Json.token),
    JsonText.size v <= bound ->
    2 * length (JsonText.toks v) <= f ->
    Json.parse_value f (JsonText.toks v ++ rest) = Some (v, rest).
Proof.
  induction bound as [|bound IH]; intros v f rest Hsize Hf.
  { destruct v; cbn in Hsize; lia. }
  pose proof (toks_length v) as Hlen.
  destruct f as [|f]; [lia |].
  destruct v as [| [] | lit | s | vs | ms]; try reflexivity.
  - destruct vs as [|v0 vs]; [reflexivity |].
    rewrite toks_Array in *. cbn [app length] in *. rewrite !length_app in Hf.
    cbn [length] in Hf.
    destruct (toks_head v0) as (t & ts & Ht & Hnb & _).
    assert (Hgo : Json.parse_value (S f) (Json.TLBracket :: JsonText.toks v0
                    ++ (JsonText.toks_elements vs ++ [Json.TRBracket]) ++ rest)
                  = Json.parse_elements f (JsonText.toks v0
                      ++ (JsonText.toks_elements vs ++ [Json.TRBracket]) ++ rest) []).
    { rewrite Ht. cbn [app Json.parse_value]. destruct t; try reflexivity. contradiction. }
    rewrite <- app_assoc, Hgo, <- app_assoc. cbn [app].
    rewrite parse_elements_toks; [reflexivity | | lia].
    intros x f' r Hx Hf'. apply IH; [| exact Hf'].
    pose proof (size_element x (v0 :: vs) Hx). lia.
  - destruct ms as [|[k0 v0] ms]; [reflexivity |].
    rewrite toks_Object in *. cbn [app length] in *. rewrite !length_app in Hf.
    cbn [length] in Hf.
    rewrite <- !app_assoc. cbn [app Json.parse_value].
    rewrite parse_members_toks; [reflexivity | | lia].
    intros k x f' r Hx Hf'. apply IH; [| exact Hf'].
    pose proof (size_member k x ((k0, v0) :: ms) Hx). lia.
Qed.

(** An encoded value is decoded to itself. *)
Lemma parse_first_Encode (v : Json.value) :
  JsonText.integers v -> Json.parse_first (Json.Encode v) = Some v.
Proof.
  intros Hint. unfold Json.parse_first, Json.Encode, Json.tokens.
  rewrite lex_print by (try assumption; split; reflexivity).
  change (Json.lex Json.MTop (String "010" "")) with (@nil Json.token).
  rewrite (parse_value_bounded (JsonText.size v)); [reflexivity | lia |].
  unfold Json.parse_fuel. rewrite length_app. lia.
Qed.

Lemma parse_MarshalIndent (v : Json.value) :
  JsonText.integers v -> Json.parse (Json.MarshalIndent v) = Some v.
Proof.
  intros Hint. unfold Json.parse, Json.MarshalIndent, Json.tokens.
  rewrite <- (append_nil_r (Json.print 0 v)).
  rewrite lex_print by (try assumption; exact I).
  change (Json.lex Json.MTop "") with (@nil Json.token).
  rewrite (parse_value_bounded (JsonText.size v)); [reflexivity | lia |].
  unfold Json.parse_fuel. rewrite length_app. lia.
Qed.

(** ** The members of an object, field by field *)

Lemma field_nil {B : Type} (d : Json.decoder B) (name : string) (cur : B) :
  Json.field d name [] cur = Some cur.
Proof. reflexivity. Qed.

Lemma field_skip {B : Type} (d : Json.decoder B) (name k : string) (v : Json.value)
      (ms : list (string * Json.value)) (cur : B) :
  String.eqb (Json.lower k) name = false ->
  Json.field d name ((k, v) :: ms) cur = Json.field d name ms cur.
Proof. intros H. cbn [Json.field]. now rewrite H. Qed.

Lemma field_take {B : Type} (d : Json.decoder B) (name k : string) (v : Json.value)
      (ms : list (string * Json.value)) (cur c : B) :
  String.eqb (Json.lower k) name = true ->
  d cur v = Some c ->
  Json.field d name ((k, v) :: ms) cur = Json.field d name ms c.
Proof. intros H Hd. cbn [Json.field]. now rewrite H, Hd. Qed.

Lemma field_skip_unless {B : Type} (d : Json.decoder B) (name k : string) (e : bool)
      (v : Json.value) (ms : list (string * Json.value)) (cur : B) :
  String.eqb (Json.lower k) name = false ->
  Json.field d name (Json.unless e k v ++ ms) cur = Json.field d name ms cur.
Proof. intros H. destruct e; [reflexivity |]. now apply field_skip. Qed.

Lemma field_take_unless {B : Type} (d : Json.decoder B) (name k : string) (e : bool)
      (v : Json.value) (ms : list (string * Json.value)) (cur c : B) :
  String.eqb (Json.lower k) name = true ->
  d cur v = Some c ->
  (e = true -> c = cur) ->
  Json.field d name (Json.unless e k v ++ ms) cur = Json.field d name ms c.
Proof.
  intros H Hd He. destruct e.
  - now rewrite He.
  - now apply field_take.
Qed.

(** ** Values that are decoded to what they were encoded from *)

Lemma into_int_of_int (cur x : Z) :
  Int.in_range x = true -> Json.into_int cur (Json.of_int x) = Some x.
Proof. intros H. cbn. now apply ParseInt_Itoa. Qed.

Lemma into_elements_map {A : Type} (d : Json.decoder A) (zero : A) (f : A -> Json.value)
      (l : list A) :
  Forall (fun x => d zero (f x) = Some x) l ->
  Json.into_elements d zero (map f l) = Some l.
Proof.
  induction 1 as [|x l Hx _ IH]; [reflexivity |].
  cbn [map Json.into_elements]. now rewrite Hx, IH.
Qed.

Lemma into_strings_map (cur l : list string) :
  l <> [] -> Json.into_strings cur (Json.Array (map Json.Str l)) = Some l.
Proof.
  intros _. cbn. apply into_elements_map. apply Forall_forall. reflexivity.
Qed.

Lemma into_slice_of_slice {A : Type} (d : Json.decoder A) (zero : A) (f : A -> Json.value)
      (cur l : option (list A)) :
  (forall x, x ∈ elems l -> d zero (f x) = Some x) ->
  Json.into_slice d zero cur (Json.of_slice f l) = Some l.
Proof.
  intros H. destruct l as [l|]; [| reflexivity]. cbn.
  rewrite into_elements_map; [reflexivity |]. apply Forall_forall. exact H.
Qed.

Lemma into_list_map {A : Type} (d : Json.decoder A) (zero : A) (f : A -> Json.value)
      (cur l : list A) :
  (forall x, x ∈ l -> d zero (f x) = Some x) ->
  Build.into_list d zero cur (Json.Array (map f l)) = Some l.
Proof.
  intros H. unfold Build.into_list. cbn.
  rewrite into_elements_map; [reflexivity |]. apply Forall_forall. exact H.
Qed.

(** The entries of a map, inserted one by one in any order, make the
    map. *)
Lemma into_entries_map {A : Type} (d : Json.decoder A) (zero : A) (f : A -> Json.value)
      (l : list (string * A)) (cur : gmap string A) :
  (forall kv, kv ∈ l -> d zero (f (snd kv)) = Some (snd kv)) ->
  Json.into_entries d zero (map (fun kv => (fst kv, f (snd kv))) l) cur
  = Some (list_to_map (rev l) ∪ cur).
Proof.
  revert cur. induction l as [|[k v] l IH]; intros cur H.
  - cbn. now rewrite (left_id_L ∅ (∪)).
  - cbn [map Json.into_entries fst snd].
    pose proof (H (k, v) ltac:(left)) as Hhere. cbn [snd] in Hhere. rewrite Hhere.
    rewrite IH by (intros kv Hkv; apply H; now right).
    f_equal. cbn [rev]. rewrite list_to_map_app. cbn [list_to_map foldr].
    rewrite <- (assoc_L (∪)). f_equal. cbn [fst snd].
    now rewrite <- insert_union_l, (left_id_L ∅ (∪)).
Qed.

Lemma sorted_entries_map {A : Type} (m : gmap string A) :
  list_to_map (rev (Json.sorted_entries m)) = m.
Proof.
  unfold Json.sorted_entries.
  assert (Hp : rev (merge_sort Json.key_le (map_to_list m)) ≡ₚ map_to_list m).
  { etransitivity; [symmetry; apply Permutation_rev | apply merge_sort_Permutation]. }
  rewrite <- (list_to_map_to_list m) at 2.
  apply list_to_map_proper; [| exact Hp].
  rewrite Hp. apply NoDup_fst_map_to_list.
Qed.

Lemma into_map_of_map {A : Type} (d : Json.decoder A) (zero : A) (f : A -> Json.value)
      (m : GoMap.t A) :
  (forall k v, GoMap.table m !! k = Some v -> d zero (f v) = Some v) ->
  Json.into_map d zero None (Json.of_map f m) = Some m.
Proof.
  intros H. destruct m as [m|]; [| reflexivity].
  cbn [Json.of_map Json.into_map default option_map].
  rewrite into_entries_map.
  - rewrite sorted_entries_map, (right_id_L ∅ (∪)). reflexivity.
  - intros [k v] Hkv. apply (H k). cbn.
    apply elem_of_map_to_list.
    unfold Json.sorted_entries in Hkv. now rewrite merge_sort_Permutation in Hkv.
Qed.

Lemma into_pointer_Some {A : Type} (d : Json.decoder A) (zero : A) (v : Json.value) (x : A) :
  v <> Json.Null ->
  d zero v = Some x ->
  Json.into_pointer d zero None v = Some (Some x).
Proof.
  intros Hv Hd. unfold Json.into_pointer. cbn [default]. rewrite Hd.
  destruct v; try reflexivity. contradiction.
Qed.

Lemma field_skip_unless_end {B : Type} (d : Json.decoder B) (name k : string) (e : bool)
      (v : Json.value) (cur : B) :
  String.eqb (Json.lower k) name = false ->
  Json.field d name (Json.unless e k v) cur = Some cur.
Proof.
  intros H. rewrite <- (app_nil_r (Json.unless e k v)). now rewrite field_skip_unless.
Qed.

Lemma field_take_unless_end {B : Type} (d : Json.decoder B) (name k : string) (e : bool)
      (v : Json.value) (cur c : B) :
  String.eqb (Json.lower k) name = true ->
  d cur v = Some c ->
  (e = true -> c = cur) ->
  Json.field d name (Json.unless e k v) cur = Some c.
Proof.
  intros H Hd He. rewrite <- (app_nil_r (Json.unless e k v)).
  now rewrite (field_take_unless d name k e v [] cur c).
Qed.

(** ** The records of the document *)

Lemma empty_string_test (s : string) : Json.is_empty_string s = true -> s = "".
Proof. apply String.eqb_eq. Qed.

Lemma is_nil_test {A : Type} (l : list A) : Json.is_nil l = true -> l = [].
Proof. destruct l; [reflexivity | discriminate]. Qed.

Ltac decoded :=
  first [ eassumption
        | apply into_int_of_int; assumption
        | reflexivity ].

Ltac left_out :=
  let H := fresh in
  intros H;
  first [ reflexivity
        | apply empty_string_test in H; exact H
        | apply Z.eqb_eq in H; exact H
        | apply is_nil_test in H; exact H
        | apply bool_decide_eq_true in H; exact H ].

Ltac field_step :=
  match goal with
  | |- context [Json.field ?d ?name [] ?cur] => rewrite (field_nil d name cur)
  | |- context [Json.field ?d ?name ((?k, ?v) :: ?ms) ?cur] =>
      first [ rewrite (field_skip d name k v ms cur) by reflexivity
            | erewrite (field_take d name k v ms cur); [| reflexivity | decoded] ]
  | |- context [Json.field ?d ?name (Json.unless ?e ?k ?v ++ ?ms) ?cur] =>
      first [ rewrite (field_skip_unless d name k e v ms cur) by reflexivity
            | erewrite (field_take_unless d name k e v ms cur);
              [| reflexivity | decoded | left_out] ]
  | |- context [Json.field ?d ?name (Json.unless ?e ?k ?v) ?cur] =>
      first [ rewrite (field_skip_unless_end d name k e v cur) by reflexivity
            | erewrite (field_take_unless_end d name k e v cur);
              [| reflexivity | decoded | left_out] ]
  end.

Ltac field_by_field := repeat field_step.

Lemma ProvisionerState_round_trip (x : ProvisionerState.t) :
  ProvisionerState.of_json ProvisionerState.zero (ProvisionerState.to_json x) = Some x.
Proof.
  destruct x as [type name status error started ended].
  unfold ProvisionerState.of_json, Json.into_struct, ProvisionerState.to_json,
    ProvisionerState.fields, ProvisionerState.zero.
  cbn [ProvisionerState.Type_ ProvisionerState.Name ProvisionerState.Status
       ProvisionerState.Error ProvisionerState.StartedAt ProvisionerState.EndedAt app].
  field_by_field. reflexivity.
Qed.

Lemma PostProcessorState_round_trip (x : PostProcessorState.t) :
  PostProcessorState.of_json PostProcessorState.zero (PostProcessorState.to_json x) = Some x.
Proof.
  destruct x as [type name status error started ended].
  unfold PostProcessorState.of_json, Json.into_struct, PostProcessorState.to_json,
    PostProcessorState.fields, PostProcessorState.zero.
  cbn [PostProcessorState.Type_ PostProcessorState.Name PostProcessorState.Status
       PostProcessorState.Error PostProcessorState.StartedAt PostProcessorState.EndedAt app].
  field_by_field. reflexivity.
Qed.

Lemma RunInfo_round_trip (x : RunInfo.t) :
  RunInfo.of_json RunInfo.zero (RunInfo.to_json x) = Some x.
Proof.
  destruct x as [started completed].
  unfold RunInfo.of_json, Json.into_struct, RunInfo.to_json, RunInfo.fields, RunInfo.zero.
  cbn [RunInfo.StartedAt RunInfo.CompletedAt app].
  field_by_field. reflexivity.
Qed.

Lemma strings_map_round_trip (m : GoMap.t string) :
  Json.into_map Json.into_string "" None (Json.of_map Json.Str m) = Some m.
Proof. apply into_map_of_map. reflexivity. Qed.

Lemma TemplateState_round_trip (x : TemplateState.t) :
  TemplateState.of_json TemplateState.zero (TemplateState.to_json x) = Some x.
Proof.
  destruct x as [path hash variables files].
  pose proof (strings_map_round_trip variables) as Hv.
  pose proof (strings_map_round_trip files) as Hf.
  unfold TemplateState.of_json, Json.into_struct, TemplateState.to_json,
    TemplateState.fields, TemplateState.zero.
  cbn [TemplateState.Path TemplateState.Hash TemplateState.Variables TemplateState.Files app].
  field_by_field. reflexivity.
Qed.

Lemma no_metadata_round_trip :
  Json.into_open_map ∅ (Json.of_open_map ∅) = Some ∅.
Proof.
  unfold Json.of_open_map, Json.sorted_entries. rewrite map_to_list_empty. reflexivity.
Qed.

Lemma ArtifactState_round_trip (x : ArtifactState.t) :
  storable_artifact x ->
  ArtifactState.of_json ArtifactState.zero (ArtifactState.to_json x) = Some x.
Proof.
  destruct x as [id builder type files metadata hash]. unfold storable_artifact.
  cbn [ArtifactState.Metadata]. intros ->.
  assert (Hfiles : Json.into_strings [] (Json.Array (map Json.Str files)) = Some files).
  { cbn. apply into_elements_map, Forall_forall. reflexivity. }
  pose proof no_metadata_round_trip as Hmeta.
  unfold ArtifactState.of_json, Json.into_struct, ArtifactState.to_json,
    ArtifactState.fields, ArtifactState.zero.
  cbn [ArtifactState.ID ArtifactState.BuilderID ArtifactState.Type_ ArtifactState.Files
       ArtifactState.Metadata ArtifactState.Hash app].
  rewrite bool_decide_eq_true_2 by reflexivity.
  field_by_field. reflexivity.
Qed.

Lemma Instance_round_trip (x : Instance.t) :
  storable_instance x ->
  Instance.of_json Instance.zero (Instance.to_json x) = Some x.
Proof.
  destruct x as [id builder provider region public private user port key wuser wport
                 metadata created keep].
  unfold storable_instance.
  cbn [Instance.SSHPort Instance.WinRMPort Instance.Metadata]. intros (Hport & Hwport & ->).
  pose proof no_metadata_round_trip as Hmeta.
  unfold Instance.of_json, Json.into_struct, Instance.to_json, Instance.fields, Instance.zero.
  cbn [Instance.ID Instance.BuilderID Instance.Provider Instance.Region Instance.PublicIP
       Instance.PrivateIP Instance.SSHUser Instance.SSHPort Instance.SSHKeyPath
       Instance.WinRMUser Instance.WinRMPort Instance.Metadata Instance.CreatedAt
       Instance.KeepOnFailure app].
  rewrite bool_decide_eq_true_2 by reflexivity.
  field_by_field. reflexivity.
Qed.

Lemma Build_round_trip (x : Build.t) :
  storable_build x ->
  Build.of_json Build.zero (Build.to_json x) = Some x.
Proof.
  destruct x as [name type status instance provisioners post artifacts error started completed].
  unfold storable_build. cbn [Build.Instance Build.Artifacts]. intros [Hinstance Hartifacts].
  assert (Hprov : Json.into_slice ProvisionerState.of_json ProvisionerState.zero None
                    (Json.of_slice ProvisionerState.to_json provisioners) = Some provisioners).
  { apply into_slice_of_slice. intros p _. apply ProvisionerState_round_trip. }
  assert (Hpost : Build.into_list PostProcessorState.of_json PostProcessorState.zero []
                    (Json.Array (map PostProcessorState.to_json post)) = Some post).
  { apply into_list_map. intros p _. apply PostProcessorState_round_trip. }
  assert (Harts : Build.into_list ArtifactState.of_json ArtifactState.zero []
                    (Json.Array (map ArtifactState.to_json artifacts)) = Some artifacts).
  { apply into_list_map. intros a Ha. apply ArtifactState_round_trip.
    rewrite Forall_forall in Hartifacts. now apply Hartifacts. }
  unfold Build.of_json, Json.into_struct, Build.to_json, Build.fields, Build.zero.
  cbn [Build.Name Build.Type_ Build.Status Build.Instance Build.Provisioners Build.PostProcess
       Build.Artifacts Build.Error Build.StartedAt Build.CompletedAt].
  destruct instance as [i|].
  - assert (Hinst : Json.into_pointer Instance.of_json Instance.zero None (Instance.to_json i)
                    = Some (Some i)).
    { apply into_pointer_Some; [discriminate |]. apply Instance_round_trip. now apply Hinstance. }
    cbn [app]. field_by_field. reflexivity.
  - cbn [app]. field_by_field. reflexivity.
Qed.

Lemma State_round_trip (s : State.t) :
  storable s ->
  State.of_json State.zero (State.to_json s) = Some (State.set_filePath "" s).
Proof.
  destruct s as [version serial lineage builder packer template builds last path].
  unfold storable. cbn [State.Version State.Serial State.Builds].
  intros (Hversion & Hserial & Hbuilds).
  pose proof (TemplateState_round_trip template) as Htemplate.
  assert (Hb : Json.into_map (Json.into_pointer Build.of_json Build.zero) None None
                 (Json.of_map State.build_to_json builds) = Some builds).
  { apply into_map_of_map. intros k [b|] Hk; [| reflexivity].
    apply into_pointer_Some; [discriminate |]. apply Build_round_trip. now apply (Hbuilds k). }
  unfold State.of_json, Json.into_struct, State.to_json, State.fields, State.zero,
    State.set_filePath.
  cbn [State.Version State.Serial State.Lineage State.BuilderVersion State.PackerVersion
       State.Template State.Builds State.LastRun State.filePath].
  destruct last as [r|].
  - assert (Hlast : Json.into_pointer RunInfo.of_json RunInfo.zero None (RunInfo.to_json r)
                    = Some (Some r)).
    { apply into_pointer_Some; [discriminate |]. apply RunInfo_round_trip. }
    cbn [app]. field_by_field. reflexivity.
  - cbn [app]. field_by_field. reflexivity.
Qed.

(** ** The numbers of an encoded document *)

Lemma integers_Object (ms : list (string * Json.value)) :
  JsonText.integers (Json.Object ms) <-> Forall (fun kx => JsonText.integers (snd kx)) ms.
Proof.
  induction ms as [|kx ms IH]; [split; [constructor | exact (fun _ => I)] |].
  change (JsonText.integers (Json.Object (kx :: ms)))
    with (JsonText.integers (snd kx) /\ JsonText.integers (Json.Object ms)).
  rewrite Forall_cons, IH. reflexivity.
Qed.

Lemma integers_Array (vs : list Json.value) :
  JsonText.integers (Json.Array vs) <-> Forall JsonText.integers vs.
Proof.
  induction vs as [|v vs IH]; [split; [constructor | exact (fun _ => I)] |].
  change (JsonText.integers (Json.Array (v :: vs)))
    with (JsonText.integers v /\ JsonText.integers (Json.Array vs)).
  rewrite Forall_cons, IH. reflexivity.
Qed.

Lemma integers_of_int (x : Z) : Int.in_range x = true -> JsonText.integers (Json.of_int x).
Proof. intros H. exists x. auto. Qed.

Lemma integers_of_map {A : Type} (f : A -> Json.value) (m : GoMap.t A) :
  (forall k v, GoMap.table m !! k = Some v -> JsonText.integers (f v)) ->
  JsonText.integers (Json.of_map f m).
Proof.
  intros H. destruct m as [m|]; [| exact I]. cbn [Json.of_map].
  apply integers_Object, Forall_map, Forall_forall. intros [k v] Hkv. cbn.
  apply (H k). cbn. apply elem_of_map_to_list.
  unfold Json.sorted_entries in Hkv. now rewrite merge_sort_Permutation in Hkv.
Qed.

Lemma integers_map {A : Type} (f : A -> Json.value) (l : list A) :
  (forall x, x ∈ l -> JsonText.integers (f x)) ->
  JsonText.integers (Json.Array (map f l)).
Proof. intros H. apply integers_Array, Forall_map, Forall_forall. exact H. Qed.

Lemma integers_of_slice {A : Type} (f : A -> Json.value) (l : option (list A)) :
  (forall x, x ∈ elems l -> JsonText.integers (f x)) ->
  JsonText.integers (Json.of_slice f l).
Proof. intros H. destruct l as [l|]; [| exact I]. now apply integers_map. Qed.

Ltac integers_object :=
  apply integers_Object;
  repeat first
    [ apply Forall_nil
    | apply Forall_cons; split
    | apply Forall_app; split
    | progress unfold Json.unless
    | match goal with |- Forall _ (if ?e then _ else _) => destruct e end ];
  cbn [snd]; try exact I.

Lemma integers_ProvisionerState (x : ProvisionerState.t) :
  JsonText.integers (ProvisionerState.to_json x).
Proof. unfold ProvisionerState.to_json. integers_object. Qed.

Lemma integers_PostProcessorState (x : PostProcessorState.t) :
  JsonText.integers (PostProcessorState.to_json x).
Proof. unfold PostProcessorState.to_json. integers_object. Qed.

Lemma integers_RunInfo (x : RunInfo.t) : JsonText.integers (RunInfo.to_json x).
Proof. unfold RunInfo.to_json. integers_object. Qed.

Lemma integers_TemplateState (x : TemplateState.t) :
  JsonText.integers (TemplateState.to_json x).
Proof.
  unfold TemplateState.to_json. integers_object; apply integers_of_map; intros; exact I.
Qed.

Lemma integers_no_metadata : JsonText.integers (Json.of_open_map ∅).
Proof.
  unfold Json.of_open_map, Json.sorted_entries. rewrite map_to_list_empty. exact I.
Qed.

Lemma integers_ArtifactState (x : ArtifactState.t) :
  storable_artifact x -> JsonText.integers (ArtifactState.to_json x).
Proof.
  unfold storable_artifact, ArtifactState.to_json. intros ->.
  integers_object; first [apply integers_no_metadata | apply integers_map; intros; exact I].
Qed.

Lemma integers_Instance (x : Instance.t) :
  storable_instance x -> JsonText.integers (Instance.to_json x).
Proof.
  unfold storable_instance, Instance.to_json. intros (Hp & Hw & ->).
  integers_object;
    first [apply integers_no_metadata | now apply integers_of_int].
Qed.

Lemma integers_Build (x : Build.t) :
  storable_build x -> JsonText.integers (Build.to_json x).
Proof.
  unfold storable_build, Build.to_json. intros [Hi Ha].
  destruct (Build.Instance x) as [i|]; integers_object;
    first [ apply integers_Instance; now apply Hi
          | apply integers_of_slice; intros; apply integers_ProvisionerState
          | apply integers_map; intros; apply integers_PostProcessorState
          | apply integers_map; intros a Hin; apply integers_ArtifactState;
            rewrite Forall_forall in Ha; now apply Ha ].
Qed.

Lemma integers_State (s : State.t) :
  storable s -> JsonText.integers (State.to_json s).
Proof.
  unfold storable, State.to_json. intros (Hv & Hs & Hb).
  destruct (State.LastRun s) as [r|]; integers_object;
    first [ now apply integers_of_int
          | apply integers_TemplateState
          | apply integers_RunInfo
          | apply integers_of_map; intros k [b|] Hk;
            [apply integers_Build; now apply (Hb k) | exact I] ].
Qed.

(** A document that is encoded is decoded to itself (but for the path of
    its file, which is not written).  The writer here copies each byte
    above 127 as it is, and a time is its text: of the code this is the
    round trip of the documents that are [plain]. *)
Lemma Decode_Encode (s : State.t) :
  storable s -> State.Decode (State.Encode s) = inl (State.set_filePath "" s).
Proof.
  intros Hs. unfold State.Decode, State.Encode.
  rewrite parse_first_Encode by now apply integers_State.
  now rewrite State_round_trip.
Qed.

(** ** Saving and loading *)

Lemma incr_in_range (x : Z) : Int.in_range (Int.incr x) = true.
Proof.
  unfold Int.in_range, Int.incr, Int.wrap.
  pose proof (Z.mod_pos_bound (x + 1 - Int.MinInt) (2 ^ Int.size) ltac:(reflexivity)) as H.
  change (2 ^ Int.size)%Z with 18446744073709551616%Z in *.
  change Int.MinInt with (-9223372036854775808)%Z in *.
  change Int.MaxInt with 9223372036854775807%Z.
  apply andb_true_iff. split; apply Z.leb_le; lia.
Qed.

Lemma storable_saved (s : State.t) (path : string) :
  storable s -> storable (State.set_filePath path (State.set_Serial (Int.incr (State.Serial s)) s)).
Proof.
  unfold storable. cbn. intros (Hv & _ & Hb). split; [exact Hv |]. split; [| exact Hb].
  apply incr_in_range.
Qed.

Lemma Load_saved (s : State.t) (path : string) (w : World) :
  storable s ->
  State.filePath s = path ->
  files w !! path = Some (State.Encode s) ->
  Load path w = inl (Some s).
Proof.
  intros Hs Hpath Hfile. unfold Load, os.Open. rewrite Hfile, (Decode_Encode s Hs).
  destruct s. cbn in Hpath. subst. reflexivity.
Qed.


Lemma Load_after_Save (s s' : State.t) (path : string) (w w' : World) :
  storable s ->
  State.Save s path w = (None, s', w') ->
  Load path w' = inl (Some s').
Proof.
  intros Hs HS.
  pose proof (Save_document _ _ _ _ _ _ HS) as Hdoc.
  pose proof (Save_files _ _ _ _ _ _ HS) as Hfiles. simpl in Hfiles.
  apply Load_saved.
  - rewrite Hdoc. now apply storable_saved.
  - rewrite Hdoc. reflexivity.
  - rewrite Hfiles. apply lookup_insert_eq.
Qed.


(** X21. The inputs recorded and saved in one session are reported as
    unchanged in the next, for a document, with the inputs recorded in it,
    whose integers are within the range of [int], that carries no metadata,
    whose strings (the names and values of the variables, the names and
    hashes of the files included) are all ASCII and whose times are texts of
    times. After UpdateTemplateInputs and a Manager.Save that succeeds, in
    every later world whose state file is still the one written, Load
    (opening and reading the file without failure) returns the saved
    document, and a manager that holds it answers false to InputsChanged
    with the same hash, variables and files. *)
Theorem recorded_inputs_survive
        (m m2 : Manager.t) (st : State.t) (templatePath templateHash : string)
        (variables files_ : GoMap.t string) (w w' later : World) :
  Manager.state m = Some st ->
  storable st ->
  plain (State.set_Template (TemplateState.mk templatePath templateHash variables files_) st) ->
  Manager.Save (Manager.UpdateTemplateInputs m templatePath templateHash variables files_) w
  = (None, m2, w') ->
  files later !! Manager.statePath m = files w' !! Manager.statePath m ->
  exists st2,
    Load (Manager.statePath m) later = inl (Some st2)
    /\ Manager.state m2 = Some st2
    /\ forall m', Manager.state m' = Some st2 ->
                  Manager.InputsChanged m' templateHash variables files_ = false.
Proof.
  intros Hst Hs _. unfold Manager.UpdateTemplateInputs, Manager.Save. rewrite Hst.
  cbn [Manager.state Manager.set_state Manager.statePath].
  set (st1 := State.set_Template _ st).
  destruct (State.Save st1 (Manager.statePath m) w) as [[err st2] w1] eqn:HS.
  intros [= -> <- <-] Hlater.
  assert (Hs1 : storable st1).
  { unfold storable in *. destruct Hs as (Hv & Hser & Hb).
    split; [exact Hv |]. split; [exact Hser | exact Hb]. }
  exists st2. split; [| split; [reflexivity |]].
  - rewrite (Load_same_file _ later w1 Hlater). now apply (Load_after_Save st1 st2 _ w).
  - intros m' Hm'.
    pose proof (Save_document _ _ _ _ _ _ HS) as Hdoc.
    assert (Ht : State.Template st2
                 = TemplateState.mk templatePath templateHash variables files_)
      by (rewrite Hdoc; reflexivity).
    pose proof (InputsChanged_same m' st2 variables files_ Hm') as H.
    rewrite Ht in H. cbn in H. now apply H.
Qed.

Lemma storable_example : storable document_with_complete_build.
Proof.
  split; [reflexivity |]. split; [reflexivity |].
  intros name b Hb.
  change (GoMap.table (State.Builds document_with_complete_build))
    with ({["b" := Some (Build.mk "b" "null" BuildStatusComplete None (Some [])
                           [] [ArtifactState.mk "art-1" "null" "" ["out.img"] ∅ ""]
                           "" "2025-11-17T09:00:00Z" "2025-11-17T09:05:00Z")]}
          : gmap string (option Build.t)) in Hb.
  apply lookup_singleton_Some in Hb as [_ [= <-]].
  split; [discriminate |]. repeat constructor.
Qed.

Lemma plain_example : plain document_with_complete_build.
Proof. split; vm_compute; reflexivity. Qed.



Lemma recorded_inputs_survive_witness :
  let m := manager session_with_complete_build in
  let variables : GoMap.t string := Some {["v" := "2"]} in
  let r := Manager.Save (Manager.UpdateTemplateInputs m "/t/x.pkr.hcl" "sha256:k" variables None)
                        quiet_world in
  exists st2,
    Load "/t/state.json" (snd r) = inl (Some st2)
    /\ Manager.InputsChanged (Manager.mk "/t/state.json" (NewLockManager "/t/state.json")
                                         (Some st2))
                             "sha256:k" variables None = false.
Proof.
  intros m variables r.
  destruct (recorded_inputs_survive m (snd (fst r)) document_with_complete_build
              "/t/x.pkr.hcl" "sha256:k" variables None quiet_world (snd r) (snd r))
    as (st2 & Hload & _ & Hsame).
  - reflexivity.
  - apply storable_example.
  - split; vm_compute; reflexivity.
  - vm_compute. reflexivity.
  - reflexivity.
  - exists st2. split; [exact Hload |]. now apply Hsame.
Defined.

(** ** Loading a state file *)

Lemma storable_with_version (version : Z) (s : State.t) :
  storable s -> Int.in_range version = true -> storable (with_version version s).
Proof.
  unfold storable. cbn. intros (_ & Hser & Hb) Hv. split; [exact Hv |].
  split; [exact Hser | exact Hb].
Qed.

(** C2, as the code has it.  Load never examines the schema version: the
    version is decoded like any other integer.  Whenever the file at the
    state path is opened and read, on whatever file system:
    for every document (integers within the range of [int], ASCII
    strings, times as the texts the encoder writes for them, no
    metadata) and every version number within the range of [int], 1 or
    not, if the content is what the encoder writes for the document with
    that version, Load returns the document, and it carries that
    version; whatever the content, Load returns the document it decodes
    to, and fails with CorruptState exactly when it does not decode, as
    for empty content. *)
Theorem Load_does_not_examine_version
        (fs : FS.t) (path content : string) (w w' : World) :
  FS.Open fs path w = (inl content, w') ->
  (forall (s : State.t) (version : Z),
      storable s -> plain s -> Int.in_range version = true ->
      content = State.Encode (with_version version s) ->
      Load_on fs path w = (inl (Some (State.set_filePath path (with_version version s))), w')
      /\ State.Version (State.set_filePath path (with_version version s)) = version)
  /\ (forall d, State.Decode content = inl d ->
                Load_on fs path w = (inl (Some (State.set_filePath path d)), w'))
  /\ (forall e, State.Decode content = inr e ->
                Load_on fs path w = (inr (ErrDecodeState e), w')
                /\ CorruptState (ErrDecodeState e))
  /\ (content = "" -> exists e, Load_on fs path w = (inr e, w') /\ CorruptState e).
Proof.
  intros Hopen. unfold Load_on. rewrite Hopen.
  split; [| split; [| split]].
  - intros s version Hs _ Hv ->. split; [| reflexivity].
    rewrite (Decode_Encode _ (storable_with_version version s Hs Hv)).
    destruct s. reflexivity.
  - intros d ->. reflexivity.
  - intros e ->. split; [reflexivity |]. unfold CorruptState. eauto.
  - intros ->. eexists. split; [reflexivity |]. unfold CorruptState. eauto.
Qed.

Lemma Load_does_not_examine_version_witness :
  let s := with_version 3 document_with_complete_build in
  let w := with_files {["/t/state.json" := State.Encode s]} quiet_world in
  Load_on FS.faulty "/t/state.json" w
  = (inl (Some (State.set_filePath "/t/state.json" s)), w)
  /\ State.Version (State.set_filePath "/t/state.json" s) = 3%Z.
Proof.
  intros s w.
  destruct (Load_does_not_examine_version FS.faulty "/t/state.json" (State.Encode s) w w)
    as (Hany & _).
  - reflexivity.
  - apply (Hany document_with_complete_build 3%Z).
    + apply storable_example.
    + apply plain_example.
    + reflexivity.
    + reflexivity.
Defined.

(** C2 as stated fails: a state file with a schema version other than 1
    is loaded. *)
Lemma Load_accepts_unknown_version :
  let w := with_files
             {["/t/state.json" :=
                 (with_quotes "{'version': 2, 'serial': 7, 'lineage': 'x', 'template': {}, 'builds': {}}")]}
             quiet_world in
  Load "/t/state.json" w
  = inl (Some (State.mk 2 7 "x" "" "" TemplateState.zero (Some ∅) None "/t/state.json")).
Proof. vm_compute. reflexivity. Qed.

(** Versions the reader was not written for are loaded like version 1. *)
Example Load_other_versions :
  let loaded content :=
    match Load "/t/state.json" (with_files {["/t/state.json" := content]} quiet_world) with
    | inl (Some s) => Some (State.Version s)
    | _ => None
    end in
  loaded (with_quotes "{'version': 0}") = Some 0%Z
  /\ loaded (with_quotes "{'version': 99}") = Some 99%Z
  /\ loaded (with_quotes "{'serial': 4}") = Some 0%Z
  /\ loaded (with_quotes "{'version': -1}") = Some (-1)%Z.
Proof. vm_compute. repeat split. Qed.

(** ** Removing a build from the state *)

Lemma New_files (path : string) (w : World) : files (snd (New path w)) = files w.
Proof. reflexivity. Qed.

(** What Manager.Load leaves when it succeeds: the lock is held, the
    lock file holds its body, and the document is the one of the file or
    a new one. *)
Lemma Manager_Load_success (path : string) (w w1 : World) (m1 : Manager.t) (st : State.t) :
  Manager.Load (NewManager path) w = (inl st, m1, w1) ->
  exists lock data,
    m1 = Manager.mk path (LockManager.set_lock (Some lock) (NewLockManager path)) (Some st)
    /\ Lock.MarshalIndent lock = inl data
    /\ files w !! (path ++ ".lock")%string = None
    /\ files w1 = <[(path ++ ".lock")%string := data]> (files w)
    /\ (Load path w = inl (Some st)
        \/ (Load path w = inl None /\ exists w0, st = fst (New path w0))).
Proof.
  unfold Manager.Load, NewManager. cbn [Manager.lockManager].
  destruct (LockManager.Lock (NewLockManager path) "build" w) as [[[e|] lm1] w0] eqn:Hlock;
    [discriminate |].
  destruct (Lock_acquired _ _ _ _ _ Hlock) as (lock & data & -> & Hdata & Habsent & Hfiles).
  cbn [LockManager.lockPath NewLockManager] in Habsent, Hfiles.
  cbn [Manager.statePath Manager.set_lockManager Manager.lockManager].
  assert (HL : Load path w0 = Load path w).
  { apply Load_same_file. rewrite Hfiles. apply lookup_insert_ne.
    apply (lock_path_differs path). }
  rewrite HL.
  destruct (Load path w) as [[s0|] | e] eqn:HLw.
  - intros [= <- <- <-]. exists lock, data. repeat split; auto.
  - intros HN. exists lock, data.
    assert (Hst : st = fst (New path w0)) by (destruct (New path w0); now injection HN).
    assert (Hw1 : files w1 = files w0).
    { revert HN. unfold New. destruct (uuid_New w0) as [l wb] eqn:E. intros [= _ _ <-].
      now injection E as _ <-. }
    assert (Hm1 : m1 = Manager.mk path (LockManager.set_lock (Some lock) (NewLockManager path))
                                  (Some st)).
    { revert HN. destruct (New path w0) as [st0 w0']. now intros [= <- <- _]. }
    split; [exact Hm1 |]. split; [exact Hdata |]. split; [exact Habsent |].
    split; [now rewrite Hw1 |]. right. split; [reflexivity |]. eauto.
  - destruct (LockManager.Unlock _ w0) as [[? ?] ?]. discriminate.
Qed.


(** Releasing the lock one holds, when its file holds its body. *)
Lemma Manager_Unlock_own (path : string) (lock : Lock.t) (data : string)
      (st : option State.t) (w : World) :
  Lock.MarshalIndent lock = inl data ->
  files w !! (path ++ ".lock")%string = Some data ->
  exists m' w',
    Manager.Unlock (Manager.mk path (LockManager.set_lock (Some lock) (NewLockManager path)) st) w
    = (None, m', w')
    /\ files w' = delete (path ++ ".lock")%string (files w).
Proof.
  intros Hdata Hfile.
  pose proof (Unlock_own (LockManager.set_lock (Some lock) (NewLockManager path))
                         lock lock data w eq_refl Hfile
                         (Lock_round_trip _ _ Hdata) eq_refl) as Hunlock.
  unfold Manager.Unlock. cbn [Manager.lockManager]. rewrite Hunlock.
  eexists _, _. split; reflexivity.
Qed.







(** ** In a world without faults *)

Lemma fault_quiet (w : World) : faults w = [] -> fault w = (false, w).
Proof. unfold fault. now intros ->. Qed.

Lemma MkdirAll_quiet (dir : string) (w : World) :
  faults w = [] -> os.MkdirAll dir w = (None, w).
Proof. intros H. unfold os.MkdirAll. now rewrite fault_quiet. Qed.

Lemma Close_quiet (path : string) (w : World) :
  faults w = [] -> os.Close path w = (None, w).
Proof. intros H. unfold os.Close. now rewrite fault_quiet. Qed.

Lemma Create_quiet (path : string) (w : World) :
  faults w = [] -> os.Create path w = (None, with_files (<[path := ""]> (files w)) w).
Proof. intros H. unfold os.Create. now rewrite fault_quiet. Qed.

Lemma OpenFile_excl_quiet (path : string) (w : World) :
  faults w = [] -> files w !! path = None ->
  os.OpenFile_excl path w = (None, with_files (<[path := ""]> (files w)) w).
Proof. intros H Ha. unfold os.OpenFile_excl. now rewrite Ha, fault_quiet. Qed.

Lemma Write_quiet (path data : string) (w : World) :
  faults w = [] ->
  os.Write path data w
  = (None, with_files (<[path := (default "" (files w !! path) ++ data)%string]> (files w)) w).
Proof. intros H. unfold os.Write. now rewrite fault_quiet. Qed.

Lemma Rename_quiet (old new content : string) (w : World) :
  faults w = [] -> files w !! old = Some content ->
  os.Rename old new w = (None, with_files (<[new := content]> (delete old (files w))) w).
Proof. intros H Ha. unfold os.Rename. now rewrite Ha, fault_quiet. Qed.

Lemma Lock_quiet (lm : LockManager.t) (operation : string) (w : World) :
  faults w = [] ->
  files w !! LockManager.lockPath lm = None ->
  exists lm1 w1, LockManager.Lock lm operation w = (None, lm1, w1) /\ faults w1 = [].
Proof.
  intros Hq Habsent.
  unfold LockManager.Lock, os.Stat. rewrite Habsent.
  destruct (uuid_New w) as [id w0] eqn:E0.
  assert (Hq0 : faults w0 = []) by (injection E0 as _ <-; exact Hq).
  assert (Ha0 : files w0 !! LockManager.lockPath lm = None)
    by (injection E0 as _ <-; exact Habsent).
  unfold Lock.MarshalIndent.
  rewrite MkdirAll_quiet by exact Hq0.
  rewrite OpenFile_excl_quiet by assumption.
  rewrite Write_quiet by exact Hq0.
  rewrite Close_quiet by exact Hq0.
  eexists _, _. split; [reflexivity | exact Hq0].
Qed.

Lemma Save_quiet (s : State.t) (path : string) (w : World) :
  faults w = [] ->
  exists s' w', State.Save s path w = (None, s', w') /\ faults w' = [].
Proof.
  intros Hq. unfold State.Save.
  rewrite MkdirAll_quiet by exact Hq.
  rewrite Create_quiet by exact Hq.
  rewrite Write_quiet by exact Hq.
  rewrite Close_quiet by exact Hq.
  erewrite Rename_quiet; [| exact Hq | cbn; apply lookup_insert_eq].
  eexists _, _. split; [reflexivity | exact Hq].
Qed.

(** X24. [state rm] of a build the state does not hold, when no call of the
    operating system fails and nobody holds the lock: it answers 1 with the
    message that the build was not found, also when there is no state file
    at all (a new document is made in memory then, so [No state file found]
    is never said), and leaves the files exactly as they were. *)
Theorem StateRm_unknown_build
        (args : list string) (statePath buildName : string) (w : World) :
  flag_Parse "" args = Some (statePath, [buildName]) ->
  let path := state_path_of statePath in
  faults w = [] ->
  files w !! (path ++ ".lock")%string = None ->
  match Load path w with
  | inl (Some st) => State.GetBuild st buildName = None
  | inl None => True
  | inr _ => False
  end ->
  exists w',
    StateRmCommand.Run args w
    = (1%Z, [UiError ("Build '" ++ buildName ++ "' not found in state")], w')
    /\ files w' = files w.
Proof.
  intros Hparse path Hq Habsent Hloaded.
  unfold StateRmCommand.Run. rewrite Hparse.
  fold (state_path_of statePath). fold path.
  destruct (Lock_quiet (NewLockManager path) "build" w Hq Habsent) as (lm1 & w0 & Hlock & Hq0).
  destruct (Manager.Load (NewManager path) w) as [[[st | err] m1] w1] eqn:HL.
  - destruct (Manager_Load_success _ _ _ _ _ HL)
      as (lock & data & -> & Hdata & _ & Hfiles & Hcases).
    assert (Hb : State.GetBuild st buildName = None).
    { destruct Hcases as [H | [_ [wn H]]].
      - rewrite H in Hloaded. exact Hloaded.
      - rewrite H. reflexivity. }
    rewrite Hb.
    destruct (Manager_Unlock_own path lock data (Some st) w1 Hdata) as (m' & w3 & -> & Hw3).
    { rewrite Hfiles. apply lookup_insert_eq. }
    exists w3. split; [reflexivity |].
    rewrite Hw3, Hfiles, delete_insert_eq. now apply delete_id.
  - exfalso. revert HL. unfold Manager.Load, NewManager. cbn [Manager.lockManager].
    rewrite Hlock. cbn [Manager.statePath Manager.set_lockManager Manager.lockManager].
    destruct (Lock_acquired _ _ _ _ _ Hlock) as (lock & data & _ & _ & _ & Hfiles).
    rewrite (Load_same_file path w0 w).
    2: { rewrite Hfiles. apply lookup_insert_ne. apply (lock_path_differs path). }
    destruct (Load path w) as [[s0|] | e]; [| | contradiction].
    + discriminate.
    + destruct (New path w0). discriminate.
Qed.



(** [state rm] answers 0 and leaves its lock file behind when the
    removal of the lock file fails: the deferred Unlock returns an error
    nobody looks at.  The next [state rm] is refused. *)
Example StateRm_leaves_lock_when_release_fails :
  let w := with_faults (replicate 11 false ++ [true]) world_with_state_file in
  let r := StateRmCommand.Run_on FS.faulty ["-state=/t/state.json"; "b"] w in
  fst (fst r) = 0%Z
  /\ snd (fst r) = [UiSay "Removed build 'b' from state"]
  /\ is_Some (files (snd r) !! "/t/state.json.lock")
  /\ fst (fst (StateRmCommand.Run_on FS.faulty ["-state=/t/state.json"; "b"] (snd r))) = 1%Z.
Proof.
  cbv zeta. split; [vm_compute; reflexivity |]. split; [vm_compute; reflexivity |].
  split; [| vm_compute; reflexivity].
  vm_compute. eauto.
Qed.

Lemma StateRm_unknown_build_witness :
  exists w',
    StateRmCommand.Run ["web"] quiet_world
    = (1%Z, [UiError "Build 'web' not found in state"], w')
    /\ files w' = files quiet_world.
Proof.
  apply (StateRm_unknown_build ["web"] "" "web" quiet_world).
  - reflexivity.
  - reflexivity.
  - reflexivity.
  - vm_compute. exact I.
Defined.

(** ** Opening a session on a new state path *)

(** X25. With no file at the state path, a Manager.Load that succeeds hands
    out a new document: version 1, serial 1, an empty map of builds, empty
    maps of variables and files, no hash, and, as the path of the template,
    the path of the state file (Manager.Load passes its state path to New).
    The manager holds the document and the lock, the lock file exists, and
    no state file has been made. *)
Theorem Manager_Load_without_state_file
        (path : string) (w w1 : World) (m1 : Manager.t) (st : State.t) :
  files w !! path = None ->
  Manager.Load (NewManager path) w = (inl st, m1, w1) ->
  st = State.mk 1 1 (State.Lineage st) "" ""
                (TemplateState.mk path "" GoMap.make GoMap.make) GoMap.make None ""
  /\ Manager.state m1 = Some st
  /\ is_Some (LockManager.lock (Manager.lockManager m1))
  /\ files w1 !! path = None
  /\ is_Some (files w1 !! (path ++ ".lock")%string).
Proof.
  intros Hnone HL.
  destruct (Manager_Load_success _ _ _ _ _ HL)
    as (lock & data & -> & Hdata & Habsent & Hfiles & Hcases).
  assert (Hopen : Load path w = inl None).
  { unfold Load, os.Open. now rewrite Hnone. }
  destruct Hcases as [H | [_ [w0 ->]]]; [congruence |].
  split; [reflexivity |]. split; [reflexivity |]. split; [cbn; eauto |].
  rewrite Hfiles. split.
  - rewrite lookup_insert_ne; [exact Hnone | apply (lock_path_differs path)].
  - rewrite lookup_insert_eq. eauto.
Qed.

Lemma Manager_Load_without_state_file_witness :
  let r := Manager.Load (NewManager "/t/state.json") quiet_world in
  exists st,
    fst (fst r) = inl st
    /\ State.Serial st = 1%Z
    /\ TemplateState.Path (State.Template st) = "/t/state.json"
    /\ files (snd r) !! "/t/state.json" = None.
Proof.
  intros r.
  assert (Hst : exists st, fst (fst r) = inl st) by (eexists; vm_compute; reflexivity).
  destruct Hst as (st & Hst). exists st. split; [exact Hst |].
  destruct (Manager_Load_without_state_file "/t/state.json" quiet_world (snd r)
              (snd (fst r)) st) as (Hshape & _ & _ & Hnofile & _).
  - reflexivity.
  - unfold r in *. destruct (Manager.Load _ _) as [[res m1] w1]. cbn in Hst. now subst.
  - rewrite Hshape. auto.
Defined.

(** ** The lock file *)

(** X26. The body of a lock file is read back as the lock it was written
    from, for every lock whose strings (id, operation, who, path) are all
    ASCII and whose time of creation is the text of a time, a time being
    taken for the text the encoder writes for it: Unmarshal of what
    MarshalIndent returned is the lock, and so is readLock on a world whose
    lock file holds that text, when the file is read without failure. *)
Theorem Lock_file_round_trip (l : Lock.t) (data : string) :
  plain_lock l ->
  Lock.MarshalIndent l = inl data ->
  Lock.Unmarshal data = inl l
  /\ forall lm w, files w !! LockManager.lockPath lm = Some data ->
                  LockManager.readLock lm w = inl l.
Proof.
  intros _ Hdata. pose proof (Lock_round_trip _ _ Hdata) as Hback.
  split; [exact Hback |]. intros lm w Hfile.
  unfold LockManager.readLock, os.ReadFile, os.Open. now rewrite Hfile, Hback.
Qed.

Lemma Lock_file_round_trip_witness :
  let l := Lock.mk "id-1" "build" (with_quotes "o'brien@host<1>") "2025-11-17T10:00:00Z"
                   "/t/state.json" in
  exists data, Lock.MarshalIndent l = inl data /\ Lock.Unmarshal data = inl l.
Proof.
  intros l. eexists. split; [reflexivity |].
  apply (Lock_file_round_trip l); [split |]; reflexivity.
Defined.

(** X27. A lock taken over by force. After a first manager has taken the
    lock, ForceUnlock by a second manager on the same lock path succeeds
    without looking at who holds it, and the second manager can then take
    the lock (no call of the operating system failing). When the identifiers
    of the two locks differ, the Unlock of the first manager then fails with
    the error that the lock was stolen, naming the second holder, and
    changes nothing. *)
Theorem ForceUnlock_takeover
        (a a1 b : LockManager.t) (operation operation' : string) (w w1 : World) :
  LockManager.Lock a operation w = (None, a1, w1) ->
  LockManager.lockPath b = LockManager.lockPath a ->
  faults w1 = [] ->
  exists w2 b2 w3 mine theirs,
    LockManager.ForceUnlock b w1 = (None, LockManager.set_lock None b, w2)
    /\ LockManager.Lock (LockManager.set_lock None b) operation' w2 = (None, b2, w3)
    /\ LockManager.lock a1 = Some mine
    /\ LockManager.lock b2 = Some theirs
    /\ (Lock.ID theirs <> Lock.ID mine ->
        LockManager.Unlock a1 w3
        = (Some (ErrLockStolen (Lock.Who theirs) (Lock.ID theirs)), a1, w3)
        /\ LockStolen (ErrLockStolen (Lock.Who theirs) (Lock.ID theirs))).
Proof.
  intros Hlock Hpath Hq.
  destruct (Lock_acquired _ _ _ _ _ Hlock) as (mine & data & -> & Hdata & Habsent & Hfiles).
  assert (Hfile : files w1 !! LockManager.lockPath b = Some data)
    by (rewrite Hpath, Hfiles; apply lookup_insert_eq).
  assert (Hforce : LockManager.ForceUnlock b w1
                   = (None, LockManager.set_lock None b,
                      with_files (delete (LockManager.lockPath b) (files w1)) w1)).
  { unfold LockManager.ForceUnlock, os.Remove. now rewrite Hfile. }
  set (w2 := with_files _ w1) in Hforce.
  destruct (Lock_quiet (LockManager.set_lock None b) operation' w2) as (b2 & w3 & Hlock2 & _).
  { exact Hq. }
  { cbn. apply lookup_delete_eq. }
  destruct (Lock_acquired _ _ _ _ _ Hlock2) as (theirs & data' & -> & Hdata' & _ & Hfiles').
  exists w2, (LockManager.set_lock (Some theirs) (LockManager.set_lock None b)), w3, mine, theirs.
  split; [exact Hforce |]. split; [exact Hlock2 |]. split; [reflexivity |].
  split; [reflexivity |]. intros Hid. split; [| unfold LockStolen; eauto].
  unfold LockManager.Unlock, LockManager.readLock, os.ReadFile, os.Open.
  cbn [LockManager.lock LockManager.set_lock LockManager.lockPath] in *.
  rewrite Hfiles', <- Hpath, lookup_insert_eq, (Lock_round_trip _ _ Hdata').
  destruct (String.eqb_spec (Lock.ID theirs) (Lock.ID mine)); [contradiction | reflexivity].
Qed.

Lemma ForceUnlock_takeover_witness :
  let lm := NewLockManager "/t/state.json" in
  let r := LockManager.Lock lm "build" quiet_world in
  exists w3 theirs,
    LockManager.Unlock (snd (fst r)) w3
    = (Some (ErrLockStolen (Lock.Who theirs) (Lock.ID theirs)), snd (fst r), w3)
    /\ Lock.ID theirs = "00000000-0000-4000-8000-000000000001".
Proof.
  intros lm r.
  destruct (ForceUnlock_takeover lm (snd (fst r)) lm "build" "rm" quiet_world (snd r))
    as (w2 & b2 & w3 & mine & theirs & Hforce & Hlock2 & Hmine & Htheirs & Hstolen).
  - vm_compute. reflexivity.
  - reflexivity.
  - reflexivity.
  - exists w3, theirs.
    assert (Hm : mine = Lock.mk "00000000-0000-4000-8000-000000000000" "build" "user@host"
                                "2025-11-17T10:00:00Z" "/t/state.json").
    { assert (H : Some mine = LockManager.lock (snd (fst r))) by (symmetry; exact Hmine).
      vm_compute in H. now injection H. }
    assert (Ht : Lock.ID theirs = "00000000-0000-4000-8000-000000000001").
    { pose proof (Lock_acquired_lock _ _ _ _ _ Hlock2) as H. rewrite Htheirs in H.
      injection H as ->. cbn [Lock.ID].
      assert (Hw2 : w2 = snd (LockManager.ForceUnlock lm (snd r))) by now rewrite Hforce.
      rewrite Hw2. vm_compute. reflexivity. }
    split; [| exact Ht]. apply Hstolen. rewrite Ht, Hm. discriminate.
Defined.

(** ** The build command *)

Lemma report_builds_complete (entries : list (string * option Build.t)) (acc : bool)
      (s : Session) :
  all_complete entries ->
  BuildCommand.report_builds entries acc s
  = (Return acc,
     mkSession (manager s) (world s)
               (ui s ++ map (fun e => UiSay ("Build '" ++ fst e ++ "' already complete")) entries)).
Proof.
  intros H. revert s. induction H as [|[name build] rest (b & Hb & Hc) _ IH]; intros s.
  - cbn. rewrite app_nil_r. now destruct s.
  - cbn in Hb. subst build. cbn [BuildCommand.report_builds]. rewrite Hc. cbn [negb].
    unfold_cmd. unfold Say at 1. rewrite IH. cbn [manager world ui fst map].
    now rewrite <- app_assoc.
Qed.

(** Closing a session in a world where no call fails: the document is
    saved and the lock released. *)
Lemma Close_quiet_files (path : string) (lock : Lock.t) (data : string) (st : State.t)
      (w : World) :
  Lock.MarshalIndent lock = inl data ->
  files w !! (path ++ ".lock")%string = Some data ->
  faults w = [] ->
  exists m' w',
    Manager.Close
      (Manager.mk path (LockManager.set_lock (Some lock) (NewLockManager path)) (Some st)) w
    = (None, m', w')
    /\ files w' = delete (path ++ ".lock")%string
                    (<[path := State.Encode (saved path st)]>
                       (delete (path ++ ".tmp")%string (files w))).
Proof.
  intros Hdata Hfile Hq.
  destruct (Save_quiet st path w Hq) as (s' & w1 & HS & _).
  pose proof (Save_document _ _ _ _ _ _ HS) as Hdoc.
  pose proof (Save_files _ _ _ _ _ _ HS) as Hsaved. simpl in Hsaved.
  destruct (lock_path_differs path) as [Hne1 Hne2].
  destruct (Manager_Unlock_own path lock data (Some s') w1 Hdata) as (m' & w2 & Hunlock & Hw2).
  { rewrite Hsaved, lookup_insert_ne, lookup_delete_ne by congruence. exact Hfile. }
  exists m', w2. split.
  - unfold Manager.Close, Manager.Save. cbn [Manager.state Manager.statePath]. rewrite HS.
    unfold Manager.set_state. cbn [Manager.statePath Manager.lockManager]. exact Hunlock.
  - rewrite Hw2, Hsaved, Hdoc. reflexivity.
Qed.

Lemma range_order_length {V : Type} (m : GoMap.t V) (order : list (string * V)) :
  GoMap.range_order m order -> GoMap.len m = length order.
Proof.
  unfold GoMap.range_order, GoMap.len. intros H. rewrite H.
  symmetry. apply length_map_to_list.
Qed.

(** X28. The build command when there is nothing to do. When Packer's parser
    accepts the arguments, the state loads, the template can be hashed, the
    inputs are those on record, and the document holds at least one build
    and only complete builds, then, no call of the operating system failing,
    Run returns 0 and its last message advises to use [-force]. This is so
    whatever the arguments are, [-force] included, and whatever Packer and
    the engine would do: neither is asked for the builds. And yet the
    deferred Close writes the state file anew, with the serial incremented;
    the lock is released, and no other file changes (but a temporary file
    left over, which is gone). *)
Theorem BuildCommand_nothing_to_do
        (packer : Packer.t) (engine : Engine) (order : list (string * option Build.t))
        (statePath : string) (args : list string) (w w0 w1 : World)
        (said : list UiEvent) (cfg : BuildArgs.t) (st : State.t) (m1 : Manager.t)
        (templateHash : string) :
  Packer.ParseArgs packer args w = (said, w0, cfg, 0%Z) ->
  let path := build_state_path statePath cfg in
  Manager.Load (NewManager path) w0 = (inl st, m1, w1) ->
  ComputeFileHash (BuildArgs.Path cfg) w1 = inl templateHash ->
  Manager.InputsChanged m1 templateHash (BuildArgs.Vars cfg) GoMap.make = false ->
  GoMap.range_order (State.Builds st) order ->
  order <> [] ->
  all_complete order ->
  faults w1 = [] ->
  exists said' w2,
    BuildCommand.Run packer engine order statePath args w
    = (Return 0%Z, path, (said' ++ [UiSay "Use -force to rebuild anyway."])%list, w2)
    /\ files w2 = <[path := State.Encode (saved path st)]>
                    (delete (path ++ ".tmp")%string (files w0)).
Proof.
  intros Hparse path HL Hhash Hsame Horder Hnonempty Hcomplete Hq.
  destruct (Manager_Load_success _ _ _ _ _ HL)
    as (lock & data & -> & Hdata & Habsent & Hfiles & _).
  assert (Hlen : (0 <? GoMap.len (State.Builds st))%nat = true).
  { rewrite (range_order_length _ _ Horder). destruct order; [contradiction |]. reflexivity. }
  destruct (Close_quiet_files path lock data st w1 Hdata) as (m' & w2 & Hclose & Hw2).
  { rewrite Hfiles. apply lookup_insert_eq. }
  { exact Hq. }
  unfold BuildCommand.Run. rewrite Hparse. cbn [negb Z.eqb].
  fold (build_state_path statePath cfg). fold path. rewrite HL.
  unfold BuildCommand.Run_loaded. cbn [manager world ui]. rewrite Hhash, Hsame. cbn [negb].
  unfold_cmd. unfold Say at 1. rewrite (report_builds_complete _ _ _ Hcomplete).
  cbn [manager world ui]. rewrite Hlen. cbn [andb]. unfold Say, ret. cbn [manager world ui].
  rewrite Hclose.
  eexists _, w2. split; [reflexivity |].
  destruct (lock_path_differs path) as [Hne1 Hne2].
  rewrite Hw2, Hfiles.
  rewrite delete_insert_ne by congruence. rewrite delete_insert_ne by congruence.
  rewrite delete_insert_eq, (delete_delete (files w0)).
  now rewrite (delete_id (files w0) (path ++ ".lock")).
Qed.

(** Builds on record as complete are not run: their artifacts come from
    the record, and only messages are added to the session. *)
Lemma run_builds_cached (engine : Engine) (builds : list CoreBuild.t) (st : State.t)
      (artifacts : list Artifact.t) (s : Session) :
  Manager.state (manager s) = Some st ->
  all_recorded_complete st builds ->
  exists cached said,
    BuildCommand.run_builds engine builds artifacts s
    = (Return (Some (artifacts ++ cached)%list),
       mkSession (manager s) (world s) (ui s ++ said)%list)
    /\ Forall (fun a => exists c, a = Artifact.Cached c) cached.
Proof.
  intros Hst H. revert artifacts s Hst.
  induction H as [|cb rest (b & Hb & Hc) _ IH]; intros artifacts s Hst.
  - exists [], []. cbn. rewrite !app_nil_r. split; [now destruct s | constructor].
  - cbn [BuildCommand.run_builds]. unfold_cmd. unfold Say at 1.
    set (s1 := mkSession _ _ _).
    destruct (Run_complete_build_returns_cached (NewStatefulBuild cb) engine s1 st b Hst Hb Hc)
      as (arts & msg1 & msg2 & Hrun & _ & _ & _ & _ & Hcached).
    rewrite Hrun.
    destruct (IH (artifacts ++ arts)%list (mkSession (manager s1) (world s1)
                                             (ui s1 ++ [UiSay msg1; UiSay msg2])) Hst)
      as (cached & said & -> & Hrest).
    exists (arts ++ cached)%list. eexists. split.
    + cbn [manager world ui s1]. rewrite <- !app_assoc. reflexivity.
    + apply Forall_app. split; [| exact Hrest].
      eapply Forall_impl; [exact Hcached |]. intros a (c & -> & _). eauto.
Qed.

Lemma say_artifacts_ui (packer : Packer.t) (artifacts : list Artifact.t) (s : Session) :
  exists said,
    BuildCommand.say_artifacts packer artifacts s
    = (Return tt, mkSession (manager s) (world s) (ui s ++ said)%list).
Proof.
  revert s. induction artifacts as [|a rest IH]; intros s.
  - exists []. cbn. rewrite app_nil_r. now destruct s.
  - cbn [BuildCommand.say_artifacts]. unfold_cmd. unfold Say at 1.
    destruct (IH (mkSession (manager s) (world s)
                            (ui s ++ [UiSay ("    " ++ Artifact.BuilderId a ++ ": "
                                               ++ BuildCommand.Artifact_String packer a)])))
      as (said & ->).
    eexists. cbn [manager world ui]. rewrite <- app_assoc. reflexivity.
Qed.

(** X29. The build command when the inputs have changed and every build of
    the template is on record as complete. Run tells the user that the
    template inputs changed and that it will rebuild, and rebuilds nothing:
    it returns 0, and the files are those the calls of Packer left, but for
    the state file, which is written anew, the temporary file and the lock
    file, which are gone; whatever the engine is, it has changed none. The
    document saved has the builds as they were and records the new inputs,
    so that InputsChanged with these inputs answers false from then on.
    (Packer's calls succeed, find at least one build and leave the lock file
    alone; no later call of the operating system fails.) *)
Theorem BuildCommand_changed_inputs_not_rebuilt
        (packer : Packer.t) (engine : Engine) (order : list (string * option Build.t))
        (statePath : string) (args : list string) (w w0 w1 wa wb wc w4 : World)
        (said said1 said2 said3 said4 : list UiEvent) (cfg : BuildArgs.t)
        (st : State.t) (m1 : Manager.t) (templateHash : string)
        (builds : list CoreBuild.t) (code : Z) :
  Packer.ParseArgs packer args w = (said, w0, cfg, 0%Z) ->
  let path := build_state_path statePath cfg in
  Manager.Load (NewManager path) w0 = (inl st, m1, w1) ->
  ComputeFileHash (BuildArgs.Path cfg) w1 = inl templateHash ->
  Manager.InputsChanged m1 templateHash (BuildArgs.Vars cfg) GoMap.make = true ->
  Packer.GetConfig packer cfg w1 = (said1, wa, 0%Z) ->
  Packer.DetectPluginBinaries packer cfg wa = (said2, wb, 0%Z) ->
  Packer.Initialize packer cfg wb = (said3, wc, 0%Z) ->
  Packer.GetBuilds packer cfg wc = (said4, w4, builds, code) ->
  builds <> [] ->
  all_recorded_complete st builds ->
  files w4 !! (path ++ ".lock")%string = files w1 !! (path ++ ".lock")%string ->
  faults w4 = [] ->
  let st' := saved path (State.set_Template
                           (TemplateState.mk (BuildArgs.Path cfg) templateHash
                                             (BuildArgs.Vars cfg) GoMap.make) st) in
  exists said' w5,
    BuildCommand.Run packer engine order statePath args w = (Return 0%Z, path, said', w5)
    /\ UiSay "Template inputs changed, will rebuild" ∈ said'
    /\ files w5 = delete (path ++ ".lock")%string
                    (<[path := State.Encode st']> (delete (path ++ ".tmp")%string (files w4)))
    /\ State.Builds st' = State.Builds st
    /\ forall m', Manager.state m' = Some st' ->
                  Manager.InputsChanged m' templateHash (BuildArgs.Vars cfg) GoMap.make = false.
Proof.
  intros Hparse path HL Hhash Hchanged H1 H2 H3 H4 Hbuilds Hrecorded Hlock Hq st'.
  destruct (Manager_Load_success _ _ _ _ _ HL)
    as (lock & data & -> & Hdata & Habsent & Hfiles & _).
  set (st1 := State.set_Template _ st) in st'.
  destruct (Close_quiet_files path lock data st1 w4 Hdata) as (m' & w5 & Hclose & Hw5).
  { rewrite Hlock, Hfiles. apply lookup_insert_eq. }
  { exact Hq. }
  unfold BuildCommand.Run. rewrite Hparse. cbn [negb Z.eqb].
  fold (build_state_path statePath cfg). fold path. rewrite HL.
  unfold BuildCommand.Run_loaded. cbn [manager world ui]. rewrite Hhash, Hchanged. cbn [negb].
  unfold_cmd. unfold Say at 1. cbn [manager world ui].
  unfold Manager.UpdateTemplateInputs. cbn [Manager.state Manager.set_state Manager.statePath
                                            Manager.lockManager]. fold st1.
  unfold BuildCommand.runStatefulBuild. unfold_cmd.
  unfold BuildCommand.ask at 1. cbn [manager world ui]. rewrite H1. cbn [negb Z.eqb].
  unfold BuildCommand.ask at 1. cbn [manager world ui]. rewrite H2. cbn [negb Z.eqb].
  unfold BuildCommand.ask at 1. cbn [manager world ui]. rewrite H3. cbn [negb Z.eqb].
  cbn [manager world ui]. rewrite H4. cbn [manager world ui].
  unfold Manager.set_state. cbn [Manager.statePath Manager.lockManager].
  destruct builds as [|cb rest] eqn:Eb; [contradiction |]. rewrite <- Eb in *.
  replace (length builds =? 0)%nat with false by (rewrite Eb; reflexivity). cbn [andb].
  unfold Say at 1.
  match goal with
  | |- context [BuildCommand.run_builds engine builds [] ?s0] =>
      destruct (run_builds_cached engine builds st1 [] s0 eq_refl) as (cached & more & -> & _)
  end.
  { exact Hrecorded. }
  unfold Say at 1.
  match goal with
  | |- context [BuildCommand.say_artifacts packer ?arts ?s0] =>
      destruct (say_artifacts_ui packer arts s0) as (summary & ->)
  end.
  unfold ret. cbn [manager world ui]. rewrite Hclose.
  eexists _, w5. split; [reflexivity |]. split; [| split; [exact Hw5 | split; [reflexivity |]]].
  - assert (Hl : forall (x : UiEvent) a b, x ∈ a -> x ∈ (a ++ b)%list)
      by (intros; apply elem_of_app; auto).
    assert (Hr : forall (x : UiEvent) a, x ∈ (a ++ [x])%list)
      by (intros; apply elem_of_app; right; left).
    auto 20.
  - intros m2 Hm2.
    pose proof (InputsChanged_same m2 st' (BuildArgs.Vars cfg) GoMap.make Hm2) as H.
    apply H; reflexivity.
Qed.

Lemma BuildCommand_nothing_to_do_witness :
  let path := "/t/.packer.d/builder-state.json" in
  let r := Manager.Load (NewManager path) world_up_to_date in
  let st := default State.zero (Manager.state (snd (fst r))) in
  exists said' w2,
    BuildCommand.Run packer_one_build engine_wipes
                     (map_to_list (GoMap.table (State.Builds st)))
                     "" ["-force"; "/t/x.pkr.hcl"] world_up_to_date
    = (Return 0%Z, path, (said' ++ [UiSay "Use -force to rebuild anyway."])%list, w2)
    /\ files w2 = <[path := State.Encode (saved path st)]>
                    (delete (path ++ ".tmp")%string (files world_up_to_date)).
Proof.
  intros path r st.
  apply (BuildCommand_nothing_to_do
           packer_one_build engine_wipes (map_to_list (GoMap.table (State.Builds st)))
           "" ["-force"; "/t/x.pkr.hcl"] world_up_to_date world_up_to_date (snd r) []
           (BuildArgs.mk "/t/x.pkr.hcl" (Some {["v" := "2"]}) [] [] false true "" false false)
           st (snd (fst r)) (ComputeStringHash "source {}")).
  - reflexivity.
  - vm_compute. reflexivity.
  - vm_compute. reflexivity.
  - vm_compute. reflexivity.
  - unfold GoMap.range_order. reflexivity.
  - vm_compute. discriminate.
  - vm_compute. repeat constructor. eexists. split; reflexivity.
  - vm_compute. reflexivity.
Defined.

Lemma BuildCommand_changed_inputs_not_rebuilt_witness :
  let path := "/t/state.json" in
  let r := Manager.Load (NewManager path) world_with_changed_inputs in
  let st := default State.zero (Manager.state (snd (fst r))) in
  exists said' w5,
    BuildCommand.Run packer_one_build engine_wipes [] path ["/t/x.pkr.hcl"]
                     world_with_changed_inputs
    = (Return 0%Z, path, said', w5)
    /\ UiSay "Template inputs changed, will rebuild" ∈ said'
    /\ State.Builds st = State.Builds document_with_complete_build.
Proof.
  intros path r st.
  destruct (BuildCommand_changed_inputs_not_rebuilt
              packer_one_build engine_wipes [] path ["/t/x.pkr.hcl"]
              world_with_changed_inputs world_with_changed_inputs
              (snd r) (snd r) (snd r) (snd r) (snd r) [] [] [] [] []
              (BuildArgs.mk "/t/x.pkr.hcl" (Some {["v" := "2"]}) [] [] false true "" false false)
              st (snd (fst r)) (ComputeStringHash "source {}")
              [CoreBuild.mk "b" "null" []] 0%Z)
    as (said' & w5 & Hrun & Hsaid & _).
  - reflexivity.
  - vm_compute. reflexivity.
  - vm_compute. reflexivity.
  - vm_compute. reflexivity.
  - reflexivity.
  - reflexivity.
  - reflexivity.
  - reflexivity.
  - discriminate.
  - repeat constructor. eexists. split; vm_compute; reflexivity.
  - reflexivity.
  - vm_compute. reflexivity.
  - exists said', w5. split; [exact Hrun |]. split; [exact Hsaid |]. vm_compute. reflexivity.
Defined.

(** ** Showing the state *)

Section StateShow.

Variable time_IsZero : Time -> bool.
Variable time_Format : string -> Time -> string.

Lemma show_builds_outcome (entries : list (string * option Build.t)) :
  let r := StateShowCommand.show_builds time_IsZero time_Format entries in
  (fst r = Return 0%Z \/ fst r = Panic BuildCommand.nil_dereference)
  /\ (fst r = Panic BuildCommand.nil_dereference <-> exists name, (name, None) ∈ entries).
Proof.
  induction entries as [|[name [b|]] rest IH]; cbn [StateShowCommand.show_builds].
  - split; [left; reflexivity |]. split; [discriminate |].
    intros (name & H). now apply elem_of_nil in H.
  - cbn zeta in IH.
    destruct (StateShowCommand.show_builds time_IsZero time_Format rest) as [r said].
    cbn [fst] in *. destruct IH as [Hcases Hiff]. split; [exact Hcases |].
    rewrite Hiff. split; intros (n & Hn); exists n.
    + now apply elem_of_cons; right.
    + apply elem_of_cons in Hn as [[=] | Hn]. exact Hn.
  - cbn [fst]. split; [right; reflexivity |]. split; [| reflexivity].
    intros _. exists name. apply elem_of_cons. now left.
Qed.

(** X30. [state show], whatever [IsZero] and [Format] of a time are. It
    returns 1 without a message when the flags do not parse, 1 with the
    error when the state cannot be loaded, and 0 with [No state file found.]
    when there is no state file. With a document loaded it either returns 0
    or panics on a nil pointer, and it panics exactly when the document
    holds a build that is nil ([null] in the state file), in whatever order
    the loop meets the builds; its first message names the state file. *)
Theorem StateShow_outcome
        (order : list (string * option Build.t)) (args : list string) (w : World) :
  let r := StateShowCommand.Run time_IsZero time_Format order args w in
  match flag_Parse "" args with
  | None => r = (Return 1%Z, [])
  | Some (statePath, _) =>
      match Load (state_path_of statePath) w with
      | inr err => r = (Return 1%Z, [UiError ("Error loading state: " ++ Error_text err)])
      | inl None => r = (Return 0%Z, [UiSay "No state file found."])
      | inl (Some st) =>
          GoMap.range_order (State.Builds st) order ->
          (fst r = Return 0%Z \/ fst r = Panic BuildCommand.nil_dereference)
          /\ (fst r = Panic BuildCommand.nil_dereference <-> has_nil_build st)
          /\ head (snd r) = Some (UiSay ("State file: " ++ state_path_of statePath))
      end
  end.
Proof.
  intros r. subst r. unfold StateShowCommand.Run.
  destruct (flag_Parse "" args) as [[statePath rest]|]; [| reflexivity].
  fold (state_path_of statePath).
  destruct (Load (state_path_of statePath) w) as [[st|] | err]; try reflexivity.
  intros Horder.
  assert (Hnil : (exists name, (name, None) ∈ order) <-> has_nil_build st).
  { unfold has_nil_build. split; intros (name & H); exists name.
    - apply elem_of_map_to_list. now rewrite <- Horder.
    - rewrite Horder. now apply elem_of_map_to_list. }
  destruct (GoMap.len (State.Builds st) =? 0)%nat eqn:Hlen.
  - cbn [fst snd head]. split; [left; reflexivity |]. split; [| reflexivity].
    split; [discriminate |]. intros (name & H). exfalso.
    apply Nat.eqb_eq in Hlen. unfold GoMap.len in Hlen. apply map_size_empty_inv in Hlen.
    rewrite Hlen in H. now rewrite lookup_empty in H.
  - pose proof (show_builds_outcome order) as H. cbn zeta in H.
    destruct (StateShowCommand.show_builds time_IsZero time_Format order) as [r said].
    cbn [fst snd head] in *. destruct H as [Hcases Hiff].
    split; [exact Hcases |]. split; [| reflexivity]. now rewrite Hiff.
Qed.

End StateShow.

Lemma StateShow_outcome_witness :
  let r := StateShowCommand.Run (String.eqb zero_time) (fun _ t => t) [("web", None)]
                                ["-state"; "/t/state.json"] world_with_null_build in
  fst r = Panic BuildCommand.nil_dereference.
Proof.
  intros r.
  pose proof (StateShow_outcome (String.eqb zero_time) (fun _ t => t) [("web", None)]
                                ["-state"; "/t/state.json"] world_with_null_build) as H.
  vm_compute in H. destruct H as (_ & Hiff & _).
  - apply Permutation_refl.
  - vm_compute. apply Hiff. exists "web". vm_compute. reflexivity.
Defined.

